(** * Yuki (yuki-zpm): the resolution / fetch / cache pipeline

    A shallow embedding of the Go sources of the package manager and the
    properties of its specification:

    - [semver]     version parsing, ordering, constraints, best match;
    - [manifest]   the dependency tables and the validation of a manifest;
    - [github]     the repository-locator parser and the metadata client;
    - [cache]      the in-memory fetch cache with its staleness check;
    - [integrity]  the SHA-256 file and directory-tree checksums and their
                   verification;
    - [fetch]      reference resolution and [FetchDependency];
    - [resolver]   [resolveVersion], [Resolve] and [CheckForUpdates];
    - [sync]       the manifest / lock-file consistency check;
    - [cli]        the parts of the commands that work on the manifest, the
                   lock file and the cache.

    Go strings are byte strings: they are modelled by [string] (a list of
    8-bit characters).  Go maps are [gmap]s; the order of a [range] over a map
    is a parameter.  Everything outside the repository (the file system, the
    git binary, the HTTP API, Go's [net/url] and [regexp]) is a field of an
    explicit environment record. *)

From Stdlib Require Import ZArith NArith Ascii String List Permutation Sorted Lia Bool.
From stdpp Require Import base option list gmap strings pretty.

Local Open Scope string_scope.

(** ** Go's [strings] package (the functions the sources call) *)

Module strings.

(** [strings.HasPrefix(s, prefix)] *)
Definition HasPrefix (s pre : string) : bool := String.prefix pre s.

Fixpoint drop_bytes (n : nat) (s : string) : string :=
  match n, s with
  | O, _ => s
  | S n', String _ s' => drop_bytes n' s'
  | S _, EmptyString => EmptyString
  end.

(** [strings.TrimPrefix(s, prefix)]: [s] without the leading [prefix], or
    [s] itself when it does not start with it. *)
Definition TrimPrefix (s pre : string) : string :=
  if HasPrefix s pre then drop_bytes (String.length pre) s else s.

(** [strings.HasSuffix(s, suffix)] *)
Definition HasSuffix (s suf : string) : bool :=
  let n := String.length s in
  let m := String.length suf in
  (m <=? n)%nat && String.eqb (drop_bytes (n - m) s) suf.

(** [strings.Contains(s, substr)] *)
Fixpoint Contains (s sub : string) : bool :=
  String.prefix sub s ||
  match s with
  | EmptyString => false
  | String _ s' => Contains s' sub
  end.

(** [strings.Split(s, sep)] for a one-byte separator (the sources only
    split on "/"): the pieces between the separators, so the result has
    one more element than [s] has separators. *)
Fixpoint Split (s : string) (sep : ascii) : list string :=
  match s with
  | EmptyString => [EmptyString]
  | String c s' =>
      if Ascii.eqb c sep then EmptyString :: Split s' sep
      else match Split s' sep with
           | [] => [String c EmptyString]
           | x :: xs => String c x :: xs
           end
  end.

(** [strings.Join(elems, sep)] *)
Fixpoint Join (elems : list string) (sep : string) : string :=
  match elems with
  | [] => EmptyString
  | [x] => x
  | x :: rest => x ++ sep ++ Join rest sep
  end.

(** The ASCII white space of [strings.Fields] and [strings.TrimSpace]:
    tab, line feed, vertical tab, form feed, carriage return, space.  Go
    counts the Unicode white space beyond ASCII (U+0085, U+00A0 and the
    other runes of [unicode.IsSpace]) as well; the strings modelled here are
    taken to hold none of those. *)
Definition isSpace (c : ascii) : bool :=
  let n := N_of_ascii c in
  ((9 <=? n) && (n <=? 13) || (n =? 32))%N.

(** [strings.Fields(s)]: the maximal runs of non-space bytes.  [cur] is
    the run being read, in reverse. *)
Fixpoint fields_aux (s : string) (cur : list ascii) : list string :=
  let flush (rest : list string) :=
    match cur with
    | [] => rest
    | _ => string_of_list_ascii (rev cur) :: rest
    end in
  match s with
  | EmptyString => flush []
  | String c s' =>
      if isSpace c then flush (fields_aux s' [])
      else fields_aux s' (c :: cur)
  end.

Definition Fields (s : string) : list string := fields_aux s [].

Fixpoint trim_left (s : string) : string :=
  match s with
  | String c s' => if isSpace c then trim_left s' else s
  | EmptyString => EmptyString
  end.

Definition rev_string (s : string) : string :=
  string_of_list_ascii (rev (list_ascii_of_string s)).

(** [strings.TrimSpace(s)] *)
Definition TrimSpace (s : string) : string :=
  rev_string (trim_left (rev_string (trim_left s))).

(** [strings.ReplaceAll(s, old, new)] for a one-byte [old]. *)
Fixpoint ReplaceAll (s : string) (old : ascii) (new : string) : string :=
  match s with
  | EmptyString => EmptyString
  | String c s' =>
      if Ascii.eqb c old then new ++ ReplaceAll s' old new
      else String c (ReplaceAll s' old new)
  end.

End strings.

(** ** SHA-256 (Go's [crypto/sha256]), after FIPS 180-4 *)

Module sha256.
Local Open Scope N_scope.

Definition mask32 : N := 0xFFFFFFFF.
Definition add32 (a b : N) : N := N.land (a + b) mask32.
Definition rotr (n x : N) : N :=
  N.lor (N.shiftr x n) (N.land (N.shiftl x (32 - n)) mask32).
Definition not32 (x : N) : N := N.lxor x mask32.

Definition Ch (x y z : N) : N := N.lxor (N.land x y) (N.land (not32 x) z).
Definition Maj (x y z : N) : N :=
  N.lxor (N.lxor (N.land x y) (N.land x z)) (N.land y z).
Definition bsig0 (x : N) : N := N.lxor (N.lxor (rotr 2 x) (rotr 13 x)) (rotr 22 x).
Definition bsig1 (x : N) : N := N.lxor (N.lxor (rotr 6 x) (rotr 11 x)) (rotr 25 x).
Definition ssig0 (x : N) : N := N.lxor (N.lxor (rotr 7 x) (rotr 18 x)) (N.shiftr x 3).
Definition ssig1 (x : N) : N := N.lxor (N.lxor (rotr 17 x) (rotr 19 x)) (N.shiftr x 10).

(** The first 64 primes. *)
Definition is_prime (n : N) : bool :=
  (1 <? n) && forallb (fun d => negb (n mod d =? 0))
                      (List.map N.of_nat (seq 2 (N.to_nat n - 2))).

Definition primes : list N :=
  Eval vm_compute in List.filter is_prime (List.map N.of_nat (seq 2 310)).

(** The integer cube root, one bit at a time from bit [bits] down. *)
Fixpoint cbrt_bits (bits : nat) (n x : N) : N :=
  match bits with
  | O => x
  | S b =>
      let y := x + N.shiftl 1 (N.of_nat b) in
      cbrt_bits b n (if y * y * y <=? n then y else x)
  end.

(** The round constants: the first 32 bits of the fractional parts of the
    cube roots of the first 64 primes. *)
Definition K : list N :=
  Eval vm_compute in
    List.map (fun p => N.land (cbrt_bits 40 (N.shiftl p 96) 0) mask32) primes.

(** The initial hash value: the first 32 bits of the fractional parts of the
    square roots of the first 8 primes. *)
Definition H0 : list N :=
  Eval vm_compute in
    List.map (fun p => N.land (N.sqrt (N.shiftl p 64)) mask32) (firstn 8 primes).

(** The eight working variables a..h. *)
Definition regs : Type := (N * N * N * N * N * N * N * N)%type.

Definition regs_of_list (l : list N) : regs :=
  match l with
  | [a; b; c; d; e; f; g; h] => (a, b, c, d, e, f, g, h)
  | _ => (0, 0, 0, 0, 0, 0, 0, 0)
  end.

Definition list_of_regs (r : regs) : list N :=
  let '(a, b, c, d, e, f, g, h) := r in [a; b; c; d; e; f; g; h].

(** One round: [w] is the 16-word window W[t..t+15] of the message
    schedule, [k] the round constant. *)
Definition round (r : regs) (k wt : N) : regs :=
  let '(a, b, c, d, e, f, g, h) := r in
  let t1 := add32 (add32 (add32 (add32 h (bsig1 e)) (Ch e f g)) k) wt in
  let t2 := add32 (bsig0 a) (Maj a b c) in
  (add32 t1 t2, a, b, c, add32 d t1, e, f, g).

Definition next_window (w : list N) : list N :=
  let at_ i := nth i w 0 in
  tl w ++ [add32 (add32 (add32 (ssig1 (at_ 14%nat)) (at_ 9%nat))
                        (ssig0 (at_ 1%nat))) (at_ 0%nat)].

Fixpoint rounds (ks : list N) (w : list N) (r : regs) : regs :=
  match ks with
  | [] => r
  | k :: ks' => rounds ks' (next_window w) (round r k (nth 0 w 0))
  end.

(** Compression of one 16-word block into the chaining value. *)
Definition compress (h : list N) (block : list N) : list N :=
  zip_with add32 h (list_of_regs (rounds K block (regs_of_list h))).

Fixpoint be_bytes (n : nat) (x : N) : list N :=
  match n with
  | O => []
  | S n' => N.land (N.shiftr x (8 * N.of_nat n')) 0xFF :: be_bytes n' x
  end.

(** Padding: a 1 bit, zeros up to 56 mod 64 bytes, the bit length on 64 bits. *)
Definition pad (msg : list N) : list N :=
  let len := N.of_nat (length msg) in
  let zeros := N.to_nat ((119 - len mod 64) mod 64) in
  msg ++ [0x80] ++ repeat 0 zeros ++ be_bytes 8 (8 * len).

Fixpoint words (n : nat) (bs : list N) : list N :=
  match n, bs with
  | S n', b0 :: b1 :: b2 :: b3 :: rest =>
      (N.shiftl b0 24 + N.shiftl b1 16 + N.shiftl b2 8 + b3) :: words n' rest
  | _, _ => []
  end.

(** Absorb the padded message 64 bytes at a time; [n] bounds the number of
    blocks (the padded length divided by 64). *)
Fixpoint absorb (n : nat) (h : list N) (bs : list N) : list N :=
  match n with
  | O => h
  | S n' => absorb n' (compress h (words 16 (firstn 64 bs))) (skipn 64 bs)
  end.

Definition bytes_of_string (s : string) : list N :=
  map N_of_ascii (list_ascii_of_string s).

(** [sha256.Sum256]: the 32 digest bytes. *)
Definition Sum (msg : string) : list N :=
  let p := pad (bytes_of_string msg) in
  flat_map (be_bytes 4) (absorb (length p / 64) H0 p).

Definition hex_digit (n : N) : ascii :=
  ascii_of_N (if n <? 10 then 48 + n else 87 + n).

(** [fmt.Sprintf("%x", bytes)]: two lower-case hex digits per byte. *)
Fixpoint hex (bs : list N) : string :=
  match bs with
  | [] => EmptyString
  | b :: bs' => String (hex_digit (b / 16)) (String (hex_digit (b mod 16)) (hex bs'))
  end.

Definition hexsum (msg : string) : string := hex (Sum msg).

End sha256.


(** ** Results of fallible calls: a value, or the text of the Go [error] *)

Inductive result (A : Type) : Type :=
| Ok (a : A)
| Err (msg : string).
Arguments Ok {A} a.
Arguments Err {A} msg.

Definition is_ok {A} (r : result A) : bool :=
  match r with Ok _ => true | Err _ => false end.

(** How a call ends: it returns, or the Go runtime panics. *)
Inductive outcome (A : Type) : Type :=
| Returns (r : result A)
| Panics (msg : string).
Arguments Returns {A} r.
Arguments Panics {A} msg.

(** ** Package [semver] *)

Module semver.
Local Open Scope Z_scope.

Record Version := mkVersion {
  Major : Z;
  Minor : Z;
  Patch : Z;
  Prerelease : string;
  Build : string
}.

Record Constraint := mkConstraint {
  Operator : string;
  CVersion : Version
}.

Definition isDigit (c : ascii) : bool :=
  let n := N_of_ascii c in ((48 <=? n) && (n <=? 57))%N.

(** The class [[0-9A-Za-z\-\.]] of the prerelease and build groups. *)
Definition isLabelChar (c : ascii) : bool :=
  let n := N_of_ascii c in
  (((48 <=? n) && (n <=? 57)) || ((65 <=? n) && (n <=? 90))
   || ((97 <=? n) && (n <=? 122)) || (n =? 45) || (n =? 46))%N.

(** The longest prefix of [s] whose bytes satisfy [p], and the rest. *)
Fixpoint span (p : ascii -> bool) (s : string) : string * string :=
  match s with
  | EmptyString => (EmptyString, EmptyString)
  | String c s' =>
      if p c then let '(a, b) := span p s' in (String c a, b)
      else (EmptyString, s)
  end.

Definition maxInt : Z := 9223372036854775807.

(** [strconv.Atoi] on a non-empty run of decimal digits (64-bit [int]); a
    value out of range comes back as the largest [int], and the sources drop
    the error. *)
Definition Atoi (digits : string) : Z :=
  let v := fold_left (fun acc c => 10 * acc + (Z.of_N (N_of_ascii c) - 48))
                     (list_ascii_of_string digits) 0 in
  Z.min v maxInt.

(** [\d+] followed by the byte [sep]. *)
Definition number_then (sep : ascii) (s : string) : option (Z * string) :=
  match span isDigit s with
  | (EmptyString, _) => None
  | (ds, String c rest) => if Ascii.eqb c sep then Some (Atoi ds, rest) else None
  | (_, EmptyString) => None
  end.

(** A non-empty run of label bytes, and what follows it. *)
Definition label (s : string) : option (string * string) :=
  match span isLabelChar s with
  | (EmptyString, _) => None
  | (l, rest) => Some (l, rest)
  end.

(** The optional group [(?:\+([0-9A-Za-z\-\.]+))?$]. *)
Definition build_tail (s : string) : option string :=
  match s with
  | EmptyString => Some EmptyString
  | String "+" r =>
      match label r with
      | Some (b, EmptyString) => Some b
      | _ => None
      end
  | _ => None
  end.

(** [ParseVersion]: the text must match
    [^v?(\d+)\.(\d+)\.(\d+)(?:-([0-9A-Za-z\-\.]+))?(?:\+([0-9A-Za-z\-\.]+))?$]. *)
Definition ParseVersion (version : string) : result Version :=
  let fail := Err ("invalid semantic version: " ++ version) in
  let s0 := match version with String "v" r => r | _ => version end in
  match number_then "." s0 with
  | None => fail
  | Some (major, s1) =>
      match number_then "." s1 with
      | None => fail
      | Some (minor, s2) =>
          match span isDigit s2 with
          | (EmptyString, _) => fail
          | (ds, rest) =>
              let patch := Atoi ds in
              match rest with
              | String "-" r =>
                  match label r with
                  | Some (pre, r') =>
                      match build_tail r' with
                      | Some b => Ok (mkVersion major minor patch pre b)
                      | None => fail
                      end
                  | None => fail
                  end
              | _ =>
                  match build_tail rest with
                  | Some b => Ok (mkVersion major minor patch EmptyString b)
                  | None => fail
                  end
              end
          end
      end
  end.

(** [Version.String] *)
Definition String_ (v : Version) : string :=
  let version := pretty (Major v) ++ "." ++ pretty (Minor v) ++ "." ++ pretty (Patch v) in
  let version := if String.eqb (Prerelease v) "" then version
                 else version ++ "-" ++ Prerelease v in
  if String.eqb (Build v) "" then version else version ++ "+" ++ Build v.

(** [Version.Compare] *)
Definition Compare (v other : Version) : Z :=
  if negb (Major v =? Major other) then
    if Major v <? Major other then -1 else 1
  else if negb (Minor v =? Minor other) then
    if Minor v <? Minor other then -1 else 1
  else if negb (Patch v =? Patch other) then
    if Patch v <? Patch other then -1 else 1
  else if String.eqb (Prerelease v) "" && negb (String.eqb (Prerelease other) "") then 1
  else if negb (String.eqb (Prerelease v) "") && String.eqb (Prerelease other) "" then -1
  else if negb (String.eqb (Prerelease v) (Prerelease other)) then
    if String.ltb (Prerelease v) (Prerelease other) then -1 else 1
  else 0.

(** [ParseConstraint]: the operator is the first of "^", "~", ">=", "<=",
    ">", "<", "=" that prefixes the trimmed text, "=" when none does.  The
    Go function returns the constraint together with the error of
    [ParseVersion]; every caller drops the constraint when the error is set. *)
Definition ParseConstraint (constraint : string) : result Constraint :=
  let constraint := strings.TrimSpace constraint in
  let with_op (op : string) (n : nat) :=
    match ParseVersion (strings.drop_bytes n constraint) with
    | Ok v => Ok (mkConstraint op v)
    | Err e => Err e
    end in
  if strings.HasPrefix constraint "^" then with_op "^" 1%nat
  else if strings.HasPrefix constraint "~" then with_op "~" 1%nat
  else if strings.HasPrefix constraint ">=" then with_op ">=" 2%nat
  else if strings.HasPrefix constraint "<=" then with_op "<=" 2%nat
  else if strings.HasPrefix constraint ">" then with_op ">" 1%nat
  else if strings.HasPrefix constraint "<" then with_op "<" 1%nat
  else if strings.HasPrefix constraint "=" then with_op "=" 1%nat
  else with_op "=" 0%nat.

(** [Constraint.Satisfies] *)
Definition Satisfies (c : Constraint) (version : Version) : bool :=
  let op := Operator c in
  if String.eqb op "^" then
    if negb (Major version =? Major (CVersion c)) then false
    else 0 <=? Compare version (CVersion c)
  else if String.eqb op "~" then
    if negb (Major version =? Major (CVersion c))
       || negb (Minor version =? Minor (CVersion c)) then false
    else 0 <=? Compare version (CVersion c)
  else if String.eqb op ">=" then 0 <=? Compare version (CVersion c)
  else if String.eqb op "<=" then Compare version (CVersion c) <=? 0
  else if String.eqb op ">" then 0 <? Compare version (CVersion c)
  else if String.eqb op "<" then Compare version (CVersion c) <? 0
  else if String.eqb op "=" then Compare version (CVersion c) =? 0
  else false.

(** [FindBestMatch]: the first greatest of the versions that satisfy the
    constraint. *)
Definition FindBestMatch (constraint : Constraint) (versions : list Version)
  : result Version :=
  let candidates := List.filter (Satisfies constraint) versions in
  match candidates with
  | [] => Err ("no version satisfies constraint " ++ Operator constraint
               ++ String_ (CVersion constraint))
  | first :: rest =>
      Ok (fold_left (fun best candidate =>
                       if 0 <? Compare candidate best then candidate else best)
                    rest first)
  end.

End semver.

(** ** Package [manifest] *)

Module manifest.

(** [Dependency].  The sources of [manifest.go] declare [Git], [Version],
    [Branch], [Tag], [Rev] and [RootFile]; [UseLatestCommit] is the field
    that [determineRefWithValidation] reads (its declaration is in a later
    revision of the struct). *)
Record Dependency := mkDependency {
  Git : string;
  Version : string;
  Branch : string;
  Tag : string;
  Rev : string;
  RootFile : string;
  UseLatestCommit : bool
}.

Record LockedPackage := mkLockedPackage {
  Name : string;
  LVersion : string;
  Source : string;
  Checksum : string;
  Deps : list string
}.

Record LockFile := mkLockFile {
  MetadataVersion : string;
  Package : list LockedPackage
}.

(** The three dependency tables of a [Manifest]. *)
Record Manifest := mkManifest {
  Dependencies : gmap string Dependency;
  DevDeps : gmap string Dependency;
  BuildDeps : gmap string Dependency
}.

(** [GetAllDependencies]: the three tables copied into one map, in this
    order, so a later table overrides an earlier one on a shared name. *)
Definition GetAllDependencies (m : Manifest) : gmap string Dependency :=
  BuildDeps m ∪ (DevDeps m ∪ Dependencies m).

(** [PackageInfo], the [package] table of the manifest. *)
Record PackageInfo := mkPackageInfo {
  PName : string;
  PVersion : string;
  Edition : string;
  Authors : list string;
  License : string;
  Description : string;
  Homepage : string;
  Repository : string;
  Keywords : list string;
  ZigVersion : string;
  PRootFile : string
}.

(** [validateDependency] *)
Definition validateDependency (name : string) (dep : Dependency) : result unit :=
  if String.eqb (Git dep) "" then
    Err ("dependency '" ++ name ++ "' must have a git URL")
  else
    let hasVersionSpec :=
      negb (String.eqb (Version dep) "") || negb (String.eqb (Branch dep) "")
      || negb (String.eqb (Tag dep) "") || negb (String.eqb (Rev dep) "") in
    if negb hasVersionSpec then
      Err ("dependency '" ++ name ++ "' must specify version, branch, tag, or rev")
    else Ok tt.

(** The loop of [Validate] over [m.Dependencies], in the order in which the
    [range] yields the table: the first error ends it. *)
Fixpoint validate_all (range : list (string * Dependency)) : result unit :=
  match range with
  | [] => Ok tt
  | (name, dep) :: rest =>
      match validateDependency name dep with
      | Err e => Err e
      | Ok _ => validate_all rest
      end
  end.

(** [Manifest.Validate]: [package] is the [Package] field of the manifest,
    [range] the order of the [range] over its [Dependencies]. *)
Definition Validate (package : PackageInfo) (range : list (string * Dependency))
  : result unit :=
  if String.eqb (PName package) "" then Err "package name is required"
  else if String.eqb (PVersion package) "" then Err "package version is required"
  else if String.eqb (ZigVersion package) "" then Err "zig_version is required"
  else validate_all range.

End manifest.

(** ** The environment *)

(** What [makeRequest] and the decoding of the body give for one URL:
    [RequestFailed] when the transport fails; [Unreadable] when there is an
    answer whose body [io.ReadAll] fails to read; otherwise the status code
    and the body decoded by [json.Unmarshal] into the type the caller asks
    for ([Err] with the decoder's error when decoding fails). *)
Inductive HttpResult (A : Type) : Type :=
| RequestFailed (msg : string)
| Unreadable (status : Z) (msg : string)
| Response (status : Z) (body : result A).
Arguments RequestFailed {A} msg.
Arguments Unreadable {A} status msg.
Arguments Response {A} status body.

(** [github.Release] *)
Record Release := mkRelease {
  TagName : string;
  RName : string;
  Draft : bool;
  RPrerelease : bool
}.

(** The remote side: the hosting API and what [git ls-remote] prints. *)
Record Remote := mkRemote {
  (** GET of a URL whose body is one release *)
  http_release : string -> HttpResult Release;
  (** GET of a URL whose body is a list of tags: their names *)
  http_tags : string -> HttpResult (list string);
  (** [exec.Command("git", "ls-remote", args...).Output()]: the standard
      output, or the error of a failed command *)
  ls_remote : list string -> result string
}.

(** Go library functions that [ParseRepoURL] calls. *)
Record GoLib := mkGoLib {
  (** [url.Parse]: the host and the path of the URL *)
  url_Parse : string -> result (string * string);
  (** [FindStringSubmatch] of the pattern
      [git@github\.com:([^/]+)/(.+?)(?:\.git)?$]: the match and its groups,
      the empty list when nothing matches *)
  ssh_FindStringSubmatch : string -> list string
}.

(** ** Package [github] *)

Module github.
Local Open Scope Z_scope.

Fixpoint trim_left_byte (c : ascii) (s : string) : string :=
  match s with
  | String c' s' => if Ascii.eqb c' c then trim_left_byte c s' else s
  | EmptyString => EmptyString
  end.

(** [strings.Trim(s, cutset)] for a one-byte cutset. *)
Definition Trim (s : string) (c : ascii) : string :=
  strings.rev_string (trim_left_byte c (strings.rev_string (trim_left_byte c s))).

(** [ParseRepoURL] *)
Definition ParseRepoURL (lib : GoLib) (repoURL : string) : result (string * string) :=
  if negb (strings.Contains repoURL "/") then
    Err ("invalid repository format: " ++ repoURL)
  else if negb (strings.Contains repoURL "://") && negb (strings.Contains repoURL "@") then
    match strings.Split repoURL "/" with
    | [owner; repo] => Ok (owner, repo)
    | _ => Err ("invalid repository format: " ++ repoURL)
    end
  else if strings.HasPrefix repoURL "http" then
    match url_Parse lib repoURL with
    | Err _ => Err ("invalid URL: " ++ repoURL)
    | Ok (host, path) =>
        if negb (String.eqb host "github.com") then
          Err "only GitHub repositories are supported"
        else
          match strings.Split (Trim path "/") "/" with
          | owner :: repo :: _ =>
              let repo := if strings.HasSuffix repo ".git"
                          then String.substring 0 (String.length repo - 4) repo
                          else repo in
              Ok (owner, repo)
          | _ => Err ("invalid repository URL: " ++ repoURL)
          end
    end
  else if strings.Contains repoURL "@" then
    match ssh_FindStringSubmatch lib repoURL with
    | [_; owner; repo] => Ok (owner, repo)
    | _ => Err ("invalid SSH repository URL: " ++ repoURL)
    end
  else Err ("unsupported repository URL format: " ++ repoURL).

(** [Client.GetLatestRelease] *)
Definition GetLatestRelease (r : Remote) (owner repo : string) : result Release :=
  let url := "https://api.github.com/repos/" ++ owner ++ "/" ++ repo ++ "/releases/latest" in
  match http_release r url with
  | RequestFailed e => Err ("failed to fetch latest release: " ++ e)
  | Unreadable status e =>
      if status =? 404 then Err "no releases found"
      else if negb (status =? 200) then Err ("GitHub API error: " ++ pretty status)
      else Err ("failed to read response: " ++ e)
  | Response status body =>
      if status =? 404 then Err "no releases found"
      else if negb (status =? 200) then Err ("GitHub API error: " ++ pretty status)
      else match body with
           | Err e => Err ("failed to parse response: " ++ e)
           | Ok release => Ok release
           end
  end.

(** [Client.GetTags] *)
Definition GetTags (r : Remote) (owner repo : string) : result (list string) :=
  let url := "https://api.github.com/repos/" ++ owner ++ "/" ++ repo ++ "/tags" in
  match http_tags r url with
  | RequestFailed e => Err ("failed to fetch tags: " ++ e)
  | Unreadable status e =>
      if negb (status =? 200) then Err ("GitHub API error: " ++ pretty status)
      else Err ("failed to read response: " ++ e)
  | Response status body =>
      if negb (status =? 200) then Err ("GitHub API error: " ++ pretty status)
      else match body with
           | Err e => Err ("failed to parse response: " ++ e)
           | Ok tagNames => Ok tagNames
           end
  end.

(** The tags that parse as versions, in their order. *)
Fixpoint parse_all (tags : list string) : list semver.Version :=
  match tags with
  | [] => []
  | tag :: rest =>
      match semver.ParseVersion tag with
      | Ok version => version :: parse_all rest
      | Err _ => parse_all rest
      end
  end.

(** [Client.GetAvailableVersions] *)
Definition GetAvailableVersions (r : Remote) (owner repo : string)
  : result (list semver.Version) :=
  match GetTags r owner repo with
  | Err e => Err e
  | Ok tags => Ok (parse_all tags)
  end.

End github.

(** ** Go's [path/filepath] (Unix separator) *)

Module filepath.

Definition Separator : ascii := "/".

(** One element of the path being cleaned, against the elements kept so
    far ([stack], last element first): empty and "." elements vanish, ".."
    removes the element before it, is dropped at the root and is kept at the
    start of a relative path. *)
Definition clean_step (rooted : bool) (stack : list string) (c : string)
  : list string :=
  if String.eqb c "" || String.eqb c "." then stack
  else if String.eqb c ".." then
    match stack with
    | top :: rest => if String.eqb top ".." then c :: stack else rest
    | [] => if rooted then [] else [c]
    end
  else c :: stack.

Definition clean_elems (rooted : bool) (elems : list string) : list string :=
  rev (fold_left (clean_step rooted) elems []).

(** [filepath.Clean] *)
Definition Clean (path : string) : string :=
  if String.eqb path "" then "."
  else
    let rooted := strings.HasPrefix path "/" in
    let out := (if rooted then "/" else "")
               ++ strings.Join (clean_elems rooted (strings.Split path Separator)) "/" in
    if String.eqb out "" then "." else out.

Fixpoint drop_empty (elem : list string) : list string :=
  match elem with
  | e :: rest => if String.eqb e "" then drop_empty rest else elem
  | [] => []
  end.

(** [filepath.Join]: the elements from the first non-empty one on, joined
    by the separator and cleaned; the empty string when all are empty. *)
Definition Join (elem : list string) : string :=
  match drop_empty elem with
  | [] => ""
  | rest => Clean (strings.Join rest "/")
  end.

(** [filepath.Base]: the last element of the path once its trailing
    separators are gone, that is the last non-empty piece between
    separators; "." for the empty path and "/" for a path of separators. *)
Definition Base (path : string) : string :=
  if String.eqb path "" then "."
  else
    match rev (List.filter (fun e => negb (String.eqb e ""))
                           (strings.Split path Separator)) with
    | e :: _ => e
    | [] => "/"
    end.

Fixpoint drop_to_sep (s : string) : string :=
  match s with
  | String c s' => if Ascii.eqb c Separator then s else drop_to_sep s'
  | EmptyString => EmptyString
  end.

(** [filepath.Dir]: the path up to its last separator, cleaned. *)
Definition Dir (path : string) : string :=
  Clean (strings.rev_string (drop_to_sep (strings.rev_string path))).

(** The elements that the loop of [Rel] steps through: the pieces between
    separators, where a final separator ends the path. *)
Definition elements (path : string) : list string :=
  if String.eqb path "" then []
  else if String.eqb path "/" then [""]
  else strings.Split path Separator.

Fixpoint strip_common (bs ts : list string) : list string * list string :=
  match bs, ts with
  | b :: bs', t :: ts' => if String.eqb b t then strip_common bs' ts' else (bs, ts)
  | _, _ => (bs, ts)
  end.

(** [filepath.Rel] *)
Definition Rel (basepath targpath : string) : result string :=
  let fail := Err ("Rel: can't make " ++ targpath ++ " relative to " ++ basepath) in
  let base := Clean basepath in
  let targ := Clean targpath in
  if String.eqb targ base then Ok "."
  else
    let base := if String.eqb base "." then "" else base in
    if negb (Bool.eqb (strings.HasPrefix base "/") (strings.HasPrefix targ "/")) then fail
    else
      match strip_common (elements base) (elements targ) with
      | ([], ts) => Ok (strings.Join ts "/")
      | (b :: bs, ts) =>
          match ts with
          | _ :: _ => if String.eqb b ".." then fail
                      else Ok (strings.Join (repeat ".." (S (length bs)) ++ ts) "/")
          | [] => Ok (strings.Join (repeat ".." (S (length bs))) "/")
          end
      end.

(** [filepath.IsAbs] *)
Definition IsAbs (path : string) : bool := strings.HasPrefix path "/".

End filepath.

(** ** The local machine *)

(** [cache.Entry] *)
Record Entry := mkEntry {
  EPath : string;
  EChecksum : string;
  EVersion : string;
  ECommitSHA : string
}.

(** A directory tree as [filepath.Walk] and [os.Open] see it: regular files
    with their bytes, directories with their entries in the order the
    directory lists them. *)
#[local] Unset Elimination Schemes.
Inductive Node : Type :=
| File (content : string)
| Dir (entries : list (string * Node)).
#[local] Set Elimination Schemes.

(** The outcome of [os.Stat] as far as [os.IsNotExist] tells: no error; an
    error that [os.IsNotExist] accepts (ENOENT: the last or an earlier
    component of the path is missing); any other error, such as ENOTDIR (a
    component of the path is a regular file, and nothing is at the path) or
    EACCES (a directory above cannot be searched). *)
Inductive StatResult := StatOk | StatNotExist | StatFailed.

(** The operating system over a file-system state [FS].  An operation that
    can fail gives the error text, if any, and the state it leaves. *)
Record OS (FS : Type) := mkOS {
  os_Stat : FS -> string -> StatResult;
  os_RemoveAll : FS -> string -> option string * FS;
  os_MkdirAll : FS -> string -> option string * FS;
  os_WriteFile : FS -> string -> string -> option string * FS;
  (** [json.MarshalIndent] of the cache index *)
  json_MarshalIndent : gmap string Entry -> result string;
  (** a [git] subprocess run in directory [dir] ("" when unset) with the
      given arguments: its combined output, its error, the state it leaves *)
  git : FS -> string -> list string -> string * option string * FS;
  (** the tree under a path, or the error that walking and reading it raises *)
  tree_at : FS -> string -> result Node
}.
Arguments os_Stat {FS}. Arguments os_RemoveAll {FS}. Arguments os_MkdirAll {FS}.
Arguments os_WriteFile {FS}. Arguments json_MarshalIndent {FS}.
Arguments git {FS}. Arguments tree_at {FS}.

(** ** Package [cache] *)

Module cache.

Record Cache := mkCache {
  cacheDir : string;
  entries : gmap string Entry
}.

Section ops.
Context {FS : Type} (os : OS FS).

Definition ensureCacheDir (c : Cache) (fs : FS) : option string * FS :=
  os_MkdirAll os fs (cacheDir c).

(** [save]: every failure is only logged. *)
Definition save (c : Cache) (fs : FS) : FS :=
  match ensureCacheDir c fs with
  | (Some _, fs1) => fs1
  | (None, fs1) =>
      let indexPath := filepath.Join [cacheDir c; "index.json"] in
      match json_MarshalIndent os (entries c) with
      | Err _ => fs1
      | Ok data => snd (os_WriteFile os fs1 indexPath data)
      end
  end.

(** [Get]: [None] stands for the pair [(Entry{}, false)]. *)
Definition Get (c : Cache) (fs : FS) (key : string)
  : option Entry * Cache * FS :=
  match entries c !! key with
  | None => (None, c, fs)
  | Some entry =>
      match os_Stat os fs (EPath entry) with
      | StatNotExist =>
          let c' := mkCache (cacheDir c) (delete key (entries c)) in
          (None, c', save c' fs)
      | _ => (Some entry, c, fs)
      end
  end.

(** [Set] *)
Definition Set_ (c : Cache) (fs : FS) (key : string) (entry : Entry)
  : Cache * FS :=
  let c' := mkCache (cacheDir c) (<[key := entry]> (entries c)) in
  (c', save c' fs).

(** [Delete] *)
Definition Delete (c : Cache) (fs : FS) (key : string) : Cache * FS :=
  let c' := mkCache (cacheDir c) (delete key (entries c)) in
  (c', save c' fs).

(** [Clear]: the entries are dropped first, then the directory is removed
    and made again; the error is the one [Clear] returns. *)
Definition Clear (c : Cache) (fs : FS) : option string * Cache * FS :=
  let c' := mkCache (cacheDir c) ∅ in
  match os_RemoveAll os fs (cacheDir c) with
  | (Some e, fs1) => (Some e, c', fs1)
  | (None, fs1) => let '(err, fs2) := ensureCacheDir c' fs1 in (err, c', fs2)
  end.

(** [ListEntries]: a copy of the entries. *)
Definition ListEntries (c : Cache) : gmap string Entry := entries c.

End ops.

End cache.

(** ** Package [integrity] *)

Module integrity.

(** [CalculateFileChecksum] of a file with the given bytes. *)
Definition CalculateFileChecksum (content : string) : string :=
  sha256.hexsum content.

(** [contains] *)
Fixpoint contains (slice : list string) (item : string) : bool :=
  match slice with
  | [] => false
  | s :: rest => if String.eqb s item then true else contains rest item
  end.

(** Insertion into a list sorted by [key]; [sort.Strings] orders byte-wise. *)
Fixpoint insert_by {A} (key : A -> string) (x : A) (l : list A) : list A :=
  match l with
  | [] => [x]
  | y :: l' => if String.leb (key x) (key y) then x :: l else y :: insert_by key x l'
  end.

Definition sort_by {A} (key : A -> string) (l : list A) : list A :=
  fold_right (insert_by key) [] l.

(** [filepath.Walk]: the visits, in order.  A visit is the path and the
    node there.  The entries of a directory are visited in the order of
    their sorted names, each under [filepath.Join(path, name)]. *)
Fixpoint Walk (path : string) (n : Node) {struct n} : list (string * Node) :=
  (path, n) ::
  match n with
  | File _ => []
  | Dir es =>
      concat (List.map snd
        (sort_by fst
           (List.map (fun e => (fst e, Walk (filepath.Join [path; fst e]) (snd e))) es)))
  end.

Definition IsDir (n : Node) : bool :=
  match n with Dir _ => true | File _ => false end.

(** The callback of [CalculateDirectoryChecksum]: does it append the path? *)
Definition selected (visit : string * Node) : bool :=
  let '(path, info) := visit in
  if IsDir info || String.eqb (filepath.Base path) ".git" then false
  else if contains (strings.Split path filepath.Separator) ".git" then false
  else true.

Definition content_of (n : Node) : string :=
  match n with File c => c | Dir _ => "" end.

(** What the loop over the sorted files writes to the hash: per file the
    relative path, a zero byte, the hex digest of the file, a zero byte. *)
Fixpoint hash_input (dirPath : string) (files : list (string * Node))
  : result string :=
  match files with
  | [] => Ok ""
  | (filePath, info) :: rest =>
      match filepath.Rel dirPath filePath with
      | Err e => Err e
      | Ok relPath =>
          match hash_input dirPath rest with
          | Err e => Err e
          | Ok tail =>
              Ok (relPath ++ String zero
                    (CalculateFileChecksum (content_of info) ++ String zero tail))
          end
      end
  end.

(** [CalculateDirectoryChecksum] on the tree found at [dirPath].  [files]
    keeps, next to each path, the file that [CalculateFileChecksum] opens
    at that path. *)
Definition CalculateDirectoryChecksum (dirPath : string) (tree : Node)
  : result string :=
  let files := List.filter selected (Walk dirPath tree) in
  let files := sort_by fst files in
  match hash_input dirPath files with
  | Err e => Err e
  | Ok bytes => Ok (sha256.hexsum bytes)
  end.

(** The same on a file-system state. *)
Definition CalculateDirectoryChecksumAt {FS} (os : OS FS) (fs : FS)
    (dirPath : string) : result string :=
  match tree_at os fs dirPath with
  | Err e => Err e
  | Ok tree => CalculateDirectoryChecksum dirPath tree
  end.

(** [VerifyChecksum].  [found] is what is at [path]: the node that
    [os.Stat] and the later reads find, or the error of [os.Stat]. *)
Definition VerifyChecksum (path : string) (found : result Node)
    (expectedChecksum : string) : result unit :=
  match found with
  | Err e => Err ("failed to stat path: " ++ e)
  | Ok info =>
      let actual := if IsDir info then CalculateDirectoryChecksum path info
                    else Ok (CalculateFileChecksum (content_of info)) in
      match actual with
      | Err e => Err ("failed to calculate checksum: " ++ e)
      | Ok actualChecksum =>
          if negb (String.eqb actualChecksum expectedChecksum) then
            Err ("checksum mismatch: expected " ++ expectedChecksum ++ ", got "
                 ++ actualChecksum)
          else Ok tt
      end
  end.

End integrity.

(** ** Package [fetch] *)

(** The helpers of package [utils] that [fetch] calls; the package is not
    part of the sources at hand, so they are parameters. *)
Record Utils := mkUtils {
  GenerateCacheKey : string -> string -> manifest.Dependency -> string;
  IsHexString : string -> bool
}.

Module fetch.
Import manifest.

Record FetchResult := mkFetchResult {
  Path : string;
  Checksum : string;
  Version : string;
  CommitSHA : string
}.

(** [generateCacheKey] (the package-local version of the key function) *)
Definition generateCacheKey (owner repo : string) (dep : Dependency) : string :=
  let parts := [owner; repo] in
  let parts :=
    (if negb (String.eqb (Rev dep) "") then parts ++ ["rev"; Rev dep]
     else if negb (String.eqb (Tag dep) "") then parts ++ ["tag"; Tag dep]
     else if negb (String.eqb (Branch dep) "") then parts ++ ["branch"; Branch dep]
     else if negb (String.eqb (manifest.Version dep) "") then
       parts ++ ["version"; manifest.Version dep]
     else parts ++ ["latest"])%list in
  strings.Join parts "-".

Definition repoURL (owner repo : string) : string :=
  "https://github.com/" ++ owner ++ "/" ++ repo ++ ".git".

Section remote.
Context (remote : Remote).

(** [checkTagExists] *)
Definition checkTagExists (owner repo tag : string) : result bool :=
  match ls_remote remote ["--tags"; repoURL owner repo; tag] with
  | Err e => Err e
  | Ok output => Ok (strings.Contains output tag)
  end.

(** [getLatestReleaseTag] *)
Definition getLatestReleaseTag (owner repo : string) : result string :=
  match github.GetLatestRelease remote owner repo with
  | Err e => Err e
  | Ok release => Ok (TagName release)
  end.

(** [getLatestCommitSHA] *)
Definition getLatestCommitSHA (owner repo : string) : result string :=
  let on_master :=
    match ls_remote remote [repoURL owner repo; "refs/heads/master"] with
    | Err e => Err ("failed to get latest commit: " ++ e)
    | Ok output =>
        match strings.Fields output with
        | [] => Err "no commit found in master branch"
        | sha :: _ => Ok sha
        end
    end in
  match ls_remote remote [repoURL owner repo; "refs/heads/main"] with
  | Ok output =>
      if (0 <? String.length (strings.TrimSpace output))%nat then
        match strings.Fields output with
        | sha :: _ => Ok sha
        | [] => on_master
        end
      else on_master
  | Err _ => on_master
  end.

(** The loop of [determineRefWithValidation] over [possibleTags]: a
    failed probe is logged and skipped. *)
Fixpoint first_existing (owner repo : string) (tags : list string)
  : option string :=
  match tags with
  | [] => None
  | tag :: rest =>
      match checkTagExists owner repo tag with
      | Ok true => Some tag
      | _ => first_existing owner repo rest
      end
  end.

(** [determineRefWithValidation]: the reference to retrieve, the version
    to report and the commit id. *)
Definition determineRefWithValidation (owner repo : string) (dep : Dependency)
  : result (string * string * string) :=
  if negb (String.eqb (Rev dep) "") then Ok (Rev dep, Rev dep, Rev dep)
  else if negb (String.eqb (Tag dep) "") then Ok (Tag dep, Tag dep, "")
  else if negb (String.eqb (Branch dep) "") then Ok (Branch dep, Branch dep, "")
  else if UseLatestCommit dep then
    match getLatestCommitSHA owner repo with
    | Err e => Err ("failed to get latest commit: " ++ e)
    | Ok commitSHA => Ok (commitSHA, commitSHA, commitSHA)
    end
  else if negb (String.eqb (manifest.Version dep) "") then
    if String.eqb (manifest.Version dep) "latest" then
      match getLatestReleaseTag owner repo with
      | Err e => Err ("failed to get latest release: " ++ e)
      | Ok latestTag => Ok (latestTag, latestTag, "")
      end
    else
      let version := strings.TrimPrefix (manifest.Version dep) "^" in
      let version := strings.TrimPrefix version "~" in
      let version := strings.TrimPrefix version "=" in
      let possibleTags := [version; "v" ++ version] in
      match first_existing owner repo possibleTags with
      | Some tag => Ok (tag, manifest.Version dep, "")
      | None =>
          Err ("no matching tag found for version " ++ manifest.Version dep
               ++ " (tried: " ++ strings.Join possibleTags ", " ++ ")")
      end
  else
    let fallback :=
      match getLatestCommitSHA owner repo with
      | Err e => Err ("failed to get latest commit: " ++ e)
      | Ok commitSHA => Ok (commitSHA, commitSHA, commitSHA)
      end in
    match getLatestReleaseTag owner repo with
    | Ok latestTag =>
        if negb (String.eqb latestTag "") then Ok (latestTag, latestTag, "")
        else fallback
    | Err _ => fallback
    end.

End remote.

Section local.
Context {FS : Type} (os : OS FS) (lib : GoLib) (remote : Remote) (utils : Utils).

(** The rest of [cloneRepository] once the repository is on disk: remove
    its [.git] directory (errors ignored). *)
Definition strip_git (fs : FS) (targetDir : string) : result string * FS :=
  let gitDir := filepath.Join [targetDir; ".git"] in
  (Ok targetDir, snd (os_RemoveAll os fs gitDir)).

(** A full clone followed by a checkout of [ref]; [msg] renders the
    error of a failed clone. *)
Definition clone_and_checkout (fs : FS) (url targetDir ref kind : string)
    (msg : string -> string) : result string * FS :=
  match git os fs "" ["clone"; url; targetDir] with
  | (_, Some e, fs1) => (Err (msg e), fs1)
  | (_, None, fs1) =>
      match git os fs1 targetDir ["checkout"; ref] with
      | (_, Some e, fs2) =>
          (Err ("failed to checkout " ++ kind ++ " '" ++ ref ++ "': " ++ e), fs2)
      | (_, None, fs2) => strip_git fs2 targetDir
      end
  end.

(** [cloneRepository] *)
Definition cloneRepository (cacheDir : string) (fs : FS) (owner repo ref : string)
  : result string * FS :=
  let url := repoURL owner repo in
  let targetDir := filepath.Join [cacheDir; "repos"; owner; repo; ref] in
  match os_RemoveAll os fs targetDir with
  | (Some e, fs1) => (Err ("failed to clean target directory: " ++ e), fs1)
  | (None, fs1) =>
      match os_MkdirAll os fs1 (filepath.Dir targetDir) with
      | (Some e, fs2) => (Err ("failed to create cache directory: " ++ e), fs2)
      | (None, fs2) =>
          if (String.length ref =? 40)%nat && IsHexString utils ref then
            clone_and_checkout fs2 url targetDir ref "commit"
              (fun e => "failed to clone repository: " ++ e)
          else
            match git os fs2 ""
                    ["clone"; "--depth=1"; "--branch"; ref; url; targetDir] with
            | (_, None, fs3) => strip_git fs3 targetDir
            | (output, Some e, fs3) =>
                let msg e' := "failed to clone repository: " ++ e'
                              ++ String "010" "Output: " ++ output in
                if strings.Contains output "does not exist"
                   || strings.Contains output "not found" then
                  let fs4 := snd (os_RemoveAll os fs3 targetDir) in
                  clone_and_checkout fs4 url targetDir ref "ref" msg
                else (Err (msg e), fs3)
            end
      end
  end.

(** The success message takes [commitSHA[:8]] when the commit id is not
    empty: a commit id of 1 to 7 bytes makes the slice expression panic. *)
Definition short_commit (commitSHA : string) : bool :=
  negb (String.eqb commitSHA "") && (String.length commitSHA <? 8)%nat.

(** [FetchDependency]: how it ends, and the cache and the file system it
    leaves. *)
Definition FetchDependency (c : cache.Cache) (fs : FS) (name : string)
    (dep : Dependency) : outcome FetchResult * cache.Cache * FS :=
  match github.ParseRepoURL lib (Git dep) with
  | Err e => (Returns (Err ("invalid git URL for '" ++ name ++ "': " ++ e)), c, fs)
  | Ok (owner, repo) =>
      let cacheKey := GenerateCacheKey utils owner repo dep in
      match cache.Get os c fs cacheKey with
      | (Some cached, c1, fs1) =>
          (Returns (Ok (mkFetchResult (EPath cached) (EChecksum cached)
                          (EVersion cached) (ECommitSHA cached))), c1, fs1)
      | (None, c1, fs1) =>
          match determineRefWithValidation remote owner repo dep with
          | Err e =>
              (Returns (Err ("failed to determine reference for '" ++ name ++ "': "
                             ++ e)), c1, fs1)
          | Ok (ref, resolvedVersion, commitSHA) =>
              match cloneRepository (cache.cacheDir c1) fs1 owner repo ref with
              | (Err e, fs2) =>
                  (Returns (Err ("failed to clone repository '" ++ owner ++ "/" ++ repo
                                 ++ "': " ++ e)), c1, fs2)
              | (Ok repoPath, fs2) =>
                  match integrity.CalculateDirectoryChecksumAt os fs2 repoPath with
                  | Err e =>
                      (Returns (Err ("failed to calculate checksum for '" ++ name
                                     ++ "': " ++ e)), c1, fs2)
                  | Ok checksum =>
                      let result :=
                        mkFetchResult repoPath checksum resolvedVersion commitSHA in
                      let '(c2, fs3) :=
                        cache.Set_ os c1 fs2 cacheKey
                          (mkEntry repoPath checksum resolvedVersion commitSHA) in
                      if short_commit commitSHA then
                        (Panics ("runtime error: slice bounds out of range [:8] "
                                 ++ "with length " ++ pretty (String.length commitSHA)),
                         c2, fs3)
                      else (Returns (Ok result), c2, fs3)
                  end
              end
          end
      end
  end.

End local.

End fetch.

(** ** Package [resolver] *)

Module resolver.
Import manifest.

Record ResolvedDependency := mkResolvedDependency {
  RName : string;
  RVersion : string;
  RSource : string;
  RChecksum : string;
  RDeps : list string
}.

Section remote.
Context (lib : GoLib) (remote : Remote).

(** [resolveVersion] *)
Definition resolveVersion (owner repo : string) (dep : Dependency) : result string :=
  if negb (String.eqb (Rev dep) "") then Ok (Rev dep)
  else if negb (String.eqb (Tag dep) "") then Ok (Tag dep)
  else if negb (String.eqb (Branch dep) "") then Ok (Branch dep)
  else if negb (String.eqb (manifest.Version dep) "") then
    match semver.ParseConstraint (manifest.Version dep) with
    | Err e => Err ("invalid version constraint '" ++ manifest.Version dep ++ "': " ++ e)
    | Ok constraint =>
        match github.GetAvailableVersions remote owner repo with
        | Err e => Err ("failed to get available versions: " ++ e)
        | Ok versions =>
            match versions with
            | [] => Err ("no semantic versions found for " ++ owner ++ "/" ++ repo)
            | _ =>
                match semver.FindBestMatch constraint versions with
                | Err e => Err ("no version satisfies constraint '"
                                ++ manifest.Version dep ++ "': " ++ e)
                | Ok bestMatch => Ok (semver.String_ bestMatch)
                end
            end
        end
    end
  else
    match github.GetLatestRelease remote owner repo with
    | Ok release => Ok (TagName release)
    | Err _ => Ok "main"
    end.

(** [resolveDependency]: [resolved] is the map being filled. *)
Definition resolveDependency (name : string) (dep : Dependency)
    (resolved : gmap string ResolvedDependency)
  : result (gmap string ResolvedDependency) :=
  match resolved !! name with
  | Some _ => Ok resolved
  | None =>
      match github.ParseRepoURL lib (Git dep) with
      | Err e => Err ("invalid git URL: " ++ e)
      | Ok (owner, repo) =>
          match resolveVersion owner repo dep with
          | Err e => Err ("failed to resolve version: " ++ e)
          | Ok resolvedVersion =>
              Ok (<[name := mkResolvedDependency name resolvedVersion (Git dep) "" []]>
                    resolved)
          end
      end
  end.

(** The loop of [Resolve] over [allDeps], in the order [range] in which the
    map yields its entries; the first failure ends it. *)
Fixpoint resolve_all (range : list (string * Dependency))
    (resolved : gmap string ResolvedDependency)
  : result (gmap string ResolvedDependency) :=
  match range with
  | [] => Ok resolved
  | (name, dep) :: rest =>
      match resolveDependency name dep resolved with
      | Err e => Err ("failed to resolve dependency '" ++ name ++ "': " ++ e)
      | Ok resolved' => resolve_all rest resolved'
      end
  end.

(** [Resolve]: the dependencies of the [Resolution].  [range] is the order
    of the loop over [allDeps], [collect] the order in which the loop over
    [resolved] appends the values; [sort.Slice] then orders them by name
    (the names are the keys of a map, so no two are equal and the sorted
    slice does not depend on how [sort.Slice] treats ties). *)
Definition Resolve (range : list (string * Dependency))
    (collect : gmap string ResolvedDependency -> list ResolvedDependency)
  : result (list ResolvedDependency) :=
  match resolve_all range ∅ with
  | Err e => Err e
  | Ok resolved => Ok (integrity.sort_by RName (collect resolved))
  end.



End remote.

End resolver.

(** ** The consistency check of [runSync] *)

Module sync.
Import manifest.

(** [lockPkgMap]: the names of the locked packages. *)
Definition lockPkgMap (pkgs : list LockedPackage) : gmap string bool :=
  fold_left (fun m pkg => <[Name pkg := true]> m) pkgs ∅.

(** The [inconsistencies] that [runSync] collects.  [names] is the order
    in which the [range] over [manifestDeps] yields its keys. *)
Definition inconsistencies (names : list string)
    (manifestDeps : gmap string Dependency) (pkgs : list LockedPackage)
  : list string :=
  let lockPkgMap := lockPkgMap pkgs in
  (flat_map (fun name =>
              if negb (default false (lockPkgMap !! name))
              then ["'" ++ name ++ "' is in manifest but not in lock file"]
              else []) names)
  ++
  flat_map (fun pkg =>
              match manifestDeps !! Name pkg with
              | None => ["'" ++ Name pkg ++ "' is in lock file but not in manifest"]
              | Some _ => []
              end) pkgs.

(** The check proper: [Ok] to go on to the validation of the dependencies,
    or the error that [runSync] returns on inconsistencies. *)
Definition checkSync (names : list string)
    (manifestDeps : gmap string Dependency) (pkgs : list LockedPackage)
  : result unit :=
  match inconsistencies names manifestDeps pkgs with
  | [] => Ok tt
  | _ => Err "dependencies are not synchronized"
  end.

End sync.

(** ** The commands of package [cli], without their input and output *)

Module cli.
Import manifest.

(** [runInstall]: the manifest entry that is fetched for a resolved name;
    [None] is the case "not found in manifest, skipping". *)
Definition manifestDep (m : Manifest) (name : string) : option Dependency :=
  match Dependencies m !! name with
  | Some d => Some d
  | None =>
      match DevDeps m !! name with
      | Some d => Some d
      | None => BuildDeps m !! name
      end
  end.

(** [existsInDependencies] (a nil table holds no name). *)
Definition existsInDependencies (m : Manifest) (name : string) : bool :=
  match Dependencies m !! name with
  | Some _ => true
  | None =>
      match DevDeps m !! name with
      | Some _ => true
      | None => match BuildDeps m !! name with Some _ => true | None => false end
      end
  end.

(** [parsePackageSpec]: the package name, the version and the git URL. *)
Definition parsePackageSpec (packageSpec : string) : result (string * string * string) :=
  let parts := strings.Split packageSpec "@" in
  if (2 <? length parts)%nat then Err "invalid package specification format"
  else
    let packageURL := nth 0 parts "" in
    let hasVersion := (length parts =? 2)%nat in
    let version := if hasVersion then nth 1 parts "" else "" in
    if negb (strings.Contains packageURL "/") then
      Err "package must be in 'username/repo' format"
    else
      let gitURL := if negb (strings.HasPrefix packageURL "http")
                    then "https://github.com/" ++ packageURL
                    else packageURL in
      let name :=
        if strings.HasPrefix gitURL "https://github.com/" then
          match strings.Split (strings.TrimPrefix gitURL "https://github.com/") "/" with
          | _ :: name :: _ =>
              if strings.HasSuffix name ".git"
              then String.substring 0 (String.length name - 4) name
              else name
          | _ => ""
          end
        else "" in
      if String.eqb name "" then Err "could not determine package name"
      else Ok (name, version, gitURL).

(** The dependency that [runAdd] builds from the parsed specification and
    its flags; [packageRootFile] is [root_file] of the [package] table. *)
Definition newDependency (gitURL version branch rootFile packageRootFile : string)
  : Dependency :=
  let version := if negb (String.eqb branch "") && negb (String.eqb version "")
                 then "" else version in
  let rootFile := if negb (String.eqb rootFile "") then rootFile
                  else packageRootFile in
  mkDependency gitURL version branch "" "" rootFile false.

(** The manifest that [runAdd] resolves for its check: a copy of the struct
    with the dependency written to its [Dependencies]. *)
Definition tempManifest (m : Manifest) (dependencyName : string) (dep : Dependency)
  : Manifest :=
  mkManifest (<[dependencyName := dep]> (Dependencies m)) (DevDeps m) (BuildDeps m).


(** [runRemove] on the tables of the manifest and the packages of the lock
    file: what it saves, or its error when no table holds the name. *)
Definition removeDependency (m : Manifest) (pkgs : list LockedPackage)
    (packageName : string) : result (Manifest * list LockedPackage) :=
  let in_table (t : gmap string Dependency) :=
    match t !! packageName with Some _ => true | None => false end in
  let removed := in_table (Dependencies m) || in_table (DevDeps m)
                 || in_table (BuildDeps m) in
  if negb removed then Err "dependency not found"
  else
    Ok (mkManifest (delete packageName (Dependencies m))
                   (delete packageName (DevDeps m))
                   (delete packageName (BuildDeps m)),
        List.filter (fun pkg => negb (String.eqb (Name pkg) packageName)) pkgs).

(** The backslash. *)
Definition backslash : ascii := "092".

(** [validateAndSanitizeRootFile] *)
Definition validateAndSanitizeRootFile (rootFile : string) : result string :=
  let cleaned := filepath.Clean rootFile in
  if strings.Contains cleaned ".." then
    Err "root file cannot reference parent directories"
  else if filepath.IsAbs cleaned then Err "root file must be a relative path"
  else if negb (strings.HasSuffix cleaned ".zig") then
    Err "root file must be a .zig file"
  else Ok (strings.ReplaceAll cleaned backslash "/").

(** [runCacheClean] on the cache that [cache.New] built.  [range] is the
    order in which the loop over the listed entries yields their keys. *)
Definition runCacheClean {FS} (os : OS FS) (c : cache.Cache) (fs : FS) (all : bool)
    (range : list string) : result unit * cache.Cache * FS :=
  if all then
    match cache.Clear os c fs with
    | (Some e, c', fs') => (Err ("failed to clear cache: " ++ e), c', fs')
    | (None, c', fs') => (Ok tt, c', fs')
    end
  else
    let entries := cache.ListEntries c in
    if (size entries =? 0)%nat then (Ok tt, c, fs)
    else
      let '(c', fs') := fold_left (fun st key => cache.Delete os (fst st) (snd st) key)
                                  range (c, fs) in
      (Ok tt, c', fs').

End cli.

(** ** A small concrete world, for running the definitions *)

Module demo.

Definition lib : GoLib :=
  mkGoLib (fun _ => Err "unsupported") (fun _ => []).

Definition commit : string := "0123456789abcdef0123456789abcdef01234567".

(** A line of [git ls-remote]: the object id, a tab, the reference. *)
Definition ref_line (sha ref : string) : string :=
  sha ++ String "009" (ref ++ String "010" "").

(** How [git ls-remote] matches a reference against a pattern without glob
    characters: the pattern is the whole reference or its tail after a "/",
    so "1.0.0" matches "refs/tags/1.0.0" and "refs/tags/release/1.0.0", and
    not "refs/tags/v1.0.0". *)
Definition ref_matches (ref pattern : string) : bool :=
  String.eqb ref pattern || strings.HasSuffix ref ("/" ++ pattern).

Fixpoint tag_lines (tags : list string) (pattern : string) : string :=
  match tags with
  | [] => ""
  | t :: rest =>
      (if ref_matches ("refs/tags/" ++ t) pattern
       then ref_line commit ("refs/tags/" ++ t) else "")
      ++ tag_lines rest pattern
  end.

Fixpoint head_lines (heads : list (string * string)) (pattern : string) : string :=
  match heads with
  | [] => ""
  | (name, sha) :: rest =>
      (if ref_matches ("refs/heads/" ++ name) pattern
       then ref_line sha ("refs/heads/" ++ name) else "")
      ++ head_lines rest pattern
  end.

(** The repository owner/repo with the given tags, latest release and
    branch heads; [git ls-remote] lists the references that match its
    pattern. *)
Definition remote_of (tags : list string) (release : HttpResult Release)
    (heads : list (string * string)) : Remote :=
  mkRemote
    (fun url =>
       if String.eqb url "https://api.github.com/repos/owner/repo/releases/latest"
       then release else Response 404 (Err "EOF"))
    (fun url =>
       if String.eqb url "https://api.github.com/repos/owner/repo/tags"
       then Response 200 (Ok tags) else Response 404 (Err "EOF"))
    (fun args =>
       match args with
       | ["--tags"; url; pattern] =>
           if String.eqb url "https://github.com/owner/repo.git"
           then Ok (tag_lines tags pattern) else Err "exit status 128"
       | [url; ref] =>
           if String.eqb url "https://github.com/owner/repo.git"
           then Ok (head_lines heads ref) else Err "exit status 128"
       | _ => Err "exit status 129"
       end).

Definition isHex (c : ascii) : bool :=
  let n := N_of_ascii c in
  (((48 <=? n) && (n <=? 57)) || ((65 <=? n) && (n <=? 70))
   || ((97 <=? n) && (n <=? 102)))%N.

Definition utils : Utils :=
  mkUtils fetch.generateCacheKey
          (fun s => forallb isHex (list_ascii_of_string s)).

(** Whether a directory above [path] is a regular file of the map. *)
Fixpoint below_file (fuel : nat) (fs : gmap string Node) (path : string) : bool :=
  match fuel with
  | O => false
  | S fuel =>
      let parent := filepath.Dir path in
      if String.eqb parent path then false
      else match fs !! parent with
           | Some (File _) => true
           | _ => below_file fuel fs parent
           end
  end.

(** [os.Stat] on the map: a path that is not in it does not exist, unless
    it lies below a regular file, where the system call fails with ENOTDIR,
    an error that [os.IsNotExist] does not accept. *)
Definition stat (fs : gmap string Node) (path : string) : StatResult :=
  match fs !! path with
  | Some _ => StatOk
  | None => if below_file (String.length path) fs path then StatFailed else StatNotExist
  end.

(** A file system that is a finite map from paths to trees; [git clone]
    puts the tree [checkout] at its target. *)
Definition os_of (checkout : Node) : OS (gmap string Node) :=
  mkOS (gmap string Node)
    stat
    (fun fs path => (None, delete path fs))
    (fun fs path => (None, fs))
    (fun fs path data => (None, <[path := File data]> fs))
    (fun _ => Ok "{}")
    (fun fs dir args =>
       match args with
       | "clone" :: rest => ("", None, <[List.last rest "" := checkout]> fs)
       | _ => ("", None, fs)
       end)
    (fun fs path => match fs !! path with
                    | Some t => Ok t
                    | None => Err ("lstat " ++ path ++ ": no such file or directory")
                    end).

Definition dep (version tag : string) : manifest.Dependency :=
  manifest.mkDependency "owner/repo" version "" tag "" "" false.

End demo.

(** ** Notions used to state the properties *)

(** A dependency without revision, tag or branch that does not ask for the
    latest commit: its version constraint, if any, decides the reference. *)
Definition by_version (dep : manifest.Dependency) : Prop :=
  manifest.Rev dep = "" /\ manifest.Tag dep = "" /\ manifest.Branch dep = ""
  /\ manifest.UseLatestCommit dep = false.

(** The constraint text without a leading "^", then "~", then "=". *)
Definition bare_version (constraint : string) : string :=
  strings.TrimPrefix (strings.TrimPrefix (strings.TrimPrefix constraint "^") "~") "=".

(** A string of white space only. *)
Definition blank (s : string) : bool :=
  forallb strings.isSpace (list_ascii_of_string s).

(** The probe of the remote for a tag says that it exists. *)
Definition tag_found (remote : Remote) (owner repo tag : string) : Prop :=
  fetch.checkTagExists remote owner repo tag = Ok true.





(** The two kinds of drift issue. *)
Definition only_in_manifest (name : string) : string :=
  "'" ++ name ++ "' is in manifest but not in lock file".

Definition only_in_lock (name : string) : string :=
  "'" ++ name ++ "' is in lock file but not in manifest".

(** The set of names in the lock file. *)
Definition lock_names (pkgs : list manifest.LockedPackage) : gset string :=
  list_to_set (manifest.Name <$> pkgs).

(** The manifest that declares A and B, and lock files for the examples. *)
Definition manifest_AB : gmap string manifest.Dependency :=
  <["A" := demo.dep "1.0.0" ""]> (<["B" := demo.dep "" "v2"]> ∅).

Definition locked (name : string) : manifest.LockedPackage :=
  manifest.mkLockedPackage name "1.0.0" "owner/repo" "" [].



(** *** Directory trees and their files *)

Fixpoint has_sep (s : string) : bool :=
  match s with
  | EmptyString => false
  | String c s' => Ascii.eqb c filepath.Separator || has_sep s'
  end.

(** The name of a directory entry: not empty, not "." or "..", without
    separator. *)
Definition valid_name (n : string) : bool :=
  negb (String.eqb n "") && negb (String.eqb n ".") && negb (String.eqb n "..")
  && negb (has_sep n).

(** A tree as a file system holds it: entries have valid names, and no two
    entries of a directory share a name. *)
Fixpoint wf_tree (n : Node) : bool :=
  match n with
  | File _ => true
  | Dir es =>
      forallb (fun e => valid_name (fst e) && wf_tree (snd e)) es
      && bool_decide (NoDup (List.map fst es))
  end.

(** The regular files of a tree: the names on the way from the root to the
    file, and the content. *)
Fixpoint files (n : Node) : list (list string * string) :=
  match n with
  | File c => [([], c)]
  | Dir es =>
      flat_map (fun e => List.map (fun f => (fst e :: fst f, snd f)) (files (snd e))) es
  end.

(** No name on the way to the file is ".git". *)
Definition outside_git (f : list string * string) : bool :=
  negb (integrity.contains (fst f) ".git").

(** The (relative path, content) pairs of the regular files outside any
    ".git" component. *)
Definition visible_files (t : Node) : list (string * string) :=
  List.map (fun f => (strings.Join (fst f) "/", snd f)) (List.filter outside_git (files t)).

(** What the hash is fed with for a list of (relative path, content) pairs:
    per file the path, a zero byte, the hex digest of the content, a zero
    byte. *)
Fixpoint feed (fs : list (string * string)) : string :=
  match fs with
  | [] => ""
  | (rel, content) :: rest =>
      rel ++ String zero (sha256.hexsum content ++ String zero (feed rest))
  end.

(** The digest of a tree in the words of the specification: the hash over
    the visible files in the lexicographic order of their relative paths. *)
Definition tree_digest (t : Node) : string :=
  sha256.hexsum (feed (integrity.sort_by fst (visible_files t))).

(** A path as [filepath.Clean] prints it: the root mark and the elements. *)
Definition path_of (rooted : bool) (elems : list string) : string :=
  (if rooted then "/" else "") ++ strings.Join elems "/".

(** The elements of a cleaned root path. *)
Definition root_elems (root : string) : list string :=
  filepath.clean_elems (strings.HasPrefix root "/") (strings.Split root filepath.Separator).

(** The root path has an element named ".git". *)
Definition root_in_git (root : string) : bool :=
  integrity.contains (root_elems root) ".git".

(** An element that [filepath.Clean] may print: not empty, no separator. *)
Definition elem_ok (c : string) : bool :=
  negb (String.eqb c "") && negb (has_sep c).

(** Cleaning the elements again changes nothing. *)
Definition stable (rooted : bool) (elems : list string) : Prop :=
  fold_left (filepath.clean_step rooted) elems [] = rev elems.

(** The elements of a cleaned path. *)
Definition cleaned (rooted : bool) (elems : list string) : Prop :=
  forallb elem_ok elems = true /\ stable rooted elems.

(** The files of a tree placed under the cleaned path with elements [l],
    as the callback of the checksum keeps them: the files with no ".git"
    element anywhere in their path. *)
Definition located (rooted : bool) (l : list string)
    (fs : list (list string * string)) : list (string * Node) :=
  List.map (fun f => (path_of rooted (l ++ fst f), File (snd f)))
    (List.filter (fun f => negb (integrity.contains (l ++ fst f) ".git")) fs).

(** What the walk of a tree under a cleaned path selects. *)
Definition walk_selects (t : Node) : Prop :=
  forall rooted l, cleaned rooted l -> l <> [] ->
    List.filter integrity.selected (integrity.Walk (path_of rooted l) t)
      ≡ₚ located rooted l (files t).

(** The text before the relative part in the path of a file under a
    cleaned directory path. *)
Definition dir_prefix (rooted : bool) (l : list string) : string :=
  (if rooted then "/" else "")
  ++ match l with [] => "" | _ => strings.Join l "/" ++ "/" end.

(** [git_injected t t']: the tree [t'] is [t] with one more entry named
    ".git" (a file or a whole directory) in one of its directories, at any
    depth. *)
Inductive git_injected : Node -> Node -> Prop :=
| injected_here (es1 es2 : list (string * Node)) (g : Node) :
    git_injected (Dir (es1 ++ es2)) (Dir (es1 ++ (".git", g) :: es2))
| injected_below (es1 es2 : list (string * Node)) (name : string) (t t' : Node) :
    git_injected t t' ->
    git_injected (Dir (es1 ++ (name, t) :: es2)) (Dir (es1 ++ (name, t') :: es2)).

(** *** Versions *)

(** The text is made of bytes of the class [[0-9A-Za-z\-\.]]. *)
Definition label_text (s : string) : bool :=
  forallb semver.isLabelChar (list_ascii_of_string s).

(** A version as [ParseVersion] builds them: each number is a 64-bit [int]
    that is not negative, the prerelease and the build are label bytes. *)
Definition well_formed (v : semver.Version) : Prop :=
  (0 <= semver.Major v <= semver.maxInt)%Z
  /\ (0 <= semver.Minor v <= semver.maxInt)%Z
  /\ (0 <= semver.Patch v <= semver.maxInt)%Z
  /\ label_text (semver.Prerelease v) = true
  /\ label_text (semver.Build v) = true.

(** The order on prerelease texts: the empty text (a release) is above
    every other, the others are ordered byte-wise. *)
Definition pre_le (p q : string) : Prop :=
  q = "" \/ (p <> "" /\ String.leb p q = true).

(** The precedence of versions: major, minor and patch in this order, then
    the prerelease text; the build does not count. *)
Definition version_le (a b : semver.Version) : Prop :=
  (semver.Major a < semver.Major b)%Z
  \/ (semver.Major a = semver.Major b
      /\ ((semver.Minor a < semver.Minor b)%Z
          \/ (semver.Minor a = semver.Minor b
              /\ ((semver.Patch a < semver.Patch b)%Z
                  \/ (semver.Patch a = semver.Patch b
                      /\ pre_le (semver.Prerelease a) (semver.Prerelease b)))))).

(** The two versions differ in their build at most. *)
Definition same_precedence (a b : semver.Version) : Prop :=
  semver.Major a = semver.Major b /\ semver.Minor a = semver.Minor b
  /\ semver.Patch a = semver.Patch b
  /\ semver.Prerelease a = semver.Prerelease b.

(** The value that [Atoi] accumulates over the digits of [s], from [acc]. *)
Definition digits_value (acc : Z) (s : string) : Z :=
  fold_left (fun acc c => 10 * acc + (Z.of_N (N_of_ascii c) - 48))%Z
            (list_ascii_of_string s) acc.

(** No byte of the text is white space. *)
Definition no_space (s : string) : bool :=
  forallb (fun c => negb (strings.isSpace c)) (list_ascii_of_string s).

(** The operators that [ParseConstraint] knows, in the order it tries them. *)
Definition operators : list string := ["^"; "~"; ">="; "<="; ">"; "<"; "="].

(** The byte [b] occurs in [s]. *)
Definition has_byte (b : ascii) (s : string) : bool :=
  existsb (Ascii.eqb b) (list_ascii_of_string s).

(** What [resolveDependency] enters in the map for a name that is not in it
    yet, or its error. *)
Definition resolver_entry (lib : GoLib) (remote : Remote) (name : string)
    (dep : manifest.Dependency) : result resolver.ResolvedDependency :=
  match github.ParseRepoURL lib (manifest.Git dep) with
  | Err e => Err ("invalid git URL: " ++ e)
  | Ok (owner, repo) =>
      match resolver.resolveVersion remote owner repo dep with
      | Err e => Err ("failed to resolve version: " ++ e)
      | Ok v => Ok (resolver.mkResolvedDependency name v (manifest.Git dep) "" [])
      end
  end.

(** The entries of the names of [range] that resolve. *)
Definition resolver_entries (lib : GoLib) (remote : Remote)
    (range : list (string * manifest.Dependency)) : list resolver.ResolvedDependency :=
  omap (fun nd => match resolver_entry lib remote nd.1 nd.2 with
                  | Ok e => Some e
                  | Err _ => None
                  end) range.

(** A lower-case hexadecimal digit. *)
Definition is_lower_hex (c : ascii) : bool :=
  let n := N_of_ascii c in
  (((48 <=? n) && (n <=? 57)) || ((97 <=? n) && (n <=? 102)))%N.

(** The text of a SHA-256 digest: 64 lower-case hexadecimal digits. *)
Definition digest_text (s : string) : bool :=
  (String.length s =? 64)%nat && forallb is_lower_hex (list_ascii_of_string s).

(** The name resolves. *)
Definition resolves (lib : GoLib) (remote : Remote)
    (nd : string * manifest.Dependency) : Prop :=
  is_ok (resolver_entry lib remote nd.1 nd.2) = true.

(** An entry of the resolution under its name. *)
Definition keyed (e : resolver.ResolvedDependency)
  : string * resolver.ResolvedDependency :=
  (resolver.RName e, e).

(** * Properties *)

(** ** Checks of the models against known values *)

(** The SHA-256 test vectors of FIPS 180-4, and a message of two blocks. *)
Example sha256_empty :
  sha256.hexsum "" = "e3b0c44298fc1c149afbf4c8996fb92427ae41e4649b934ca495991b7852b855".
Proof. vm_compute. reflexivity. Qed.

Example sha256_abc :
  sha256.hexsum "abc" = "ba7816bf8f01cfea414140de5dae2223b00361a396177a9cb410ff61f20015ad".
Proof. vm_compute. reflexivity. Qed.

Example sha256_two_blocks :
  sha256.hexsum "xxxxxxxxxxxxxxxxxxxxxxxxxxxxxxxxxxxxxxxxxxxxxxxxxxxxxxxxxxxxxxxxxxxxxx"
  = "c71bd109227e23434ecf71fd0a344a209136c79ae5a0bda2b5ca442d699a3cd9".
Proof. vm_compute. reflexivity. Qed.

Example sha256_constants :
  length sha256.K = 64%nat /\ nth 0 sha256.K 0%N = 0x428a2f98%N
  /\ nth 63 sha256.K 0%N = 0xc67178f2%N /\ nth 0 sha256.H0 0%N = 0x6a09e667%N.
Proof. vm_compute. repeat split. Qed.

Example ParseVersion_examples :
  semver.ParseVersion "v1.2.3-rc.1+b5" = Ok (semver.mkVersion 1 2 3 "rc.1" "b5")
  /\ semver.ParseVersion "1.5.0" = Ok (semver.mkVersion 1 5 0 "" "")
  /\ is_ok (semver.ParseVersion "1.2") = false
  /\ is_ok (semver.ParseVersion "1.2.3-") = false
  /\ is_ok (semver.ParseVersion "^1.0.0") = false
  /\ semver.String_ (semver.mkVersion 1 5 0 "" "") = "1.5.0".
Proof. vm_compute. repeat split. Qed.

Example filepath_examples :
  filepath.Join ["/home/u/.yuki/cache"; "repos"; "o"; "r"; "v1"]
  = "/home/u/.yuki/cache/repos/o/r/v1"
  /\ filepath.Clean "a//b/../c/./d/" = "a/c/d"
  /\ filepath.Clean "/../a" = "/a"
  /\ filepath.Clean "../../a/.." = "../.."
  /\ filepath.Rel "/a/b" "/a/b/c/d" = Ok "c/d"
  /\ filepath.Rel "." "c/d" = Ok "c/d"
  /\ filepath.Rel "/" "/c/d" = Ok "c/d"
  /\ filepath.Rel "a/b" "a/c" = Ok "../c"
  /\ filepath.Dir "/a/b/c" = "/a/b"
  /\ filepath.Base "/a/b/c/" = "c".
Proof. vm_compute. repeat split. Qed.

(** The walk visits a directory before the entries whose names follow it in
    byte order ("a", then "a/c", then "a.b"). *)
Example Walk_order :
  List.map fst (integrity.Walk "/r"
                  (Dir [("b", File "x"); ("a", Dir [("c", File "y")]); ("a.b", File "z")]))
  = ["/r"; "/r/a"; "/r/a/c"; "/r/a.b"; "/r/b"].
Proof. vm_compute. reflexivity. Qed.

(** ** The cache key *)

(** C10: the key function joins owner, repository, selector kind and selector
    value with "-" (the selector being the revision, else the tag, else the
    branch, else the version, else the single word "latest") and escapes
    nothing, so it is not injective: owner "a" with repository "b-c" and owner
    "a-b" with repository "c" get the same key under every selector, a tag
    named "latest" collides with a repository without selector, and an entry
    stored under one of two colliding specs is the entry found under the
    other. *)
Theorem generateCacheKey_not_injective :
  (forall owner repo dep,
      let key := fetch.generateCacheKey owner repo dep in
      let none (field : manifest.Dependency -> string) := field dep = "" in
      (manifest.Rev dep <> "" ->
       key = owner ++ "-" ++ repo ++ "-rev-" ++ manifest.Rev dep)
      /\ (none manifest.Rev -> manifest.Tag dep <> "" ->
          key = owner ++ "-" ++ repo ++ "-tag-" ++ manifest.Tag dep)
      /\ (none manifest.Rev -> none manifest.Tag -> manifest.Branch dep <> "" ->
          key = owner ++ "-" ++ repo ++ "-branch-" ++ manifest.Branch dep)
      /\ (none manifest.Rev -> none manifest.Tag -> none manifest.Branch ->
          manifest.Version dep <> "" ->
          key = owner ++ "-" ++ repo ++ "-version-" ++ manifest.Version dep)
      /\ (none manifest.Rev -> none manifest.Tag -> none manifest.Branch ->
          none manifest.Version ->
          key = owner ++ "-" ++ repo ++ "-latest"))
  /\ (forall dep, fetch.generateCacheKey "a" "b-c" dep = fetch.generateCacheKey "a-b" "c" dep)
  /\ ("a", "b-c") <> ("a-b", "c")
  /\ fetch.generateCacheKey "o" "r" (demo.dep "" "latest")
     = fetch.generateCacheKey "o" "r-tag" (demo.dep "" "")
  /\ (forall FS (os : OS FS) c fs e dep,
        cache.entries (cache.Set_ os c fs (fetch.generateCacheKey "a" "b-c" dep) e).1
          !! fetch.generateCacheKey "a-b" "c" dep = Some e).
Proof.
  assert (Hkey : forall dep,
             fetch.generateCacheKey "a" "b-c" dep = fetch.generateCacheKey "a-b" "c" dep).
  { intros dep. unfold fetch.generateCacheKey.
    destruct (String.eqb (manifest.Rev dep) ""); simpl; [|reflexivity].
    destruct (String.eqb (manifest.Tag dep) ""); simpl; [|reflexivity].
    destruct (String.eqb (manifest.Branch dep) ""); simpl; [|reflexivity].
    destruct (String.eqb (manifest.Version dep) ""); simpl; reflexivity. }
  split.
  { intros owner repo dep key none. subst key none. unfold fetch.generateCacheKey.
    destruct (String.eqb_spec (manifest.Rev dep) "");
      destruct (String.eqb_spec (manifest.Tag dep) "");
      destruct (String.eqb_spec (manifest.Branch dep) "");
      destruct (String.eqb_spec (manifest.Version dep) "");
      cbn [negb app strings.Join];
      repeat split; intros; first [contradiction | reflexivity]. }
  split; [exact Hkey|]. split; [discriminate|]. split; [reflexivity|].
  intros FS os c fs e dep. rewrite <- Hkey. simpl. apply lookup_insert_eq.
Qed.

(** The key of owner "a", repository "b-c" and tag "v1". *)
Lemma generateCacheKey_not_injective_witness :
  fetch.generateCacheKey "a" "b-c"
    (demo.dep "" "v1") = "a-b-c-tag-v1".
Proof.
  destruct generateCacheKey_not_injective as (Hform & _).
  destruct (Hform "a" "b-c" (demo.dep "" "v1"))
    as (_ & Htag & _).
  apply Htag; [reflexivity | discriminate].
Defined.

(** ** Reference resolution *)

Section resolution.
Context (remote : Remote) (owner repo : string).
Implicit Types dep : manifest.Dependency.

Lemma determineRef_by_version dep :
  by_version dep ->
  fetch.determineRefWithValidation remote owner repo dep =
  if negb (String.eqb (manifest.Version dep) "") then
    if String.eqb (manifest.Version dep) "latest" then
      match fetch.getLatestReleaseTag remote owner repo with
      | Err e => Err ("failed to get latest release: " ++ e)
      | Ok latestTag => Ok (latestTag, latestTag, "")
      end
    else
      let version :=
        strings.TrimPrefix
          (strings.TrimPrefix (strings.TrimPrefix (manifest.Version dep) "^") "~") "=" in
      match fetch.first_existing remote owner repo [version; "v" ++ version] with
      | Some tag => Ok (tag, manifest.Version dep, "")
      | None =>
          Err ("no matching tag found for version " ++ manifest.Version dep
               ++ " (tried: " ++ strings.Join [version; "v" ++ version] ", " ++ ")")
      end
  else
    match fetch.getLatestReleaseTag remote owner repo with
    | Ok latestTag =>
        if negb (String.eqb latestTag "") then Ok (latestTag, latestTag, "")
        else match fetch.getLatestCommitSHA remote owner repo with
             | Err e => Err ("failed to get latest commit: " ++ e)
             | Ok commitSHA => Ok (commitSHA, commitSHA, commitSHA)
             end
    | Err _ =>
        match fetch.getLatestCommitSHA remote owner repo with
        | Err e => Err ("failed to get latest commit: " ++ e)
        | Ok commitSHA => Ok (commitSHA, commitSHA, commitSHA)
        end
    end.
Proof.
  intros (HR & HT & HB & HL). unfold fetch.determineRefWithValidation.
  rewrite HR, HT, HB, HL. reflexivity.
Qed.

(** C6: an explicit revision wins over a tag, a tag over a branch, and each
    of them over the version constraint: the chosen selector is used verbatim
    as retrieval reference and as reported version, whatever the constraint
    and the remote are. *)
Theorem selector_precedence dep :
  manifest.Rev dep <> "" \/ manifest.Tag dep <> "" \/ manifest.Branch dep <> "" ->
  fetch.determineRefWithValidation remote owner repo dep =
  if negb (String.eqb (manifest.Rev dep) "")
  then Ok (manifest.Rev dep, manifest.Rev dep, manifest.Rev dep)
  else if negb (String.eqb (manifest.Tag dep) "")
  then Ok (manifest.Tag dep, manifest.Tag dep, "")
  else Ok (manifest.Branch dep, manifest.Branch dep, "").
Proof.
  intros H. unfold fetch.determineRefWithValidation.
  destruct (String.eqb_spec (manifest.Rev dep) "") as [HR|HR]; simpl; [|reflexivity].
  destruct (String.eqb_spec (manifest.Tag dep) "") as [HT|HT]; simpl; [|reflexivity].
  destruct (String.eqb_spec (manifest.Branch dep) "") as [HB|HB]; simpl; [|reflexivity].
  destruct H as [H|[H|H]]; contradiction.
Qed.

End resolution.

(** The dependency with tag "v1.0.0" and constraint "^2.0.0" resolves to the
    tag, on a remote that has a tag "2.0.0". *)
Lemma selector_precedence_witness :
  fetch.determineRefWithValidation
    (demo.remote_of ["2.0.0"; "v1.0.0"] (Response 404 (Err "")) [])
    "owner" "repo" (demo.dep "^2.0.0" "v1.0.0")
  = Ok ("v1.0.0", "v1.0.0", "").
Proof.
  apply (selector_precedence
           (demo.remote_of ["2.0.0"; "v1.0.0"] (Response 404 (Err "")) [])
           "owner" "repo" (demo.dep "^2.0.0" "v1.0.0")).
  right; left. simpl. discriminate.
Defined.

Lemma bare_version_examples :
  bare_version "^1.0.0" = "1.0.0" /\ bare_version "~0.10.0" = "0.10.0"
  /\ bare_version "=2.1.0" = "2.1.0" /\ bare_version "1.2.3" = "1.2.3"
  /\ bare_version ">=1.0.0" = ">=1.0.0".
Proof. repeat split. Qed.

Section probing.
Context (remote : Remote) (owner repo : string).
Implicit Types dep : manifest.Dependency.

Local Abbreviation tag_found := (tag_found remote owner repo).

Lemma first_existing_two (t1 t2 : string) :
  (tag_found t1 -> fetch.first_existing remote owner repo [t1; t2] = Some t1)
  /\ (~ tag_found t1 -> tag_found t2 ->
      fetch.first_existing remote owner repo [t1; t2] = Some t2)
  /\ (~ tag_found t1 -> ~ tag_found t2 ->
      fetch.first_existing remote owner repo [t1; t2] = None).
Proof.
  unfold tag_found. simpl.
  destruct (fetch.checkTagExists remote owner repo t1) as [[|]|e1];
    destruct (fetch.checkTagExists remote owner repo t2) as [[|]|e2];
    repeat split; intros; try reflexivity; try congruence; exfalso; auto.
Qed.

(** What the probes decide: with a concrete version constraint as only
    selector, the bare version is the constraint without leading "^", "~",
    "="; the remote is probed with that name and then with the name prefixed
    with "v"; the first name whose probe succeeds is the retrieval reference,
    and when neither does the resolution fails with the "no matching tag"
    error.  A probe succeeds when the listing of the remote's tags for the
    name contains the name. *)
Theorem concrete_constraint_probes_tags dep :
  by_version dep ->
  manifest.Version dep <> "" ->
  manifest.Version dep <> "latest" ->
  let version := bare_version (manifest.Version dep) in
  let resolved := fetch.determineRefWithValidation remote owner repo dep in
  (tag_found version -> resolved = Ok (version, manifest.Version dep, ""))
  /\ (~ tag_found version -> tag_found ("v" ++ version) ->
      resolved = Ok ("v" ++ version, manifest.Version dep, ""))
  /\ (~ tag_found version -> ~ tag_found ("v" ++ version) ->
      resolved = Err ("no matching tag found for version " ++ manifest.Version dep
                      ++ " (tried: " ++ strings.Join [version; "v" ++ version] ", "
                      ++ ")")).
Proof.
  intros Hsel Hne Hlatest version resolved. subst resolved.
  rewrite (determineRef_by_version _ _ _ _ Hsel).
  destruct (String.eqb_spec (manifest.Version dep) "") as [?|_]; [contradiction|].
  destruct (String.eqb_spec (manifest.Version dep) "latest") as [?|_]; [contradiction|].
  cbn [negb]. fold (bare_version (manifest.Version dep)). fold version. cbv zeta.
  destruct (first_existing_two version ("v" ++ version)) as (H1 & H2 & H3).
  repeat split.
  - intros F. rewrite (H1 F). reflexivity.
  - intros F1 F2. rewrite (H2 F1 F2). reflexivity.
  - intros F1 F2. rewrite (H3 F1 F2). reflexivity.
Qed.

(** C3, as the code has it: with the constraint "latest" as only selector,
    the tag of the release that the remote returns as the latest one is used
    verbatim as retrieval reference and as reported version; the draft and
    prerelease marks of that release are not looked at. *)
Theorem latest_uses_remote_release dep (release : Release) :
  by_version dep ->
  manifest.Version dep = "latest" ->
  http_release remote
    ("https://api.github.com/repos/" ++ owner ++ "/" ++ repo ++ "/releases/latest")
    = Response 200 (Ok release) ->
  fetch.determineRefWithValidation remote owner repo dep
  = Ok (TagName release, TagName release, "").
Proof.
  intros Hsel Hv Hresp. rewrite (determineRef_by_version _ _ _ _ Hsel), Hv.
  cbn [String.eqb Ascii.eqb Bool.eqb negb].
  unfold fetch.getLatestReleaseTag, github.GetLatestRelease.
  rewrite Hresp. reflexivity.
Qed.

End probing.

(** A remote with the tag "v1.0.0" only: the constraint "^1.0.0" resolves to
    the reference "v1.0.0". *)
Lemma concrete_constraint_probes_tags_witness :
  fetch.determineRefWithValidation (demo.remote_of ["v1.0.0"] (Response 404 (Err "")) [])
    "owner" "repo" (demo.dep "^1.0.0" "")
  = Ok ("v1.0.0", "^1.0.0", "").
Proof.
  destruct (concrete_constraint_probes_tags
              (demo.remote_of ["v1.0.0"] (Response 404 (Err "")) [])
              "owner" "repo" (demo.dep "^1.0.0" "")) as (_ & H & _).
  - repeat split.
  - discriminate.
  - discriminate.
  - apply H.
    + vm_compute. discriminate.
    + vm_compute. reflexivity.
Defined.

(** C4, where the code departs from it: on a remote whose tags are
    "release/1.0.0" and "v1.0.0" there is no tag "1.0.0", yet
    [git ls-remote --tags] for the pattern "1.0.0" prints the line of
    "refs/tags/release/1.0.0", which contains "1.0.0"; the probe says that
    the tag exists, and the constraint "^1.0.0" resolves to the reference
    "1.0.0" instead of the existing tag "v1.0.0". *)
Theorem nested_tag_taken_for_exact_tag :
  let tags := ["release/1.0.0"; "v1.0.0"] in
  let remote := demo.remote_of tags (Response 404 (Err "")) [] in
  ~ In "1.0.0" tags
  /\ In "v1.0.0" tags
  /\ ls_remote remote ["--tags"; fetch.repoURL "owner" "repo"; "1.0.0"]
     = Ok (demo.ref_line demo.commit "refs/tags/release/1.0.0")
  /\ fetch.checkTagExists remote "owner" "repo" "1.0.0" = Ok true
  /\ fetch.determineRefWithValidation remote "owner" "repo" (demo.dep "^1.0.0" "")
     = Ok ("1.0.0", "^1.0.0", "").
Proof.
  cbv zeta. split; [|split; [|split; [|split]]].
  - intros [H|[H|[]]]; discriminate H.
  - right. left. reflexivity.
  - vm_compute. reflexivity.
  - vm_compute. reflexivity.
  - vm_compute. reflexivity.
Qed.

(** With the tag "release/1.0.0" alone the resolution does not fail with the
    "no matching tag" error either. *)
Example nested_tag_alone :
  fetch.determineRefWithValidation
    (demo.remote_of ["release/1.0.0"] (Response 404 (Err "")) [])
    "owner" "repo" (demo.dep "^1.0.0" "")
  = Ok ("1.0.0", "^1.0.0", "").
Proof. vm_compute. reflexivity. Qed.

(** A release marked as draft and prerelease, returned by the remote as the
    latest one, is selected. *)
Lemma latest_selects_marked_release :
  let release := mkRelease "v3.0.0-rc.1" "candidate" true true in
  Draft release = true /\ RPrerelease release = true
  /\ fetch.determineRefWithValidation
       (demo.remote_of [] (Response 200 (Ok release)) []) "owner" "repo"
       (demo.dep "latest" "")
     = Ok ("v3.0.0-rc.1", "v3.0.0-rc.1", "").
Proof. vm_compute. repeat split. Qed.

Lemma latest_uses_remote_release_witness :
  fetch.determineRefWithValidation
    (demo.remote_of [] (Response 200 (Ok (mkRelease "v2.4.0" "stable" false false))) [])
    "owner" "repo" (demo.dep "latest" "")
  = Ok ("v2.4.0", "v2.4.0", "").
Proof.
  apply (latest_uses_remote_release
           (demo.remote_of [] (Response 200 (Ok (mkRelease "v2.4.0" "stable" false false))) [])
           "owner" "repo" (demo.dep "latest" "")
           (mkRelease "v2.4.0" "stable" false false)).
  - repeat split.
  - reflexivity.
  - reflexivity.
Defined.

(** *** White space: [Fields] against [TrimSpace] *)

Lemma blank_rev_string (s : string) : blank (strings.rev_string s) = blank s.
Proof.
  unfold blank, strings.rev_string. rewrite list_ascii_of_string_of_list_ascii.
  induction (list_ascii_of_string s) as [|c l IH]; [reflexivity|].
  simpl. rewrite forallb_app, IH. simpl. rewrite andb_true_r. apply andb_comm.
Qed.





Lemma fields_aux_nil (s : string) (cur : list ascii) :
  strings.fields_aux s cur = [] -> cur = [] /\ blank s = true.
Proof.
  revert cur. induction s as [|c s IH]; intros cur H; simpl in H.
  - destruct cur; [split; reflexivity | discriminate].
  - unfold blank. simpl. destruct (strings.isSpace c).
    + destruct cur; [|discriminate]. split; [reflexivity|]. apply (IH [] H).
    + destruct (IH _ H) as [Hc _]. discriminate.
Qed.



Section default_branch.
Context (remote : Remote) (owner repo : string).
Implicit Types dep : manifest.Dependency.







End default_branch.



(** ** The consistency check *)

Section consistency.
Implicit Types (M : gmap string manifest.Dependency)
               (pkgs : list manifest.LockedPackage) (names : list string).

Lemma lockPkgMap_fold pkgs (m : gmap string bool) (n : string) :
  fold_left (fun m pkg => <[manifest.Name pkg := true]> m) pkgs m !! n
  = if decide (n ∈ manifest.Name <$> pkgs) then Some true else m !! n.
Proof.
  revert m. induction pkgs as [|p pkgs IH]; intros m.
  - reflexivity.
  - cbn [fold_left]. rewrite IH, fmap_cons.
    destruct (decide (n ∈ manifest.Name <$> pkgs)) as [H|H].
    + rewrite decide_True; [reflexivity|]. right. exact H.
    + destruct (decide (n = manifest.Name p)) as [->|Hne].
      * rewrite decide_True; [|left]. apply lookup_insert_eq.
      * rewrite decide_False.
        -- apply lookup_insert_ne. congruence.
        -- intros Hin. apply elem_of_cons in Hin as [?|?]; contradiction.
Qed.

Lemma lockPkgMap_lookup pkgs (n : string) :
  default false (sync.lockPkgMap pkgs !! n) = bool_decide (n ∈ lock_names pkgs).
Proof.
  unfold sync.lockPkgMap, lock_names. rewrite lockPkgMap_fold, lookup_empty.
  case_decide as H.
  - symmetry. apply bool_decide_eq_true. apply elem_of_list_to_set. exact H.
  - symmetry. apply bool_decide_eq_false. rewrite elem_of_list_to_set. exact H.
Qed.

Lemma manifest_side names pkgs :
  flat_map (fun name =>
              if negb (default false (sync.lockPkgMap pkgs !! name))
              then [only_in_manifest name] else []) names
  = only_in_manifest <$> filter (fun n => n ∉ lock_names pkgs) names.
Proof.
  induction names as [|n names IH]; [reflexivity|].
  simpl. rewrite IH, lockPkgMap_lookup, filter_cons.
  destruct (decide (n ∉ lock_names pkgs)) as [H|H].
  - rewrite bool_decide_eq_false_2 by exact H. reflexivity.
  - rewrite bool_decide_eq_true_2; [reflexivity|].
    destruct (decide (n ∈ lock_names pkgs)); [assumption|contradiction].
Qed.

Lemma lock_side M pkgs :
  flat_map (fun pkg =>
              match M !! manifest.Name pkg with
              | None => [only_in_lock (manifest.Name pkg)]
              | Some _ => []
              end) pkgs
  = only_in_lock <$> filter (fun n => n ∉ dom M) (manifest.Name <$> pkgs).
Proof.
  induction pkgs as [|p pkgs IH]; [reflexivity|].
  cbn [flat_map]. rewrite IH, fmap_cons, filter_cons.
  destruct (M !! manifest.Name p) as [d|] eqn:E.
  - rewrite decide_False; [reflexivity|].
    intros H. apply H. apply elem_of_dom. eauto.
  - rewrite decide_True; [reflexivity|]. apply not_elem_of_dom. exact E.
Qed.

Lemma inconsistencies_filters names M pkgs :
  sync.inconsistencies names M pkgs
  = ((only_in_manifest <$> filter (fun n => n ∉ lock_names pkgs) names)
     ++ (only_in_lock <$> filter (fun n => n ∉ dom M) (manifest.Name <$> pkgs)))%list.
Proof.
  unfold sync.inconsistencies.
  rewrite <- manifest_side, <- lock_side. reflexivity.
Qed.

(** C9, as the code has it: the check passes exactly when the manifest and
    the lock file have the same set of names; otherwise there is one issue
    for each manifest name that the lock file lacks, followed by one issue
    for each package entry of the lock file, in its order, whose name the
    manifest lacks.  When no name is listed twice in the lock file the
    entries of the second kind are the names that only the lock file has,
    and the issues are those of the symmetric difference. *)
Theorem sync_reports_name_drift names M pkgs :
  names ≡ₚ elements (dom M) ->
  (sync.checkSync names M pkgs = Ok tt <-> dom M = lock_names pkgs)
  /\ (exists ms,
        ms ≡ₚ elements (dom M ∖ lock_names pkgs)
        /\ sync.inconsistencies names M pkgs
           = ((only_in_manifest <$> ms)
              ++ (only_in_lock <$> filter (fun n => n ∉ dom M)
                                     (manifest.Name <$> pkgs)))%list)
  /\ (NoDup (manifest.Name <$> pkgs) ->
      filter (fun n => n ∉ dom M) (manifest.Name <$> pkgs)
        ≡ₚ elements (lock_names pkgs ∖ dom M)).
Proof.
  intros Hnames.
  assert (Hin : forall n, n ∈ names <-> n ∈ dom M).
  { intros n. rewrite Hnames. apply elem_of_elements. }
  assert (Hnd : NoDup names).
  { rewrite Hnames. apply NoDup_elements. }
  split; [|split].
  - unfold sync.checkSync. rewrite inconsistencies_filters.
    split.
    + intros H.
      destruct (_ ++ _)%list as [|i is_] eqn:E; [clear H|discriminate].
      apply app_eq_nil in E as [E1 E2].
      apply fmap_nil_inv in E1. apply fmap_nil_inv in E2.
      apply set_eq. intros n. split; intros Hn.
      * destruct (decide (n ∈ lock_names pkgs)) as [?|Hno]; [assumption|].
        exfalso. assert (Hf : n ∈ filter (fun n => n ∉ lock_names pkgs) names).
        { apply list_elem_of_filter. split; [exact Hno | apply Hin, Hn]. }
        rewrite E1 in Hf. inversion Hf.
      * destruct (decide (n ∈ dom M)) as [?|Hno]; [assumption|].
        exfalso.
        assert (Hf : n ∈ filter (fun n => n ∉ dom M) (manifest.Name <$> pkgs)).
        { apply list_elem_of_filter. split; [exact Hno|].
          apply elem_of_list_to_set in Hn. exact Hn. }
        rewrite E2 in Hf. inversion Hf.
    + intros Heq.
      assert (E1 : filter (fun n => n ∉ lock_names pkgs) names = []).
      { apply elem_of_nil_inv. intros n Hn.
        apply list_elem_of_filter in Hn as [Hno Hn]. apply Hno.
        rewrite <- Heq. apply Hin, Hn. }
      assert (E2 : filter (fun n => n ∉ dom M) (manifest.Name <$> pkgs) = []).
      { apply elem_of_nil_inv. intros n Hn.
        apply list_elem_of_filter in Hn as [Hno Hn]. apply Hno.
        rewrite Heq. apply elem_of_list_to_set. exact Hn. }
      rewrite E1, E2. reflexivity.
  - exists (filter (fun n => n ∉ lock_names pkgs) names). split.
    + apply NoDup_Permutation.
      * apply NoDup_filter, Hnd.
      * apply NoDup_elements.
      * intros n. rewrite list_elem_of_filter, elem_of_elements, elem_of_difference, Hin.
        tauto.
    + apply inconsistencies_filters.
  - intros Hlock. apply NoDup_Permutation.
    + apply NoDup_filter, Hlock.
    + apply NoDup_elements.
    + intros n. rewrite list_elem_of_filter, elem_of_elements, elem_of_difference.
      unfold lock_names. rewrite elem_of_list_to_set. tauto.
Qed.

End consistency.

(** The manifest declares A and B, the lock file holds B and C. *)
Lemma sync_reports_name_drift_witness :
  sync.checkSync ["A"; "B"] manifest_AB [locked "B"; locked "C"] <> Ok tt
  /\ exists ms,
       ms ≡ₚ elements (dom manifest_AB ∖ lock_names [locked "B"; locked "C"])
       /\ sync.inconsistencies ["A"; "B"] manifest_AB [locked "B"; locked "C"]
          = ((only_in_manifest <$> ms) ++ [only_in_lock "C"])%list.
Proof.
  destruct (sync_reports_name_drift ["A"; "B"] manifest_AB [locked "B"; locked "C"])
    as (Hok & (ms & Hms & Hissues) & _).
  - apply NoDup_Permutation.
    + apply NoDup_cons. split; [|apply NoDup_singleton].
      intros H. apply list_elem_of_singleton in H. discriminate.
    + apply NoDup_elements.
    + intros n. rewrite elem_of_elements. unfold manifest_AB.
      rewrite !dom_insert_L, dom_empty_L. set_solver.
  - split.
    + intros H. apply Hok in H. assert (Hc : "C" ∈ dom manifest_AB).
      { rewrite H. unfold lock_names. set_solver. }
      unfold manifest_AB in Hc. rewrite !dom_insert_L, dom_empty_L in Hc.
      set_solver.
    + exists ms. split; [exact Hms|]. rewrite Hissues. reflexivity.
Defined.

Example sync_manifest_AB_lock_BC :
  sync.inconsistencies ["A"; "B"] manifest_AB [locked "B"; locked "C"]
  = ["'A' is in manifest but not in lock file";
     "'C' is in lock file but not in manifest"]
  /\ sync.inconsistencies ["B"; "A"] manifest_AB [locked "B"; locked "C"]
     = ["'A' is in manifest but not in lock file";
        "'C' is in lock file but not in manifest"].
Proof. split; vm_compute; reflexivity. Qed.

(** A lock file that lists C twice against a manifest without C: one name is
    on one side only, and two issues are reported. *)
Lemma duplicate_lock_entry_reported_twice :
  sync.inconsistencies [] ∅ [locked "C"; locked "C"]
  = ["'C' is in lock file but not in manifest";
     "'C' is in lock file but not in manifest"]
  /\ ((elements (dom (∅ : gmap string manifest.Dependency)
                 ∖ lock_names [locked "C"; locked "C"]))
      ++ elements (lock_names [locked "C"; locked "C"]
                   ∖ dom (∅ : gmap string manifest.Dependency)))%list = ["C"].
Proof. split; vm_compute; reflexivity. Qed.

(** ** The fetch cache *)

Section cache_facts.
Context {FS : Type} (os : OS FS).

Lemma Get_absent (c : cache.Cache) (fs : FS) (k : string) :
  cache.entries c !! k = None -> cache.Get os c fs k = (None, c, fs).
Proof. intros H. unfold cache.Get. rewrite H. reflexivity. Qed.



End cache_facts.



(** The same entry when its path is on disk: [Get] returns it. *)
Example cache_roundtrip_present :
  let os := demo.os_of (Dir []) in
  let e := mkEntry "/cache/repos/o/r/v1" "00" "v1" "" in
  let fs : gmap string Node := <["/cache/repos/o/r/v1" := Dir []]> ∅ in
  (cache.Get os (cache.Set_ os (cache.mkCache "/cache" ∅) fs "o-r-tag-v1" e).1
             (cache.Set_ os (cache.mkCache "/cache" ∅) fs "o-r-tag-v1" e).2
             "o-r-tag-v1").1.1 = Some e.
Proof. vm_compute. reflexivity. Qed.

(** ** The fetcher *)

Section fetcher.
Context {FS : Type} (os : OS FS) (lib : GoLib) (remote : Remote) (utils : Utils).

(** A successful run that found nothing in the cache resolved a reference
    and cloned the repository at it. *)
Lemma FetchDependency_on_miss (c c' : cache.Cache) (fs fs' : FS) (name : string)
    (dep : manifest.Dependency) (owner repo : string) (res : fetch.FetchResult) :
  github.ParseRepoURL lib (manifest.Git dep) = Ok (owner, repo) ->
  cache.entries c !! GenerateCacheKey utils owner repo dep = None ->
  fetch.FetchDependency os lib remote utils c fs name dep = (Returns (Ok res), c', fs') ->
  exists ref fs2,
    fetch.determineRefWithValidation remote owner repo dep
    = Ok (ref, fetch.Version res, fetch.CommitSHA res)
    /\ fetch.cloneRepository os utils (cache.cacheDir c) fs owner repo ref
       = (Ok (fetch.Path res), fs2).
Proof.
  intros Hurl Hmiss. unfold fetch.FetchDependency.
  rewrite Hurl, (Get_absent os _ _ _ Hmiss).
  destruct (fetch.determineRefWithValidation remote owner repo dep)
    as [[[ref ver] sha]|e]; [|discriminate].
  destruct (fetch.cloneRepository os utils (cache.cacheDir c) fs owner repo ref)
    as [[repoPath|e] fs2] eqn:Hclone; [|discriminate].
  destruct (integrity.CalculateDirectoryChecksumAt os fs2 repoPath); [|discriminate].
  cbn. destruct (fetch.short_commit sha); [discriminate|].
  intros [= <- _ _]. exists ref, fs2. split; [reflexivity|exact Hclone].
Qed.


End fetcher.


(** A revision of seven bytes: the fetch stores the entry and then panics. *)
Example fetch_short_revision_panics :
  let os := demo.os_of (Dir [("build.zig", File "")]) in
  let remote := demo.remote_of [] (Response 404 (Err "")) [] in
  let dep := manifest.mkDependency "owner/repo" "" "" "" "abc1234" "" false in
  let run := fetch.FetchDependency os demo.lib remote demo.utils
               (cache.mkCache "/cache" ∅) ∅ "dep" dep in
  run.1.1 = Panics "runtime error: slice bounds out of range [:8] with length 7"
  /\ is_Some (cache.entries run.1.2 !! "owner-repo-rev-abc1234").
Proof. vm_compute. split; [reflexivity|eexists; reflexivity]. Qed.

(** ** End to end: the constraint "^1.0.0" against the tags 1.0.0, 1.5.0, v2.0.0 *)

Lemma Permutation_three {A} (a b c : A) (l : list A) :
  l ≡ₚ [a; b; c] ->
  l = [a; b; c] \/ l = [a; c; b] \/ l = [b; a; c]
  \/ l = [b; c; a] \/ l = [c; a; b] \/ l = [c; b; a].
Proof.
  intros H. pose proof (Permutation_length H) as Hlen.
  destruct l as [|x [|y [|z [|w l]]]]; try discriminate Hlen. clear Hlen.
  assert (Hx : x ∈ [a; b; c]) by (rewrite <- H; left).
  apply elem_of_cons in Hx as [->|Hx].
  - apply Permutation_cons_inv in H. apply Permutation_length_2_inv in H.
    destruct H as [[= -> ->]|[= -> ->]]; auto.
  - apply elem_of_cons in Hx as [->|Hx].
    + assert (H' : [y; z] ≡ₚ [a; c]).
      { apply (Permutation_cons_inv (a:=b)). etransitivity; [exact H|].
        apply perm_swap. }
      apply Permutation_length_2_inv in H'.
      destruct H' as [[= -> ->]|[= -> ->]]; auto 10.
    + apply list_elem_of_singleton in Hx as ->.
      assert (H' : [y; z] ≡ₚ [a; b]).
      { apply (Permutation_cons_inv (a:=c)). etransitivity; [exact H|].
        symmetry. apply (Permutation_cons_append [a; b] c). }
      apply Permutation_length_2_inv in H'.
      destruct H' as [[= -> ->]|[= -> ->]]; auto 10.
Qed.

Section end_to_end.
Context (lib : GoLib) (remote : Remote).

(** C1, as the code has it: for the dependency on "owner/repo" with the
    constraint "^1.0.0" and no other selector, against a remote whose tags
    are 1.0.0, 1.5.0 and v2.0.0, the resolver resolves the version 1.5.0,
    while the fetcher probes the tag named by the constraint and retrieves
    the reference 1.0.0, reporting the constraint text "^1.0.0" as version:
    a fetch that misses the cache and succeeds cloned at the reference
    1.0.0. *)
Theorem caret_constraint_end_to_end (dep : manifest.Dependency) (tags : list string) :
  manifest.Git dep = "owner/repo" ->
  manifest.Version dep = "^1.0.0" ->
  by_version dep ->
  github.GetTags remote "owner" "repo" = Ok tags ->
  tags ≡ₚ ["1.0.0"; "1.5.0"; "v2.0.0"] ->
  tag_found remote "owner" "repo" "1.0.0" ->
  github.ParseRepoURL lib (manifest.Git dep) = Ok ("owner", "repo")
  /\ resolver.resolveVersion remote "owner" "repo" dep = Ok "1.5.0"
  /\ fetch.determineRefWithValidation remote "owner" "repo" dep
     = Ok ("1.0.0", "^1.0.0", "")
  /\ forall FS (os : OS FS) utils c fs name res c' fs',
       cache.entries c !! GenerateCacheKey utils "owner" "repo" dep = None ->
       fetch.FetchDependency os lib remote utils c fs name dep
       = (Returns (Ok res), c', fs') ->
       fetch.Version res = "^1.0.0"
       /\ exists fs2,
            fetch.cloneRepository os utils (cache.cacheDir c) fs "owner" "repo" "1.0.0"
            = (Ok (fetch.Path res), fs2).
Proof.
  intros Hgit Hver Hsel Htags Hperm Hfound.
  assert (Hurl : github.ParseRepoURL lib (manifest.Git dep) = Ok ("owner", "repo")).
  { rewrite Hgit. reflexivity. }
  assert (Href : fetch.determineRefWithValidation remote "owner" "repo" dep
                 = Ok ("1.0.0", "^1.0.0", "")).
  { rewrite (determineRef_by_version _ _ _ _ Hsel), Hver.
    cbn -[fetch.checkTagExists]. rewrite Hfound. reflexivity. }
  split; [exact Hurl|]. split; [|split; [exact Href|]].
  - destruct Hsel as (HR & HT & HB & _). unfold resolver.resolveVersion.
    rewrite HR, HT, HB, Hver. unfold github.GetAvailableVersions. rewrite Htags.
    destruct (Permutation_three _ _ _ _ Hperm) as [->|[->|[->|[->|[->| ->]]]]];
      vm_compute; reflexivity.
  - intros FS os utils c fs name res c' fs' Hmiss Hrun.
    destruct (FetchDependency_on_miss _ _ _ _ _ _ _ _ _ _ _ _ _ Hurl Hmiss Hrun)
      as (ref & fs2 & Href' & Hclone).
    rewrite Href in Href'. injection Href' as <- <- _.
    split; [reflexivity|]. exists fs2. exact Hclone.
Qed.

End end_to_end.
Lemma caret_constraint_end_to_end_witness :
  let remote := demo.remote_of ["1.0.0"; "1.5.0"; "v2.0.0"] (Response 404 (Err "")) [] in
  resolver.resolveVersion remote "owner" "repo" (demo.dep "^1.0.0" "") = Ok "1.5.0"
  /\ fetch.determineRefWithValidation remote "owner" "repo" (demo.dep "^1.0.0" "")
     = Ok ("1.0.0", "^1.0.0", "").
Proof.
  intros remote.
  destruct (caret_constraint_end_to_end demo.lib remote (demo.dep "^1.0.0" "")
              ["1.0.0"; "1.5.0"; "v2.0.0"]) as (_ & H1 & H2 & _).
  - reflexivity.
  - reflexivity.
  - repeat split.
  - reflexivity.
  - reflexivity.
  - vm_compute. reflexivity.
  - split; assumption.
Defined.

(** On that remote the fetch retrieves the reference 1.0.0, not 1.5.0, and
    reports the version "^1.0.0". *)
Lemma caret_constraint_fetches_literal_tag :
  let remote := demo.remote_of ["1.0.0"; "1.5.0"; "v2.0.0"] (Response 404 (Err "")) [] in
  let dep := demo.dep "^1.0.0" "" in
  fetch.determineRefWithValidation remote "owner" "repo" dep
  = Ok ("1.0.0", "^1.0.0", "")
  /\ match (fetch.FetchDependency (demo.os_of (Dir [("build.zig", File "")]))
              demo.lib remote demo.utils (cache.mkCache "/cache" ∅) ∅ "dep" dep).1.1 with
     | Returns (Ok res) => fetch.Path res = "/cache/repos/owner/repo/1.0.0"
                           /\ fetch.Version res = "^1.0.0"
     | _ => False
     end.
Proof. vm_compute. repeat split. Qed.

(** ** The tree checksum *)

(** *** The byte-wise order of strings *)

Lemma ascii_compare_refl (c : ascii) : Ascii.compare c c = Eq.
Proof. unfold Ascii.compare. apply N.compare_refl. Qed.

Lemma string_compare_refl (s : string) : String.compare s s = Eq.
Proof. induction s as [|c s IH]; [reflexivity|]. simpl. rewrite ascii_compare_refl. exact IH. Qed.

Lemma string_compare_prefix (p a b : string) :
  String.compare (p ++ a) (p ++ b) = String.compare a b.
Proof.
  induction p as [|c p IH]; [reflexivity|]. simpl. rewrite ascii_compare_refl. exact IH.
Qed.

Lemma string_leb_prefix (p a b : string) :
  String.leb (p ++ a) (p ++ b) = String.leb a b.
Proof. unfold String.leb. rewrite string_compare_prefix. reflexivity. Qed.

Lemma string_compare_lt_trans (a b c : string) :
  String.compare a b = Lt -> String.compare b c = Lt -> String.compare a c = Lt.
Proof.
  revert b c. induction a as [|x a IH]; intros [|y b] [|z c]; simpl; try congruence.
  unfold Ascii.compare.
  destruct (N.compare_spec (N_of_ascii x) (N_of_ascii y)) as [Exy|Lxy|Gxy]; try discriminate;
    destruct (N.compare_spec (N_of_ascii y) (N_of_ascii z)) as [Eyz|Lyz|Gyz]; try discriminate;
    intros H1 H2.
  - rewrite Exy, Eyz, N.compare_refl. eapply IH; eassumption.
  - rewrite Exy. apply N.compare_lt_iff in Lyz. rewrite Lyz. reflexivity.
  - rewrite <- Eyz. apply N.compare_lt_iff in Lxy. rewrite Lxy. reflexivity.
  - assert (L : (N_of_ascii x < N_of_ascii z)%N) by lia.
    apply N.compare_lt_iff in L. rewrite L. reflexivity.
Qed.

Lemma string_leb_trans (a b c : string) :
  String.leb a b = true -> String.leb b c = true -> String.leb a c = true.
Proof.
  unfold String.leb.
  destruct (String.compare a b) eqn:Eab; try discriminate;
    destruct (String.compare b c) eqn:Ebc; try discriminate; intros _ _.
  - apply String.compare_eq_iff in Eab, Ebc. subst. rewrite string_compare_refl. reflexivity.
  - apply String.compare_eq_iff in Eab. subst. rewrite Ebc. reflexivity.
  - apply String.compare_eq_iff in Ebc. subst. rewrite Eab. reflexivity.
  - rewrite (string_compare_lt_trans _ _ _ Eab Ebc). reflexivity.
Qed.

(** *** Sorting by a key *)

Section sorting.
Context {A : Type} (key : A -> string).

Lemma insert_by_perm (x : A) (l : list A) : integrity.insert_by key x l ≡ₚ x :: l.
Proof.
  induction l as [|y l IH]; [reflexivity|]. simpl.
  destruct (String.leb (key x) (key y)); [reflexivity|].
  rewrite IH. apply perm_swap.
Qed.

Lemma sort_by_perm (l : list A) : integrity.sort_by key l ≡ₚ l.
Proof.
  induction l as [|x l IH]; [reflexivity|].
  unfold integrity.sort_by in *. simpl. rewrite insert_by_perm, IH. reflexivity.
Qed.

(** Two insertions commute when the keys differ (or the elements agree). *)
Lemma insert_by_comm (x y : A) (l : list A) :
  (key x = key y -> x = y) ->
  integrity.insert_by key x (integrity.insert_by key y l)
  = integrity.insert_by key y (integrity.insert_by key x l).
Proof.
  intros Hxy. induction l as [|z l IH]; simpl.
  - destruct (String.leb (key x) (key y)) eqn:Exy;
      destruct (String.leb (key y) (key x)) eqn:Eyx; try reflexivity.
    + rewrite (Hxy (String.leb_antisym _ _ Exy Eyx)). reflexivity.
    + destruct (String.leb_total (key x) (key y)); congruence.
  - destruct (String.leb (key y) (key z)) eqn:Eyz;
      destruct (String.leb (key x) (key z)) eqn:Exz; simpl.
    + destruct (String.leb (key x) (key y)) eqn:Exy;
        destruct (String.leb (key y) (key x)) eqn:Eyx;
        rewrite ?Exz, ?Eyz; try reflexivity.
      * rewrite (Hxy (String.leb_antisym _ _ Exy Eyx)). reflexivity.
      * destruct (String.leb_total (key x) (key y)); congruence.
    + destruct (String.leb (key x) (key y)) eqn:Exy.
      * rewrite (string_leb_trans _ _ _ Exy Eyz) in Exz. discriminate.
      * rewrite Exz, Eyz. reflexivity.
    + destruct (String.leb (key y) (key x)) eqn:Eyx.
      * rewrite (string_leb_trans _ _ _ Eyx Exz) in Eyz. discriminate.
      * rewrite Exz, Eyz. reflexivity.
    + rewrite Exz, Eyz, IH. reflexivity.
Qed.

(** Sorting forgets the order of its input, as long as the key tells the
    elements apart. *)
Lemma sort_by_Permutation (l1 l2 : list A) :
  l1 ≡ₚ l2 ->
  (forall x y, x ∈ l1 -> y ∈ l1 -> key x = key y -> x = y) ->
  integrity.sort_by key l1 = integrity.sort_by key l2.
Proof.
  unfold integrity.sort_by.
  induction 1 as [|x l1 l2 Hp IH|x y l|l1 l2 l3 Hp1 IH1 Hp2 IH2]; intros Hinj.
  - reflexivity.
  - simpl. rewrite IH; [reflexivity|].
    intros a b Ha Hb. apply Hinj; right; assumption.
  - simpl. apply insert_by_comm. apply Hinj; [left | right; left].
  - rewrite IH1 by exact Hinj. apply IH2.
    intros a b Ha Hb. apply Hinj; rewrite Hp1; assumption.
Qed.

(** The result is sorted. *)
Lemma insert_by_sorted (x : A) (l : list A) :
  Sorted (fun a b => String.leb (key a) (key b) = true) l ->
  Sorted (fun a b => String.leb (key a) (key b) = true) (integrity.insert_by key x l).
Proof.
  induction 1 as [|y l Hs IH Hhd]; simpl.
  - repeat constructor.
  - destruct (String.leb (key x) (key y)) eqn:E.
    + constructor; [constructor; assumption|]. constructor. exact E.
    + constructor; [exact IH|].
      destruct l as [|z l]; simpl.
      * constructor. destruct (String.leb_total (key x) (key y)); congruence.
      * destruct (String.leb (key x) (key z)).
        -- constructor. destruct (String.leb_total (key x) (key y)); congruence.
        -- inversion Hhd; subst. constructor. assumption.
Qed.

Lemma sort_by_sorted (l : list A) :
  Sorted (fun a b => String.leb (key a) (key b) = true) (integrity.sort_by key l).
Proof.
  induction l as [|x l IH]; [constructor|]. apply insert_by_sorted. exact IH.
Qed.

End sorting.

(** Sorting commutes with a map. *)
Lemma sort_by_map {A B} (key : B -> string) (f : A -> B) (l : list A) :
  integrity.sort_by key (List.map f l)
  = List.map f (integrity.sort_by (fun a => key (f a)) l).
Proof.
  unfold integrity.sort_by. induction l as [|x l IH]; [reflexivity|].
  simpl. rewrite IH. generalize (fold_right (integrity.insert_by (fun a => key (f a))) [] l).
  intros s. induction s as [|y s IHs]; [reflexivity|]. simpl.
  destruct (String.leb (key (f x)) (key (f y))); simpl; [reflexivity|].
  rewrite IHs. reflexivity.
Qed.


(** *** Splitting and joining paths *)

Lemma Split_not_nil (s : string) : strings.Split s "/" <> [].
Proof.
  induction s as [|c s IH]; simpl; [discriminate|].
  destruct (Ascii.eqb c "/"); [discriminate|].
  destruct (strings.Split s "/"); discriminate.
Qed.

Lemma Split_app_sep (a b : string) :
  strings.Split (a ++ String "/" b) "/"
  = (strings.Split a "/" ++ strings.Split b "/")%list.
Proof.
  induction a as [|c a IH]; [reflexivity|].
  simpl. rewrite IH.
  destruct (Ascii.eqb c "/"); [reflexivity|].
  pose proof (Split_not_nil a) as Hne.
  destruct (strings.Split a "/") as [|x xs]; [contradiction|reflexivity].
Qed.

Lemma Split_no_sep (s : string) : has_sep s = false -> strings.Split s "/" = [s].
Proof.
  induction s as [|c s IH]; [reflexivity|]. simpl.
  unfold filepath.Separator. destruct (Ascii.eqb c "/"); [discriminate|].
  simpl. intros H. rewrite (IH H). reflexivity.
Qed.

Lemma Split_elems_no_sep (s : string) :
  forallb (fun c => negb (has_sep c)) (strings.Split s "/") = true.
Proof.
  induction s as [|c s IH]; [reflexivity|]. simpl.
  destruct (Ascii.eqb c "/") eqn:E; [exact IH|].
  destruct (strings.Split s "/") as [|x xs]; simpl in *.
  - unfold filepath.Separator. rewrite E. reflexivity.
  - unfold filepath.Separator. rewrite E. exact IH.
Qed.

Lemma Join_cons (x : string) (l : list string) :
  l <> [] -> strings.Join (x :: l) "/" = x ++ String "/" (strings.Join l "/").
Proof. destruct l; [contradiction|reflexivity]. Qed.

Lemma append_assoc (a b c : string) : (a ++ b) ++ c = a ++ (b ++ c).
Proof.
  induction a as [|x a IH]; [reflexivity|].
  change (String x ((a ++ b) ++ c) = String x (a ++ (b ++ c))). f_equal. exact IH.
Qed.

Lemma append_empty_r (a : string) : a ++ "" = a.
Proof.
  induction a as [|x a IH]; [reflexivity|].
  change (String x (a ++ "") = String x a). f_equal. exact IH.
Qed.

Lemma Join_app (l1 l2 : list string) :
  l1 <> [] -> l2 <> [] ->
  strings.Join (l1 ++ l2) "/" = strings.Join l1 "/" ++ String "/" (strings.Join l2 "/").
Proof.
  intros H1 H2. induction l1 as [|x l1 IH]; [contradiction|].
  destruct l1 as [|y l1].
  - simpl app. apply Join_cons. exact H2.
  - change ((x :: y :: l1) ++ l2)%list with (x :: ((y :: l1) ++ l2))%list.
    rewrite Join_cons by discriminate. rewrite IH by discriminate.
    rewrite (Join_cons x (y :: l1)) by discriminate.
    rewrite append_assoc. reflexivity.
Qed.

Lemma Split_Join (l : list string) :
  l <> [] -> forallb (fun c => negb (has_sep c)) l = true ->
  strings.Split (strings.Join l "/") "/" = l.
Proof.
  induction l as [|x l IH]; [contradiction|]. intros _ H.
  simpl in H. apply andb_true_iff in H as [Hx Hl]. apply negb_true_iff in Hx.
  destruct l as [|y l].
  - simpl. apply Split_no_sep. exact Hx.
  - rewrite Join_cons by discriminate. rewrite Split_app_sep, (Split_no_sep _ Hx).
    rewrite IH; [reflexivity|discriminate|exact Hl].
Qed.

Lemma Join_not_empty (l : list string) (x : string) :
  x ∈ l -> x <> "" -> strings.Join l "/" <> "".
Proof.
  induction l as [|y l IH]; intros Hin Hx; [inversion Hin|].
  destruct l as [|z l].
  - apply list_elem_of_singleton in Hin as ->. exact Hx.
  - rewrite Join_cons by discriminate. destruct y; simpl; discriminate.
Qed.

(** *** Cleaned paths *)

Lemma valid_name_spec (n : string) :
  valid_name n = true ->
  n <> "" /\ n <> "." /\ n <> ".." /\ has_sep n = false.
Proof.
  unfold valid_name. rewrite !andb_true_iff, !negb_true_iff.
  intros [[[H1 H2] H3] H4]. repeat split; try assumption.
  - intros ->. discriminate.
  - intros ->. discriminate.
  - intros ->. discriminate.
Qed.

Lemma valid_name_elem_ok (n : string) : valid_name n = true -> elem_ok n = true.
Proof.
  unfold valid_name, elem_ok. rewrite !andb_true_iff. tauto.
Qed.

Lemma clean_step_valid (rooted : bool) (stack : list string) (n : string) :
  valid_name n = true -> filepath.clean_step rooted stack n = n :: stack.
Proof.
  unfold valid_name, filepath.clean_step.
  rewrite !andb_true_iff, !negb_true_iff. intros [[[-> ->] ->] _]. reflexivity.
Qed.

Lemma fold_clean_valid (rooted : bool) (l stack : list string) :
  forallb valid_name l = true ->
  fold_left (filepath.clean_step rooted) l stack = (rev l ++ stack)%list.
Proof.
  revert stack. induction l as [|n l IH]; intros stack H; [reflexivity|].
  simpl in H. apply andb_true_iff in H as [Hn Hl].
  simpl. rewrite (clean_step_valid _ _ _ Hn), (IH _ Hl), <- app_assoc. reflexivity.
Qed.

Lemma fold_clean_dotdot (k j : nat) :
  fold_left (filepath.clean_step false) (repeat ".." k) (repeat ".." j)
  = repeat ".." (k + j).
Proof.
  revert j. induction k as [|k IH]; intros j; [reflexivity|].
  assert (Hstep : filepath.clean_step false (repeat ".." j) ".." = repeat ".." (S j)).
  { destruct j; reflexivity. }
  cbn [repeat fold_left]. rewrite Hstep, IH. f_equal. lia.
Qed.

(** The stack of [clean_step]: valid names on top of ".." elements, which
    only a relative path keeps. *)
Lemma clean_step_shape (rooted : bool) (stack : list string) (c : string) :
  has_sep c = false ->
  (exists ns k, stack = (ns ++ repeat ".." k)%list
                /\ forallb valid_name ns = true /\ (rooted = true -> k = 0)) ->
  exists ns k, filepath.clean_step rooted stack c = (ns ++ repeat ".." k)%list
               /\ forallb valid_name ns = true /\ (rooted = true -> k = 0).
Proof.
  intros Hsep (ns & k & -> & Hns & Hk). unfold filepath.clean_step.
  destruct (String.eqb_spec c "") as [->|H1]; simpl; [eauto 6|].
  destruct (String.eqb_spec c ".") as [->|H2]; simpl; [eauto 6|].
  destruct (String.eqb_spec c "..") as [->|H3].
  - destruct ns as [|n ns]; simpl.
    + destruct k as [|k]; simpl.
      * destruct rooted.
        -- exists [], 0. split; [reflexivity|]. split; [reflexivity|]. reflexivity.
        -- exists [], 1. split; [reflexivity|]. split; [reflexivity|]. discriminate.
      * exists [], (S (S k)). split; [reflexivity|]. split; [reflexivity|].
        intros Hr. specialize (Hk Hr). discriminate.
    + simpl in Hns. apply andb_true_iff in Hns as [Hn Hns].
      destruct (String.eqb_spec n "..") as [->|_]; [discriminate|].
      exists ns, k. split; [reflexivity|]. split; assumption.
  - exists (c :: ns), k. split; [reflexivity|]. split; [|exact Hk].
    simpl. rewrite Hns, andb_true_r. unfold valid_name.
    rewrite Hsep. destruct (String.eqb_spec c ""); [contradiction|].
    destruct (String.eqb_spec c "."); [contradiction|].
    destruct (String.eqb_spec c ".."); [contradiction|]. reflexivity.
Qed.

Lemma fold_clean_shape (rooted : bool) (l stack : list string) :
  forallb (fun c => negb (has_sep c)) l = true ->
  (exists ns k, stack = (ns ++ repeat ".." k)%list
                /\ forallb valid_name ns = true /\ (rooted = true -> k = 0)) ->
  exists ns k, fold_left (filepath.clean_step rooted) l stack = (ns ++ repeat ".." k)%list
               /\ forallb valid_name ns = true /\ (rooted = true -> k = 0).
Proof.
  revert stack. induction l as [|c l IH]; intros stack Hl Hs; [exact Hs|].
  simpl in Hl. apply andb_true_iff in Hl as [Hc Hl]. apply negb_true_iff in Hc.
  simpl. apply IH; [exact Hl|]. apply clean_step_shape; assumption.
Qed.

Lemma rev_repeat {A} (x : A) (k : nat) : rev (repeat x k) = repeat x k.
Proof.
  induction k as [|k IH]; [reflexivity|]. simpl. rewrite IH.
  clear IH. induction k as [|k IH]; [reflexivity|]. simpl. rewrite IH. reflexivity.
Qed.

(** Cleaning is idempotent on elements. *)
Lemma clean_elems_cleaned (rooted : bool) (l : list string) :
  forallb (fun c => negb (has_sep c)) l = true ->
  cleaned rooted (filepath.clean_elems rooted l).
Proof.
  intros Hl. unfold filepath.clean_elems.
  destruct (fold_clean_shape rooted l [] Hl) as (ns & k & E & Hns & Hk).
  { exists [], 0. repeat split; reflexivity || auto. }
  rewrite E. rewrite rev_app_distr, rev_repeat. split.
  - rewrite forallb_app. apply andb_true_iff. split.
    + clear. induction k; [reflexivity|exact IHk].
    + rewrite forallb_forall in *. intros x Hx. apply valid_name_elem_ok, Hns.
      apply in_rev. exact Hx.
  - unfold stable. rewrite fold_left_app.
    assert (Hdots : fold_left (filepath.clean_step rooted) (repeat ".." k) []
                    = repeat ".." k).
    { destruct rooted.
      - rewrite (Hk eq_refl). reflexivity.
      - pose proof (fold_clean_dotdot k 0) as H0.
        rewrite Nat.add_0_r in H0. exact H0. }
    rewrite Hdots, fold_clean_valid.
    + rewrite rev_app_distr, !rev_involutive, rev_repeat. reflexivity.
    + rewrite forallb_forall in *. intros x Hx. apply Hns, in_rev. exact Hx.
Qed.

Lemma cleaned_app (rooted : bool) (l rel : list string) :
  cleaned rooted l -> forallb valid_name rel = true -> cleaned rooted (l ++ rel).
Proof.
  intros [Hok Hst] Hrel. split.
  - rewrite forallb_app, Hok. simpl.
    rewrite forallb_forall in *. intros x Hx. apply valid_name_elem_ok, Hrel, Hx.
  - unfold stable in *. rewrite fold_left_app, Hst, fold_clean_valid by exact Hrel.
    rewrite rev_app_distr. reflexivity.
Qed.

Lemma elem_ok_no_sep (l : list string) :
  forallb elem_ok l = true -> forallb (fun c => negb (has_sep c)) l = true.
Proof.
  rewrite !forallb_forall. intros H x Hx. specialize (H x Hx).
  unfold elem_ok in H. apply andb_true_iff in H as [_ H]. exact H.
Qed.

Lemma HasPrefix_sep_cons (c : ascii) (s : string) :
  strings.HasPrefix (String c s) "/" = Ascii.eqb c "/".
Proof.
  unfold strings.HasPrefix.
  change (String.prefix "/" (String c s))
    with (if ascii_dec "/" c then String.prefix "" s else false).
  destruct (ascii_dec "/" c) as [<-|Hne].
  - destruct s; reflexivity.
  - symmetry. apply Ascii.eqb_neq. congruence.
Qed.

Section path_of_facts.
Context (rooted : bool) (l : list string).
Hypothesis (Hcl : cleaned rooted l) (Hne : l <> []).

Lemma path_of_Split :
  strings.Split (path_of rooted l) "/" = ((if rooted then [""] else []) ++ l)%list.
Proof.
  destruct Hcl as [Hok _]. unfold path_of.
  destruct rooted.
  - change ("/" ++ strings.Join l "/") with (String "/" (strings.Join l "/")).
    simpl. rewrite Split_Join; [reflexivity|exact Hne|apply elem_ok_no_sep, Hok].
  - change ("" ++ strings.Join l "/") with (strings.Join l "/").
    rewrite Split_Join; [reflexivity|exact Hne|apply elem_ok_no_sep, Hok].
Qed.

Lemma path_of_not_empty : path_of rooted l <> "".
Proof.
  unfold path_of. destruct rooted; [discriminate|].
  change ("" ++ strings.Join l "/") with (strings.Join l "/").
  destruct l as [|x l']; [contradiction|].
  apply (Join_not_empty _ x); [left|].
  destruct Hcl as [Hok _]. simpl in Hok. apply andb_true_iff in Hok as [Hx _].
  unfold elem_ok in Hx. apply andb_true_iff in Hx as [Hx _].
  intros ->. discriminate.
Qed.

Lemma path_of_HasPrefix : strings.HasPrefix (path_of rooted l) "/" = rooted.
Proof.
  unfold path_of. destruct rooted.
  { change ("/" ++ strings.Join l "/") with (String "/" (strings.Join l "/")).
    apply HasPrefix_sep_cons. }
  change ("" ++ strings.Join l "/") with (strings.Join l "/").
  destruct l as [|x l']; [contradiction|].
  destruct Hcl as [Hok _]. simpl in Hok. apply andb_true_iff in Hok as [Hx _].
  unfold elem_ok in Hx. apply andb_true_iff in Hx as [Hx1 Hx2].
  destruct x as [|c x]; [discriminate|]. simpl in Hx2.
  apply negb_true_iff, orb_false_iff in Hx2 as [Hc _].
  unfold filepath.Separator in Hc.
  destruct l' as [|y l'].
  - change (strings.Join [String c x] "/") with (String c x).
    rewrite HasPrefix_sep_cons. exact Hc.
  - rewrite Join_cons by discriminate.
    change (String c x ++ String "/" (strings.Join (y :: l') "/"))
      with (String c (x ++ String "/" (strings.Join (y :: l') "/"))).
    rewrite HasPrefix_sep_cons. exact Hc.
Qed.

Lemma path_of_clean_elems :
  filepath.clean_elems rooted (strings.Split (path_of rooted l) "/") = l.
Proof.
  rewrite path_of_Split. unfold filepath.clean_elems.
  destruct Hcl as [_ Hst]. unfold stable in Hst.
  destruct rooted.
  - cbn [app fold_left].
    change (filepath.clean_step true [] "") with (@nil string).
    rewrite Hst. apply rev_involutive.
  - cbn [app]. rewrite Hst. apply rev_involutive.
Qed.

Lemma Clean_path_of : filepath.Clean (path_of rooted l) = path_of rooted l.
Proof.
  unfold filepath.Clean.
  destruct (String.eqb_spec (path_of rooted l) "") as [E|_];
    [exfalso; exact (path_of_not_empty E)|].
  rewrite path_of_HasPrefix. unfold filepath.Separator. rewrite path_of_clean_elems.
  fold (path_of rooted l).
  destruct (String.eqb_spec (path_of rooted l) "") as [E|_];
    [exfalso; exact (path_of_not_empty E)|reflexivity].
Qed.

End path_of_facts.

Lemma root_cleaned (root : string) :
  cleaned (strings.HasPrefix root "/") (root_elems root).
Proof. apply clean_elems_cleaned, Split_elems_no_sep. Qed.

Lemma HasPrefix_app (p q : string) :
  p <> "" -> strings.HasPrefix (p ++ q) "/" = strings.HasPrefix p "/".
Proof.
  destruct p as [|c p]; [contradiction|]. intros _.
  change (String c p ++ q) with (String c (p ++ q)).
  rewrite !HasPrefix_sep_cons. reflexivity.
Qed.

(** The path of an entry: the cleaned path of the directory, then the name. *)
Lemma Join_child (p name : string) :
  valid_name name = true ->
  filepath.Join [p; name]
  = path_of (strings.HasPrefix p "/") (root_elems p ++ [name]).
Proof.
  intros Hname.
  assert (Hcl : cleaned (strings.HasPrefix p "/") (root_elems p ++ [name])).
  { apply cleaned_app; [apply root_cleaned|]. simpl. rewrite Hname. reflexivity. }
  assert (Hne : (root_elems p ++ [name])%list <> []).
  { destruct (root_elems p); discriminate. }
  destruct (valid_name_spec _ Hname) as (Hn1 & _ & _ & Hn4).
  unfold filepath.Join. destruct (String.eqb_spec p "") as [->|Hp].
  - simpl. destruct (String.eqb_spec name "") as [?|_]; [contradiction|].
    change (strings.Join [name] "/") with (path_of false ([] ++ [name])).
    apply (Clean_path_of false _ Hcl Hne).
  - cbn [filepath.drop_empty]. destruct (String.eqb_spec p "") as [?|_]; [contradiction|].
    change (strings.Join [p; name] "/") with (p ++ String "/" name).
    unfold filepath.Clean.
    destruct (String.eqb_spec (p ++ String "/" name) "") as [E|_].
    { destruct p; [contradiction|discriminate E]. }
    rewrite (HasPrefix_app _ _ Hp). unfold filepath.Separator.
    rewrite Split_app_sep, (Split_no_sep _ Hn4).
    unfold filepath.clean_elems. rewrite fold_left_app. cbn [fold_left].
    rewrite (clean_step_valid _ _ _ Hname). cbn [rev].
    change ((if String.eqb (path_of (strings.HasPrefix p "/") (root_elems p ++ [name])) ""
             then "." else path_of (strings.HasPrefix p "/") (root_elems p ++ [name]))
            = path_of (strings.HasPrefix p "/") (root_elems p ++ [name])).
    destruct (String.eqb_spec (path_of (strings.HasPrefix p "/") (root_elems p ++ [name])) "")
      as [E|_]; [|reflexivity].
    exfalso. exact (path_of_not_empty _ _ Hcl Hne E).
Qed.

Lemma root_elems_path_of (rooted : bool) (l : list string) :
  cleaned rooted l -> l <> [] ->
  strings.HasPrefix (path_of rooted l) "/" = rooted
  /\ root_elems (path_of rooted l) = l.
Proof.
  intros Hcl Hne. split; [apply path_of_HasPrefix; assumption|].
  unfold root_elems. rewrite (path_of_HasPrefix _ _ Hcl Hne).
  apply path_of_clean_elems; assumption.
Qed.

(** *** The callback on a file *)

Lemma contains_In (l : list string) (x : string) :
  integrity.contains l x = true <-> In x l.
Proof.
  induction l as [|y l IH]; simpl; [split; [discriminate|tauto]|].
  destruct (String.eqb_spec y x) as [->|Hne]; [tauto|].
  rewrite IH. split; [tauto|]. intros [?|?]; [contradiction|assumption].
Qed.

Lemma contains_app (l1 l2 : list string) (x : string) :
  integrity.contains (l1 ++ l2) x = integrity.contains l1 x || integrity.contains l2 x.
Proof.
  induction l1 as [|y l1 IH]; [reflexivity|]. simpl.
  destruct (String.eqb y x); [reflexivity|exact IH].
Qed.

Lemma filter_nonempty_ok (l : list string) :
  forallb elem_ok l = true ->
  List.filter (fun e => negb (String.eqb e "")) l = l.
Proof.
  induction l as [|x l IH]; [reflexivity|]. simpl. intros H.
  apply andb_true_iff in H as [Hx Hl]. unfold elem_ok in Hx.
  apply andb_true_iff in Hx as [Hx _]. rewrite Hx, (IH Hl). reflexivity.
Qed.

Lemma selected_file (rooted : bool) (l : list string) (c : string) :
  cleaned rooted l -> l <> [] ->
  integrity.selected (path_of rooted l, File c) = negb (integrity.contains l ".git").
Proof.
  intros Hcl Hne. unfold integrity.selected. cbn [integrity.IsDir orb].
  unfold filepath.Separator. rewrite (path_of_Split _ _ Hcl Hne).
  assert (Hc : integrity.contains ((if rooted then [""] else []) ++ l) ".git"
               = integrity.contains l ".git").
  { destruct rooted; reflexivity. }
  rewrite Hc. destruct (integrity.contains l ".git") eqn:E.
  - destruct (String.eqb _ _); reflexivity.
  - assert (Hb : In (filepath.Base (path_of rooted l)) l).
    { unfold filepath.Base.
      destruct (String.eqb_spec (path_of rooted l) "") as [E0|_];
        [exfalso; exact (path_of_not_empty _ _ Hcl Hne E0)|].
      unfold filepath.Separator. rewrite (path_of_Split _ _ Hcl Hne).
      assert (Hf : List.filter (fun e => negb (String.eqb e ""))
                     ((if rooted then [""] else []) ++ l) = l).
      { destruct Hcl as [Hok _]. destruct rooted; simpl; apply filter_nonempty_ok, Hok. }
      rewrite Hf. destruct (rev l) as [|e r] eqn:Er.
      - apply (f_equal (@rev string)) in Er. rewrite rev_involutive in Er. contradiction.
      - apply in_rev. rewrite Er. left. reflexivity. }
    destruct (String.eqb_spec (filepath.Base (path_of rooted l)) ".git") as [Eg|_];
      [|reflexivity].
    rewrite Eg in Hb. apply contains_In in Hb. congruence.
Qed.

(** *** Relative paths *)

Lemma strip_common_app (xs rel : list string) :
  filepath.strip_common xs (xs ++ rel) = ([], rel).
Proof.
  induction xs as [|x xs IH]; [destruct rel; reflexivity|].
  simpl. rewrite String.eqb_refl. exact IH.
Qed.

Lemma path_of_not_slash (rooted : bool) (l : list string) :
  cleaned rooted l -> l <> [] -> path_of rooted l <> "/".
Proof.
  intros Hcl Hne E. pose proof (path_of_Split _ _ Hcl Hne) as HS.
  rewrite E in HS. destruct Hcl as [Hok _].
  destruct rooted; simpl in HS.
  - injection HS as <-. discriminate Hok.
  - rewrite <- HS in Hok. discriminate Hok.
Qed.

Lemma path_of_not_dot (rooted : bool) (l : list string) :
  cleaned rooted l -> l <> [] -> path_of rooted l <> ".".
Proof.
  intros Hcl Hne E. pose proof (path_of_Split _ _ Hcl Hne) as HS.
  rewrite E in HS. destruct Hcl as [_ Hst].
  destruct rooted; simpl in HS; [discriminate HS|].
  rewrite <- HS in Hst. discriminate Hst.
Qed.

Lemma elements_path_of (rooted : bool) (l : list string) :
  cleaned rooted l -> l <> [] ->
  filepath.elements (path_of rooted l) = ((if rooted then [""] else []) ++ l)%list.
Proof.
  intros Hcl Hne. unfold filepath.elements.
  destruct (String.eqb_spec (path_of rooted l) "") as [E|_];
    [exfalso; exact (path_of_not_empty _ _ Hcl Hne E)|].
  destruct (String.eqb_spec (path_of rooted l) "/") as [E|_];
    [exfalso; exact (path_of_not_slash _ _ Hcl Hne E)|].
  apply path_of_Split; assumption.
Qed.

Lemma Clean_root (root : string) :
  filepath.Clean root
  = if String.eqb (path_of (strings.HasPrefix root "/") (root_elems root)) ""
    then "." else path_of (strings.HasPrefix root "/") (root_elems root).
Proof.
  unfold filepath.Clean. destruct (String.eqb_spec root "") as [->|_]; reflexivity.
Qed.

Lemma Rel_from_clean (root : string) (rooted : bool) (st rel : list string) :
  cleaned rooted st ->
  filepath.Clean root
  = (if String.eqb (path_of rooted st) "" then "." else path_of rooted st) ->
  forallb valid_name rel = true -> rel <> [] ->
  filepath.Rel root (path_of rooted (st ++ rel)) = Ok (strings.Join rel "/").
Proof.
  intros Hst Hclean Hrel Hne.
  assert (HclT : cleaned rooted (st ++ rel)) by (apply cleaned_app; assumption).
  assert (HneT : (st ++ rel)%list <> []).
  { destruct st; [exact Hne|discriminate]. }
  unfold filepath.Rel. rewrite Hclean, (Clean_path_of _ _ HclT HneT).
  destruct st as [|s0 st'].
  - (* the root is "/" or "." *)
    destruct rooted.
    + change (path_of true []) with "/". cbn [String.eqb Ascii.eqb Bool.eqb].
      destruct (String.eqb_spec (path_of true ([] ++ rel)) "/") as [E|_];
        [exfalso; exact (path_of_not_slash _ _ HclT HneT E)|].
      rewrite (path_of_HasPrefix _ _ HclT HneT).
      rewrite (elements_path_of _ _ HclT HneT).
      change (strings.HasPrefix "/" "/") with true.
      change (filepath.elements "/") with [""].
      cbn [Bool.eqb negb app]. change ("" :: rel) with ([""] ++ rel)%list.
      rewrite (strip_common_app [""] rel). reflexivity.
    + change (path_of false []) with "". cbn [String.eqb Ascii.eqb Bool.eqb].
      destruct (String.eqb_spec (path_of false ([] ++ rel)) ".") as [E|_];
        [exfalso; exact (path_of_not_dot _ _ HclT HneT E)|].
      rewrite (path_of_HasPrefix _ _ HclT HneT).
      rewrite (elements_path_of _ _ HclT HneT).
      change (strings.HasPrefix "" "/") with false.
      change (filepath.elements "") with (@nil string).
      cbn [Bool.eqb negb app filepath.strip_common]. reflexivity.
  - assert (HneB : s0 :: st' <> []) by discriminate.
    destruct (String.eqb_spec (path_of rooted (s0 :: st')) "") as [E|_];
      [exfalso; exact (path_of_not_empty _ _ Hst HneB E)|].
    destruct (String.eqb_spec (path_of rooted ((s0 :: st') ++ rel))
                              (path_of rooted (s0 :: st'))) as [E|_].
    { exfalso. apply (f_equal (fun p => strings.Split p "/")) in E.
      rewrite (path_of_Split _ _ HclT HneT), (path_of_Split _ _ Hst HneB) in E.
      apply app_inv_head in E.
      rewrite <- (app_nil_r (s0 :: st')) in E at 2. apply app_inv_head in E.
      contradiction. }
    destruct (String.eqb_spec (path_of rooted (s0 :: st')) ".") as [E|_];
      [exfalso; exact (path_of_not_dot _ _ Hst HneB E)|].
    rewrite (path_of_HasPrefix _ _ HclT HneT), (path_of_HasPrefix _ _ Hst HneB).
    rewrite (elements_path_of _ _ HclT HneT), (elements_path_of _ _ Hst HneB).
    rewrite eqb_reflx. cbn [negb].
    rewrite (app_assoc _ (s0 :: st') rel), strip_common_app. reflexivity.
Qed.

Lemma Rel_descendant (root : string) (rel : list string) :
  forallb valid_name rel = true -> rel <> [] ->
  filepath.Rel root (path_of (strings.HasPrefix root "/") (root_elems root ++ rel))
  = Ok (strings.Join rel "/").
Proof.
  intros Hrel Hne. apply Rel_from_clean; [apply root_cleaned|apply Clean_root|exact Hrel|exact Hne].
Qed.

(** *** Trees *)

Lemma Node_nested_ind (P : Node -> Prop) :
  (forall c, P (File c)) ->
  (forall es, Forall (fun e => P (snd e)) es -> P (Dir es)) ->
  forall n, P n.
Proof.
  intros HF HD. fix IH 1. intros [c|es]; [apply HF|]. apply HD.
  revert es. fix IHes 1. intros [|[name t] es].
  - constructor.
  - constructor; [apply IH|apply IHes].
Qed.

Lemma wf_tree_Dir (es : list (string * Node)) :
  wf_tree (Dir es) = true ->
  Forall (fun e => valid_name (fst e) = true /\ wf_tree (snd e) = true) es
  /\ NoDup (List.map fst es).
Proof.
  simpl. intros H. apply andb_true_iff in H as [H1 H2]. split.
  - apply Forall_forall. intros e He. rewrite forallb_forall in H1.
    apply list_elem_of_In in He. apply andb_true_iff. apply H1, He.
  - apply bool_decide_eq_true in H2. exact H2.
Qed.

Lemma files_Dir (es : list (string * Node)) :
  files (Dir es)
  = flat_map (fun e => List.map (fun f => (fst e :: fst f, snd f)) (files (snd e))) es.
Proof. reflexivity. Qed.

Lemma files_valid (t : Node) :
  wf_tree t = true -> forall f, In f (files t) -> forallb valid_name (fst f) = true.
Proof.
  induction t as [c|es IH] using Node_nested_ind; intros Hwf f Hf.
  - destruct Hf as [<-|[]]. reflexivity.
  - apply wf_tree_Dir in Hwf as [Hes _]. rewrite files_Dir in Hf.
    apply in_flat_map in Hf as (e & He & Hf). apply in_map_iff in Hf as (g & <- & Hg).
    rewrite Forall_forall in IH, Hes. apply list_elem_of_In in He.
    destruct (Hes e He) as [Hname Hwf]. simpl. rewrite Hname. simpl.
    apply (IH e He Hwf g Hg).
Qed.

Lemma files_Dir_not_nil (es : list (string * Node)) (f : list string * string) :
  In f (files (Dir es)) -> fst f <> [].
Proof.
  rewrite files_Dir. intros Hf. apply in_flat_map in Hf as (e & _ & Hf).
  apply in_map_iff in Hf as (g & <- & _). discriminate.
Qed.

Lemma files_NoDup (t : Node) : wf_tree t = true -> NoDup (List.map fst (files t)).
Proof.
  induction t as [c|es IH] using Node_nested_ind; intros Hwf.
  - simpl. apply NoDup_singleton.
  - apply wf_tree_Dir in Hwf as [Hes Hnd]. rewrite files_Dir.
    induction es as [|e es IHes]; [constructor|].
    apply Forall_cons in IH as [IHe IH]. apply Forall_cons in Hes as [[_ Hwfe] Hes].
    simpl in Hnd. apply NoDup_cons in Hnd as [Hfresh Hnd].
    cbn [flat_map]. rewrite map_app. apply NoDup_app. split; [|split].
    + rewrite map_map. simpl.
      rewrite <- (map_map fst (cons (fst e))).
      apply (NoDup_fmap_2 (cons (fst e))). apply IHe, Hwfe.
    + intros x Hx Hx'. apply list_elem_of_In in Hx, Hx'.
      apply in_map_iff in Hx as (f & <- & Hf). apply in_map_iff in Hf as (g & <- & _).
      apply in_map_iff in Hx' as (f' & E & Hf').
      apply in_flat_map in Hf' as (e' & He' & Hf').
      apply in_map_iff in Hf' as (g' & <- & _). simpl in E.
      injection E as E _. apply Hfresh. apply list_elem_of_In.
      rewrite <- E. apply in_map. exact He'.
    + apply IHes; assumption.
Qed.

(** *** The walk *)

Lemma filter_flat_map {A B} (P : B -> bool) (f : A -> list B) (l : list A) :
  List.filter P (flat_map f l) = flat_map (fun a => List.filter P (f a)) l.
Proof.
  induction l as [|a l IH]; [reflexivity|]. simpl. rewrite List.filter_app, IH. reflexivity.
Qed.

Lemma flat_map_Permutation {A B} (f g : A -> list B) (l : list A) :
  Forall (fun a => f a ≡ₚ g a) l -> flat_map f l ≡ₚ flat_map g l.
Proof.
  induction 1 as [|a l Ha _ IH]; [reflexivity|]. simpl. rewrite Ha, IH. reflexivity.
Qed.

Lemma filter_Permutation {A} (P : A -> bool) (l1 l2 : list A) :
  l1 ≡ₚ l2 -> List.filter P l1 ≡ₚ List.filter P l2.
Proof.
  induction 1 as [|x l1 l2 _ IH|x y l|l1 l2 l3 _ IH1 _ IH2]; simpl.
  - reflexivity.
  - destruct (P x); [rewrite IH|exact IH]; reflexivity.
  - destruct (P x), (P y); try reflexivity. apply perm_swap.
  - etransitivity; eassumption.
Qed.

Lemma concat_Permutation {A} (l1 l2 : list (list A)) :
  l1 ≡ₚ l2 -> concat l1 ≡ₚ concat l2.
Proof.
  induction 1 as [|x l1 l2 _ IH|x y l|l1 l2 l3 _ IH1 _ IH2]; simpl.
  - reflexivity.
  - rewrite IH. reflexivity.
  - rewrite !app_assoc. apply Permutation_app_tail, Permutation_app_comm.
  - etransitivity; eassumption.
Qed.

Lemma located_cons (rooted : bool) (l : list string) (name : string)
    (fs : list (list string * string)) :
  located rooted l (List.map (fun f => (name :: fst f, snd f)) fs)
  = located rooted (l ++ [name]) fs.
Proof.
  unfold located. induction fs as [|f fs IH]; [reflexivity|].
  cbn [List.map List.filter fst snd].
  assert (E : (l ++ name :: fst f)%list = ((l ++ [name]) ++ fst f)%list).
  { rewrite <- app_assoc. reflexivity. }
  rewrite E.
  destruct (negb _); cbn [List.map fst snd]; rewrite ?E, IH; reflexivity.
Qed.

Lemma located_flat_map {A} (rooted : bool) (l : list string)
    (f : A -> list (list string * string)) (xs : list A) :
  located rooted l (flat_map f xs) = flat_map (fun x => located rooted l (f x)) xs.
Proof.
  unfold located. induction xs as [|x xs IH]; [reflexivity|].
  simpl. rewrite List.filter_app, map_app, IH. reflexivity.
Qed.

(** The walk of a directory whose entries are placed at [l ++ [name]]. *)
Lemma Walk_dir_step (es : list (string * Node)) (p : string) (rooted : bool)
    (l : list string) :
  (forall name, valid_name name = true ->
                filepath.Join [p; name] = path_of rooted (l ++ [name])) ->
  cleaned rooted l ->
  Forall (fun e => valid_name (fst e) = true /\ wf_tree (snd e) = true) es ->
  Forall (fun e => walk_selects (snd e)) es ->
  List.filter integrity.selected (integrity.Walk p (Dir es))
    ≡ₚ located rooted l (files (Dir es)).
Proof.
  intros HJoin Hcl Hes IH.
  cbn [integrity.Walk List.filter integrity.selected integrity.IsDir orb].
  etransitivity.
  { apply filter_Permutation, concat_Permutation, Permutation_map, sort_by_perm. }
  rewrite map_map. cbn [snd]. rewrite <- flat_map_concat_map, filter_flat_map.
  rewrite files_Dir, located_flat_map.
  apply flat_map_Permutation. rewrite Forall_forall in *.
  intros e He. destruct (Hes e He) as [Hname Hwf].
  rewrite located_cons, (HJoin _ Hname).
  apply (IH e He).
  - apply cleaned_app; [exact Hcl|]. simpl. rewrite Hname. reflexivity.
  - destruct l; discriminate.
Qed.

Lemma Walk_selects (t : Node) : wf_tree t = true -> walk_selects t.
Proof.
  induction t as [c|es IH] using Node_nested_ind; intros Hwf rooted l Hcl Hne.
  - cbn [integrity.Walk List.filter files]. rewrite (selected_file _ _ c Hcl Hne).
    unfold located. cbn [List.filter fst snd]. rewrite app_nil_r.
    destruct (negb _); cbn [List.map fst snd]; rewrite ?app_nil_r; reflexivity.
  - apply wf_tree_Dir in Hwf as [Hes _].
    apply Walk_dir_step; [|exact Hcl|exact Hes|].
    + intros name Hname. rewrite (Join_child _ _ Hname).
      destruct (root_elems_path_of _ _ Hcl Hne) as [-> ->]. reflexivity.
    + rewrite Forall_forall in *. intros e He. apply (IH e He).
      apply (Hes e He).
Qed.

(** The walk from the root path given to [CalculateDirectoryChecksum]. *)
Lemma Walk_root (root : string) (es : list (string * Node)) :
  wf_tree (Dir es) = true ->
  List.filter integrity.selected (integrity.Walk root (Dir es))
    ≡ₚ located (strings.HasPrefix root "/") (root_elems root) (files (Dir es)).
Proof.
  intros Hwf. apply wf_tree_Dir in Hwf as [Hes _].
  apply Walk_dir_step; [|apply root_cleaned|exact Hes|].
  - intros name Hname. apply Join_child, Hname.
  - rewrite Forall_forall in *. intros e He. apply Walk_selects, (Hes e He).
Qed.

(** *** From the walk to the digest *)

Lemma path_of_inj (rooted : bool) (l1 l2 : list string) :
  cleaned rooted l1 -> l1 <> [] -> cleaned rooted l2 -> l2 <> [] ->
  path_of rooted l1 = path_of rooted l2 -> l1 = l2.
Proof.
  intros H1 N1 H2 N2 E. apply (f_equal (fun p => strings.Split p "/")) in E.
  rewrite (path_of_Split _ _ H1 N1), (path_of_Split _ _ H2 N2) in E.
  apply app_inv_head in E. exact E.
Qed.

Lemma valid_names_no_sep (l : list string) :
  forallb valid_name l = true -> forallb (fun c => negb (has_sep c)) l = true.
Proof.
  rewrite !forallb_forall. intros H x Hx.
  destruct (valid_name_spec _ (H x Hx)) as (_ & _ & _ & ->). reflexivity.
Qed.

Lemma Join_inj (l1 l2 : list string) :
  forallb valid_name l1 = true -> forallb valid_name l2 = true ->
  strings.Join l1 "/" = strings.Join l2 "/" -> l1 = l2.
Proof.
  intros H1 H2 E.
  assert (Hne : forall l x r, forallb valid_name l = true -> l = x :: r ->
                              strings.Join l "/" <> "").
  { intros l x r Hl ->. apply (Join_not_empty _ x); [left|].
    simpl in Hl. apply andb_true_iff in Hl as [Hx _].
    apply (valid_name_spec _ Hx). }
  destruct l1 as [|x1 r1], l2 as [|x2 r2]; [reflexivity| | |].
  - exfalso. apply (Hne _ _ _ H2 eq_refl). symmetry. exact E.
  - exfalso. apply (Hne _ _ _ H1 eq_refl). exact E.
  - apply (f_equal (fun p => strings.Split p "/")) in E.
    rewrite !Split_Join in E
      by (discriminate || apply valid_names_no_sep; assumption).
    exact E.
Qed.

Lemma path_of_dir_prefix (rooted : bool) (l rel : list string) :
  rel <> [] ->
  path_of rooted (l ++ rel) = dir_prefix rooted l ++ strings.Join rel "/".
Proof.
  intros Hne. unfold path_of, dir_prefix. rewrite append_assoc. f_equal.
  destruct l as [|x l]; [reflexivity|].
  rewrite Join_app by (assumption || discriminate).
  rewrite append_assoc. reflexivity.
Qed.

Lemma sort_by_ext_in {A} (key1 key2 : A -> string) (l : list A) :
  (forall x y, In x l -> In y l ->
               String.leb (key1 x) (key1 y) = String.leb (key2 x) (key2 y)) ->
  integrity.sort_by key1 l = integrity.sort_by key2 l.
Proof.
  unfold integrity.sort_by. induction l as [|x l IH]; intros H; [reflexivity|].
  simpl. rewrite IH by (intros; apply H; right; assumption).
  assert (Hs : forall y, In y (fold_right (integrity.insert_by key2) [] l) -> In y l).
  { intros y Hy. apply list_elem_of_In. apply list_elem_of_In in Hy.
    rewrite <- (sort_by_perm key2 l). exact Hy. }
  revert Hs. generalize (fold_right (integrity.insert_by key2) [] l).
  intros s Hs. induction s as [|y s IHs]; [reflexivity|]. simpl.
  rewrite H; [|left; reflexivity|right; apply Hs; left; reflexivity].
  rewrite IHs by (intros; apply Hs; right; assumption). reflexivity.
Qed.

Lemma filter_none {A} (P : A -> bool) (l : list A) :
  (forall x, In x l -> P x = false) -> List.filter P l = [].
Proof.
  induction l as [|x l IH]; intros H; [reflexivity|]. simpl.
  rewrite (H x) by (left; reflexivity). apply IH. intros; apply H; right; assumption.
Qed.

(** The bytes written to the hash for files placed under the root. *)
Lemma hash_input_located (root : string) (ys : list (list string * string)) :
  (forall f, In f ys -> forallb valid_name (fst f) = true /\ fst f <> []) ->
  integrity.hash_input root
    (List.map (fun f => (path_of (strings.HasPrefix root "/") (root_elems root ++ fst f),
                         File (snd f))) ys)
  = Ok (feed (List.map (fun f => (strings.Join (fst f) "/", snd f)) ys)).
Proof.
  induction ys as [|f ys IH]; intros H; [reflexivity|].
  destruct (H f) as [Hv Hne]; [left; reflexivity|].
  cbn [List.map integrity.hash_input fst snd].
  rewrite (Rel_descendant _ _ Hv Hne), IH by (intros; apply H; right; assumption).
  reflexivity.
Qed.

Lemma NoDup_fst_functional {A B} (l : list (A * B)) (a : A) (x y : B) :
  NoDup (List.map fst l) -> In (a, x) l -> In (a, y) l -> x = y.
Proof.
  induction l as [|[a' z] l IH]; intros Hnd Hx Hy; [destruct Hx|].
  simpl in Hnd. apply NoDup_cons in Hnd as [Hfresh Hnd].
  assert (Hin : forall v, In (a', v) l -> False).
  { intros v Hv. apply Hfresh. apply list_elem_of_In.
    apply (in_map fst) in Hv. exact Hv. }
  destruct Hx as [Hx|Hx], Hy as [Hy|Hy].
  - congruence.
  - injection Hx as -> _. exfalso. exact (Hin _ Hy).
  - injection Hy as -> _. exfalso. exact (Hin _ Hx).
  - apply IH; assumption.
Qed.

Section digest.
Context (root : string) (es : list (string * Node)).
Hypothesis Hwf : wf_tree (Dir es) = true.

Local Abbreviation rooted := (strings.HasPrefix root "/").
Local Abbreviation st := (root_elems root).

Lemma file_elems (f : list string * string) :
  In f (files (Dir es)) -> forallb valid_name (fst f) = true /\ fst f <> [].
Proof.
  intros Hf. split; [apply (files_valid _ Hwf _ Hf)|apply (files_Dir_not_nil _ _ Hf)].
Qed.

Lemma files_functional (f g : list string * string) :
  In f (files (Dir es)) -> In g (files (Dir es)) -> fst f = fst g -> f = g.
Proof.
  intros Hf Hg E. destruct f as [a x], g as [b y]. simpl in E. subst b. f_equal.
  exact (NoDup_fst_functional _ _ _ _ (files_NoDup _ Hwf) Hf Hg).
Qed.

Lemma located_key_inj (x y : string * Node) :
  In x (located rooted st (files (Dir es))) ->
  In y (located rooted st (files (Dir es))) ->
  fst x = fst y -> x = y.
Proof.
  unfold located. intros Hx Hy E.
  apply in_map_iff in Hx as (f & <- & Hf). apply in_map_iff in Hy as (g & <- & Hg).
  apply filter_In in Hf as [Hf _]. apply filter_In in Hg as [Hg _].
  destruct (file_elems _ Hf) as [Hvf Hnf]. destruct (file_elems _ Hg) as [Hvg Hng].
  simpl in E. apply path_of_inj in E.
  - apply app_inv_head in E. rewrite (files_functional f g Hf Hg E). reflexivity.
  - apply cleaned_app; [apply root_cleaned|exact Hvf].
  - destruct st; [exact Hnf|discriminate].
  - apply cleaned_app; [apply root_cleaned|exact Hvg].
  - destruct st; [exact Hng|discriminate].
Qed.

(** What the code computes: under a root path with an element ".git" every
    file is skipped and the digest is that of no input; under any other root
    the digest is the one of the specification. *)
Lemma checksum_of_tree :
  integrity.CalculateDirectoryChecksum root (Dir es)
  = Ok (if root_in_git root then sha256.hexsum "" else tree_digest (Dir es)).
Proof.
  unfold integrity.CalculateDirectoryChecksum.
  assert (Hsort : integrity.sort_by fst
                    (List.filter integrity.selected (integrity.Walk root (Dir es)))
                  = integrity.sort_by fst (located rooted st (files (Dir es)))).
  { symmetry. apply sort_by_Permutation.
    - symmetry. apply Walk_root, Hwf.
    - intros x y Hx Hy. apply located_key_inj; apply list_elem_of_In; assumption. }
  rewrite Hsort. unfold root_in_git. destruct (integrity.contains st ".git") eqn:Hgit.
  - unfold located. rewrite filter_none; [reflexivity|].
    intros f _. rewrite contains_app, Hgit. reflexivity.
  - assert (Hloc : located rooted st (files (Dir es))
                   = List.map (fun f => (path_of rooted (st ++ fst f), File (snd f)))
                       (List.filter outside_git (files (Dir es)))).
    { unfold located. f_equal. apply filter_ext. intros f.
      unfold outside_git. rewrite contains_app, Hgit. reflexivity. }
    rewrite Hloc. clear Hloc Hsort.
    rewrite (sort_by_map fst). cbn [fst].
    assert (Hin : forall f, In f (List.filter outside_git (files (Dir es))) ->
                            forallb valid_name (fst f) = true /\ fst f <> []).
    { intros f Hf. apply filter_In in Hf as [Hf _]. apply file_elems, Hf. }
    rewrite (sort_by_ext_in _ (fun f => strings.Join (fst f) "/")).
    2:{ intros x y Hx Hy. destruct (Hin x Hx) as [_ Nx]. destruct (Hin y Hy) as [_ Ny].
        rewrite !path_of_dir_prefix by assumption. apply string_leb_prefix. }
    rewrite hash_input_located.
    2:{ intros f Hf. apply Hin. apply list_elem_of_In. apply list_elem_of_In in Hf.
        rewrite <- (sort_by_perm (fun f => strings.Join (fst f) "/")). exact Hf. }
    unfold tree_digest, visible_files.
    rewrite (sort_by_map fst). reflexivity.
Qed.

End digest.

(** *** The digest of the specification *)

Lemma visible_key_inj (t : Node) (x y : string * string) :
  wf_tree t = true ->
  In x (visible_files t) -> In y (visible_files t) -> fst x = fst y -> x = y.
Proof.
  unfold visible_files. intros Hwf Hx Hy E.
  apply in_map_iff in Hx as ([a u] & <- & Hf). apply in_map_iff in Hy as ([b v] & <- & Hg).
  apply filter_In in Hf as [Hf _]. apply filter_In in Hg as [Hg _].
  simpl in E. apply Join_inj in E.
  - subst b. simpl.
    rewrite (NoDup_fst_functional _ _ _ _ (files_NoDup _ Hwf) Hf Hg). reflexivity.
  - apply (files_valid _ Hwf _ Hf).
  - apply (files_valid _ Hwf _ Hg).
Qed.

(** The digest depends on the set of visible files only. *)
Lemma tree_digest_Permutation (t1 t2 : Node) :
  wf_tree t1 = true ->
  visible_files t1 ≡ₚ visible_files t2 ->
  tree_digest t1 = tree_digest t2.
Proof.
  intros Hwf Hperm. unfold tree_digest. f_equal. f_equal.
  apply sort_by_Permutation; [exact Hperm|].
  intros x y Hx Hy. apply (visible_key_inj t1); [exact Hwf| |];
    apply list_elem_of_In; assumption.
Qed.

(** An entry named ".git" hides everything below it. *)
Lemma outside_git_cons (name : string) (fs : list (list string * string)) :
  List.filter outside_git (List.map (fun f => (name :: fst f, snd f)) fs)
  = if String.eqb name ".git" then []
    else List.map (fun f => (name :: fst f, snd f)) (List.filter outside_git fs).
Proof.
  destruct (String.eqb name ".git") eqn:E.
  - apply filter_none. intros f Hf. apply in_map_iff in Hf as (g & <- & _).
    unfold outside_git. cbn [fst integrity.contains]. rewrite E. reflexivity.
  - induction fs as [|f fs IH]; [reflexivity|].
    cbn [List.map List.filter]. rewrite IH.
    assert (Hf : outside_git (name :: fst f, snd f) = outside_git f).
    { unfold outside_git. cbn [fst integrity.contains]. rewrite E. reflexivity. }
    rewrite Hf. destruct (outside_git f); reflexivity.
Qed.

Lemma visible_files_Dir (es : list (string * Node)) :
  List.filter outside_git (files (Dir es))
  = flat_map (fun e => if String.eqb (fst e) ".git" then []
                       else List.map (fun f => (fst e :: fst f, snd f))
                              (List.filter outside_git (files (snd e)))) es.
Proof.
  rewrite files_Dir, filter_flat_map. apply flat_map_ext. intros e.
  apply outside_git_cons.
Qed.

Lemma git_injected_files (t t' : Node) :
  git_injected t t' ->
  List.filter outside_git (files t) = List.filter outside_git (files t').
Proof.
  induction 1 as [es1 es2 g|es1 es2 name t t' _ IH];
    rewrite !visible_files_Dir, !flat_map_app; f_equal; cbn [flat_map fst snd];
    try rewrite IH; reflexivity.
Qed.

(** Under root paths without an element ".git",
    the checksum of a tree is the digest of the specification, so two trees
    with the same visible (relative path, content) pairs, in any order of
    enumeration, have the same checksum, and so has a tree with an entry
    ".git" injected at any depth. *)
Lemma checksum_depends_on_visible_files (root1 root2 : string)
    (es1 es2 : list (string * Node)) :
  wf_tree (Dir es1) = true -> wf_tree (Dir es2) = true ->
  root_in_git root1 = false -> root_in_git root2 = false ->
  visible_files (Dir es1) ≡ₚ visible_files (Dir es2) ->
  integrity.CalculateDirectoryChecksum root1 (Dir es1) = Ok (tree_digest (Dir es1))
  /\ integrity.CalculateDirectoryChecksum root2 (Dir es2)
     = integrity.CalculateDirectoryChecksum root1 (Dir es1).
Proof.
  intros Hwf1 Hwf2 Hg1 Hg2 Hperm.
  rewrite (checksum_of_tree root1 es1 Hwf1), (checksum_of_tree root2 es2 Hwf2), Hg1, Hg2.
  split; [reflexivity|]. f_equal. symmetry.
  apply tree_digest_Permutation; assumption.
Qed.

Lemma checksum_ignores_injected_git (root : string) (es es' : list (string * Node)) :
  wf_tree (Dir es) = true -> wf_tree (Dir es') = true ->
  git_injected (Dir es) (Dir es') ->
  integrity.CalculateDirectoryChecksum root (Dir es')
  = integrity.CalculateDirectoryChecksum root (Dir es).
Proof.
  intros Hwf Hwf' Hinj.
  rewrite (checksum_of_tree root es Hwf), (checksum_of_tree root es' Hwf').
  unfold tree_digest, visible_files. rewrite (git_injected_files _ _ Hinj). reflexivity.
Qed.

(** Under a root path with an element ".git" nothing is hashed. *)
Lemma checksum_under_git_root (root : string) (es : list (string * Node)) :
  wf_tree (Dir es) = true -> root_in_git root = true ->
  integrity.CalculateDirectoryChecksum root (Dir es) = Ok (sha256.hexsum "").
Proof. intros Hwf Hg. rewrite (checksum_of_tree root es Hwf), Hg. reflexivity. Qed.

(** C7 at the failing input: the same tree, with the one file "a", under the
    root /srv/pkg and under the root /srv/.git/pkg.  The relative paths and
    contents agree, the checksums differ: under /srv/.git/pkg every file is
    skipped because the callback looks for ".git" in the whole path, and the
    checksum is the digest of no input, whatever the tree holds. *)
Theorem checksum_differs_under_git_root :
  let tree := Dir [("a", File "x")] in
  wf_tree tree = true
  /\ visible_files tree = [("a", "x")]
  /\ integrity.CalculateDirectoryChecksum "/srv/pkg" tree
     = Ok "09ac5f154ec6c43e843145c150abe0eb90cd5e10436c81ed32678f8faa58ad29"
  /\ integrity.CalculateDirectoryChecksum "/srv/.git/pkg" tree
     = Ok "e3b0c44298fc1c149afbf4c8996fb92427ae41e4649b934ca495991b7852b855"
  /\ integrity.CalculateDirectoryChecksum "/srv/.git/pkg" (Dir [("b", File "y")])
     = Ok "e3b0c44298fc1c149afbf4c8996fb92427ae41e4649b934ca495991b7852b855".
Proof. vm_compute. repeat split. Qed.

(** * Further properties of the code *)

(** ** Package [semver]: the order of versions *)

Section version_order.
Import semver.
Local Open Scope Z_scope.

Lemma string_ltb_leb (p q : string) : p <> q -> String.ltb p q = String.leb p q.
Proof.
  intros Hne. unfold String.ltb, String.leb.
  destruct (String.compare p q) eqn:E; try reflexivity.
  apply String.compare_eq_iff in E. contradiction.
Qed.

Lemma string_leb_total (p q : string) : String.leb p q = true \/ String.leb q p = true.
Proof.
  unfold String.leb. rewrite (String.compare_antisym p q).
  destruct (String.compare q p); cbn; auto.
Qed.

Lemma string_leb_antisym (p q : string) :
  String.leb p q = true -> String.leb q p = true -> p = q.
Proof.
  unfold String.leb. rewrite (String.compare_antisym p q).
  destruct (String.compare q p) eqn:E; cbn; try discriminate.
  intros _ _. symmetry. apply String.compare_eq_iff. exact E.
Qed.

Ltac compare_tests :=
  repeat match goal with
    | |- context [Z.eqb ?a ?b] => destruct (Z.eqb_spec a b); cbn [negb andb]; try lia
    | |- context [Z.ltb ?a ?b] => destruct (Z.ltb_spec a b); try lia
    | |- context [String.eqb ?a ?b] =>
        destruct (String.eqb_spec a b); cbn [negb andb]; try congruence
    end.

(** [Compare] decides the precedence. *)
Lemma Compare_le_iff (a b : Version) : Compare a b <= 0 <-> version_le a b.
Proof.
  unfold Compare, version_le, pre_le. compare_tests.
  all: try solve [split; intros H; first [lia | tauto | intuition (lia || congruence)]].
  - split; [intros _|lia]. right. split; [assumption|]. right. split; [assumption|].
    right. split; [assumption|]. right. split; [assumption|].
    rewrite e2. unfold String.leb. rewrite string_compare_refl. reflexivity.
  - rewrite (string_ltb_leb _ _ n1).
    destruct (String.leb (Prerelease a) (Prerelease b)) eqn:E.
    + split; [intros _|lia]. tauto.
    + split; [lia|]. intros H. exfalso. intuition (lia || congruence).
Qed.

Lemma pre_le_trans (p q r : string) : pre_le p q -> pre_le q r -> pre_le p r.
Proof.
  unfold pre_le. intros [->|[Hp Hpq]] [->|[Hq Hqr]]; auto; try congruence.
  right. split; [assumption|]. exact (string_leb_trans _ _ _ Hpq Hqr).
Qed.

Lemma version_le_trans (a b c : Version) :
  version_le a b -> version_le b c -> version_le a c.
Proof.
  unfold version_le. intros Hab Hbc.
  destruct Hab as [?|[? [?|[? [?|[? HP]]]]]], Hbc as [?|[? [?|[? [?|[? HQ]]]]]];
    try lia.
  right. split; [lia|]. right. split; [lia|]. right. split; [lia|].
  eapply pre_le_trans; eassumption.
Qed.

Lemma pre_le_total (p q : string) : pre_le p q \/ pre_le q p.
Proof.
  unfold pre_le. destruct (String.eqb_spec p ""), (String.eqb_spec q ""); auto.
  destruct (string_leb_total p q); auto.
Qed.

Lemma version_le_total (a b : Version) : version_le a b \/ version_le b a.
Proof.
  unfold version_le.
  destruct (pre_le_total (Prerelease a) (Prerelease b));
    destruct (Z.lt_total (Major a) (Major b)) as [?|[?|?]];
    destruct (Z.lt_total (Minor a) (Minor b)) as [?|[?|?]];
    destruct (Z.lt_total (Patch a) (Patch b)) as [?|[?|?]];
    first [ left; lia | right; lia
          | left; right; split; [lia|]; right; split; [lia|]; right; split; [lia|];
            assumption
          | right; right; split; [lia|]; right; split; [lia|]; right; split; [lia|];
            assumption
          | left; right; split; [lia|]; right; split; [lia|]; left; lia
          | right; right; split; [lia|]; right; split; [lia|]; left; lia
          | left; right; split; [lia|]; left; lia
          | right; right; split; [lia|]; left; lia ].
Qed.

Lemma pre_le_antisym (p q : string) : pre_le p q -> pre_le q p -> p = q.
Proof.
  unfold pre_le. intros [->|[Hp Hpq]] [->|[Hq Hqp]]; try reflexivity; try contradiction.
  apply string_leb_antisym; assumption.
Qed.

Lemma Compare_values (a b : Version) :
  Compare a b = -1 \/ Compare a b = 0 \/ Compare a b = 1.
Proof.
  unfold Compare.
  repeat match goal with
    | |- context [if ?c then _ else _] => destruct c
    end; auto.
Qed.

Lemma string_ltb_flip (p q : string) : p <> q -> String.ltb q p = negb (String.ltb p q).
Proof.
  intros Hne. unfold String.ltb. rewrite (String.compare_antisym q p).
  destruct (String.compare p q) eqn:E; try reflexivity.
  apply String.compare_eq_iff in E. contradiction.
Qed.

(** X1: [Compare] is antisymmetric: exchanging the two versions negates the
    result. *)
Theorem Compare_antisymmetric (a b : Version) : Compare b a = - Compare a b.
Proof.
  unfold Compare. compare_tests; try reflexivity.
  rewrite (string_ltb_flip (Prerelease a) (Prerelease b)) by congruence.
  destruct (String.ltb (Prerelease a) (Prerelease b)); reflexivity.
Qed.

(** X2: [Compare] gives 0 exactly for two versions with the same numbers and
    the same prerelease text; the build text plays no part. *)
Theorem Compare_zero_iff (a b : Version) : Compare a b = 0 <-> same_precedence a b.
Proof.
  unfold Compare, same_precedence. compare_tests.
  all: try solve [split; [intros H; first [lia | discriminate H | auto]
                         | intros (? & ? & ? & ?);
                           first [lia | congruence | reflexivity]]].
  destruct (String.ltb (Prerelease a) (Prerelease b));
      (split; [intros H; discriminate H|intros (_ & _ & _ & ?); contradiction]).
Qed.

(** X3: [Compare] is transitive: a version that is not above a second one,
    which is not above a third, is not above the third. *)
Theorem Compare_transitive (a b c : Version) :
  Compare a b <= 0 -> Compare b c <= 0 -> Compare a c <= 0.
Proof.
  intros Hab Hbc. apply Compare_le_iff.
  apply Compare_le_iff in Hab. apply Compare_le_iff in Hbc.
  exact (version_le_trans a b c Hab Hbc).
Qed.

(** 1.2.3-alpha, 1.2.3 and 1.10.0 are in this order. *)
Lemma Compare_transitive_witness :
  Compare (mkVersion 1 2 3 "alpha" "") (mkVersion 1 10 0 "" "b7") <= 0.
Proof.
  apply (Compare_transitive (mkVersion 1 2 3 "alpha" "") (mkVersion 1 2 3 "" "")
           (mkVersion 1 10 0 "" "b7")); vm_compute; discriminate.
Defined.

(** The loop of [FindBestMatch] ends on one of the candidates, which none of
    them is above. *)
Lemma best_candidate (rest : list Version) (first : Version) :
  let best := fold_left (fun best candidate =>
                           if 0 <? Compare candidate best then candidate else best)
                        rest first in
  In best (first :: rest)
  /\ forall v, In v (first :: rest) -> Compare v best <= 0.
Proof.
  revert first. induction rest as [|x rest IH]; intros first; cbn [fold_left].
  - split; [left; reflexivity|]. intros v [<-|[]].
    apply Compare_le_iff. destruct (version_le_total first first); assumption.
  - destruct (IH (if 0 <? Compare x first then x else first)) as [Hin Hmax].
    split.
    + destruct Hin as [Hin|Hin]; [|right; right; exact Hin].
      rewrite <- Hin. destruct (0 <? Compare x first); [right; left|left]; reflexivity.
    + intros v Hv.
      assert (Hstep : Compare v (if 0 <? Compare x first then x else first) <= 0
                      \/ In v rest).
      { destruct Hv as [<-|[<-|Hv']]; [| |right; exact Hv']; left.
        - destruct (Z.ltb_spec 0 (Compare x first)) as [Hlt|Hle].
          + apply Compare_le_iff. destruct (version_le_total first x) as [H|H]; [exact H|].
            apply Compare_le_iff in H. lia.
          + apply Compare_le_iff. destruct (version_le_total first first); assumption.
        - destruct (Z.ltb_spec 0 (Compare x first)) as [Hlt|Hle]; [|exact Hle].
          apply Compare_le_iff. destruct (version_le_total x x); assumption. }
      destruct Hstep as [Hle|Hv']; [|apply Hmax; right; exact Hv'].
      apply Compare_le_iff. apply Compare_le_iff in Hle.
      eapply version_le_trans; [exact Hle|]. apply Compare_le_iff. apply Hmax. left.
      reflexivity.
Qed.

(** X6: the version that [FindBestMatch] returns is one of the list, it
    satisfies the constraint, and no version of the list that satisfies the
    constraint is above it. *)
Theorem FindBestMatch_is_greatest (c : Constraint) (versions : list Version)
    (best : Version) :
  FindBestMatch c versions = Ok best ->
  In best versions /\ Satisfies c best = true
  /\ forall v, In v versions -> Satisfies c v = true -> Compare v best <= 0.
Proof.
  unfold FindBestMatch.
  destruct (List.filter (Satisfies c) versions) as [|first rest] eqn:Hcand;
    [discriminate|].
  intros [= <-].
  destruct (best_candidate rest first) as [Hin Hmax].
  rewrite <- Hcand in Hin, Hmax.
  apply List.filter_In in Hin as [Hin Hsat].
  split; [exact Hin|]. split; [exact Hsat|].
  intros v Hv Hs. apply Hmax. apply List.filter_In. split; assumption.
Qed.

(** Of 1.0.0, 1.5.0 and 2.0.0 the constraint ^1.0.0 selects 1.5.0. *)
Lemma FindBestMatch_is_greatest_witness :
  let c := mkConstraint "^" (mkVersion 1 0 0 "" "") in
  let versions := [mkVersion 1 0 0 "" ""; mkVersion 1 5 0 "" ""; mkVersion 2 0 0 "" ""] in
  In (mkVersion 1 5 0 "" "") versions /\ Satisfies c (mkVersion 1 5 0 "" "") = true
  /\ forall v, In v versions -> Satisfies c v = true ->
               Compare v (mkVersion 1 5 0 "" "") <= 0.
Proof.
  intros c versions.
  apply (FindBestMatch_is_greatest c versions (mkVersion 1 5 0 "" "")).
  vm_compute. reflexivity.
Defined.

(** X7: [FindBestMatch] fails exactly when no version of the list satisfies
    the constraint, and the error then names the constraint. *)
Theorem FindBestMatch_fails_iff (c : Constraint) (versions : list Version) :
  (forall v, In v versions -> Satisfies c v = false)
  <-> FindBestMatch c versions
      = Err ("no version satisfies constraint " ++ Operator c ++ String_ (CVersion c)).
Proof.
  unfold FindBestMatch.
  destruct (List.filter (Satisfies c) versions) as [|first rest] eqn:Hcand.
  - split; [reflexivity|]. intros _ v Hv.
    destruct (Satisfies c v) eqn:Hs; [|reflexivity].
    assert (Hin : In v (List.filter (Satisfies c) versions))
      by (apply List.filter_In; split; assumption).
    rewrite Hcand in Hin. destruct Hin.
  - split; [|discriminate]. intros Hnone.
    assert (Hin : In first (List.filter (Satisfies c) versions))
      by (rewrite Hcand; left; reflexivity).
    apply List.filter_In in Hin as [Hin Hs]. rewrite (Hnone first Hin) in Hs.
    discriminate.
Qed.

End version_order.

(** ** Package [semver]: printing and parsing *)

Section version_text.
Import semver.
Local Open Scope Z_scope.

Lemma span_app (p : ascii -> bool) (a b : string) :
  forallb p (list_ascii_of_string a) = true ->
  match b with String c _ => p c = false | EmptyString => True end ->
  span p (a ++ b) = (a, b).
Proof.
  intros Ha Hb. induction a as [|c a IH].
  - change ("" ++ b) with b. destruct b as [|c b]; [reflexivity|].
    cbn [span]. rewrite Hb. reflexivity.
  - cbn [list_ascii_of_string forallb] in Ha. apply andb_prop in Ha as [Hc Ha].
    change (String c a ++ b) with (String c (a ++ b)). cbn [span].
    rewrite Hc, (IH Ha). reflexivity.
Qed.

Lemma span_forallb (p : ascii -> bool) (s : string) :
  forallb p (list_ascii_of_string (fst (span p s))) = true.
Proof.
  induction s as [|c s IH]; [reflexivity|]. cbn [span].
  destruct (p c) eqn:Hc; [|reflexivity].
  destruct (span p s) as [a b]. cbn in *. rewrite Hc, IH. reflexivity.
Qed.

(** A property of the numbers below [k], checked on each of them. *)
Lemma bounded_check (k : nat) (P : N -> bool) :
  forallb P (List.map N.of_nat (seq 0 k)) = true ->
  forall n, (n < N.of_nat k)%N -> P n = true.
Proof.
  intros Hall n Hn. rewrite forallb_forall in Hall. apply Hall.
  apply in_map_iff. exists (N.to_nat n). split; [apply N2Nat.id|].
  apply in_seq. lia.
Qed.

Lemma pretty_N_char_digit (r : N) :
  (r < 10)%N ->
  isDigit (pretty_N_char r) = true
  /\ Z.of_N (N_of_ascii (pretty_N_char r)) - 48 = Z.of_N r.
Proof.
  intros Hr.
  pose proof (bounded_check 10
                (fun r => isDigit (pretty_N_char r)
                          && (Z.of_N (N_of_ascii (pretty_N_char r)) - 48 =? Z.of_N r))
                eq_refl r Hr) as H.
  apply andb_prop in H as [H1 H2]. split; [exact H1|]. apply Z.eqb_eq. exact H2.
Qed.

Lemma pretty_N_go_digits (x : N) (s : string) :
  forallb isDigit (list_ascii_of_string s) = true ->
  forallb isDigit (list_ascii_of_string (pretty_N_go x s)) = true
  /\ digits_value 0 (pretty_N_go x s) = digits_value (Z.of_N x) s
  /\ (pretty_N_go x s = "" -> s = "").
Proof.
  revert s. induction (N.lt_wf_0 x) as [x _ IH]. intros s Hs.
  destruct (N.eq_dec x 0%N) as [->|Hx].
  - rewrite pretty_N_go_0. auto.
  - rewrite pretty_N_go_step by lia.
    destruct (pretty_N_char_digit (x mod 10)) as [Hd Hv]; [apply N.mod_lt; lia|].
    destruct (IH (x / 10)%N) with (s := String (pretty_N_char (x mod 10)) s)
      as (H1 & H2 & H3).
    + apply N.div_lt; lia.
    + cbn [list_ascii_of_string forallb]. rewrite Hd, Hs. reflexivity.
    + split; [exact H1|]. split.
      * rewrite H2. unfold digits_value. cbn [list_ascii_of_string fold_left].
        f_equal. rewrite Hv. rewrite N2Z.inj_div, N2Z.inj_mod.
        change (Z.of_N 10) with 10. pose proof (Z.div_mod (Z.of_N x) 10). lia.
      * intros E. apply H3 in E. discriminate E.
Qed.

(** A number that is not negative prints as a non-empty run of digits with
    that value. *)
Lemma pretty_digits (n : Z) :
  0 <= n ->
  forallb isDigit (list_ascii_of_string (pretty n)) = true
  /\ digits_value 0 (pretty n) = n
  /\ pretty n <> "".
Proof.
  intros Hn. destruct n as [|p|p]; [repeat split; discriminate| |lia].
  change (pretty (Z.pos p)) with (pretty (N.pos p)).
  unfold pretty, pretty_N. destruct (decide (N.pos p = 0%N)) as [E|_]; [discriminate E|].
  destruct (pretty_N_go_digits (N.pos p) "" eq_refl) as (H1 & H2 & H3).
  split; [exact H1|]. split; [exact H2|].
  intros E. destruct (N.eq_dec (N.pos p) 0%N) as [?|Hp]; [discriminate|].
  rewrite pretty_N_go_step in E by lia.
  destruct (pretty_N_go_digits (N.pos p / 10) (String (pretty_N_char (N.pos p mod 10)) ""))
    as (_ & _ & H4).
  - cbn [list_ascii_of_string forallb].
    destruct (pretty_N_char_digit (N.pos p mod 10)) as [Hd _]; [apply N.mod_lt; lia|].
    rewrite Hd. reflexivity.
  - apply H4 in E. discriminate E.
Qed.

Lemma Atoi_pretty (n : Z) : 0 <= n <= maxInt -> Atoi (pretty n) = n.
Proof.
  intros Hn. unfold Atoi.
  destruct (pretty_digits n) as (_ & Hv & _); [lia|].
  unfold digits_value in Hv. rewrite Hv. lia.
Qed.

(** A printed number followed by a byte that is not a digit. *)
Lemma span_pretty (n : Z) (rest : string) :
  0 <= n ->
  match rest with String c _ => isDigit c = false | EmptyString => True end ->
  span isDigit (pretty n ++ rest) = (pretty n, rest).
Proof.
  intros Hn Hrest. apply span_app; [|exact Hrest].
  destruct (pretty_digits n Hn) as (H & _). exact H.
Qed.

Lemma number_then_pretty (n : Z) (sep : ascii) (rest : string) :
  0 <= n <= maxInt -> isDigit sep = false ->
  number_then sep (pretty n ++ String sep rest) = Some (n, rest).
Proof.
  intros Hn Hsep. unfold number_then.
  rewrite span_pretty by (cbn; lia || exact Hsep).
  destruct (pretty_digits n) as (_ & _ & Hne); [lia|].
  destruct (pretty n) eqn:E; [contradiction|].
  rewrite Ascii.eqb_refl, <- E, Atoi_pretty by lia. reflexivity.
Qed.

Lemma label_app (l rest : string) :
  l <> "" -> label_text l = true ->
  match rest with String c _ => isLabelChar c = false | EmptyString => True end ->
  label (l ++ rest) = Some (l, rest).
Proof.
  intros Hne Hl Hrest. unfold label. rewrite (span_app _ l rest Hl Hrest).
  destruct l; [contradiction|reflexivity].
Qed.

Lemma build_tail_print (b : string) :
  label_text b = true ->
  build_tail (if String.eqb b "" then "" else "+" ++ b) = Some b.
Proof.
  intros Hb. destruct (String.eqb_spec b "") as [->|Hne]; [reflexivity|].
  change ("+" ++ b) with (String "+" b). cbn [build_tail].
  rewrite <- (append_empty_r b) at 1. rewrite (label_app b "" Hne Hb I). reflexivity.
Qed.

(** The text of [Version.String] in one expression. *)
Lemma String_shape (v : Version) :
  String_ v
  = pretty (Major v) ++ String "." (pretty (Minor v) ++ String "." (pretty (Patch v)
      ++ ((if String.eqb (Prerelease v) "" then "" else String "-" (Prerelease v))
          ++ (if String.eqb (Build v) "" then "" else String "+" (Build v))))).
Proof.
  unfold String_.
  destruct (String.eqb (Prerelease v) ""), (String.eqb (Build v) "");
    rewrite ?append_assoc, ?append_empty_r;
    repeat (change (String ?c ?x ++ ?y) with (String c (x ++ y)) || rewrite append_assoc);
    rewrite ?append_empty_r; reflexivity.
Qed.

(** X4: a well-formed version that is printed by [String] and parsed by
    [ParseVersion] comes back unchanged. *)
Theorem ParseVersion_String (v : Version) :
  well_formed v -> ParseVersion (String_ v) = Ok v.
Proof.
  intros (HM & Hm & Hp & Hpre & Hbuild). rewrite String_shape.
  unfold ParseVersion.
  destruct (pretty_digits (Major v)) as (HdM & _ & HneM); [lia|].
  cbv zeta.
  match goal with
  | |- context [number_then "." ?t] =>
      assert (Hv : t = pretty (Major v) ++ String "." (pretty (Minor v) ++ String "."
                       (pretty (Patch v)
                        ++ ((if String.eqb (Prerelease v) "" then ""
                             else String "-" (Prerelease v))
                            ++ (if String.eqb (Build v) "" then ""
                                else String "+" (Build v))))))
  end.
  { destruct (pretty (Major v)) as [|c s]; [contradiction|].
    cbn [list_ascii_of_string forallb] in HdM. apply andb_prop in HdM as [Hc _].
    change (String c s ++ ?x) with (String c (s ++ x)).
    destruct c as [[] [] [] [] [] [] [] []]; try reflexivity; discriminate Hc. }
  rewrite Hv. clear Hv.
  rewrite number_then_pretty by (lia || reflexivity).
  rewrite number_then_pretty by (lia || reflexivity).
  rewrite span_pretty.
  2: lia.
  2:{ destruct (String.eqb (Prerelease v) ""), (String.eqb (Build v) ""); reflexivity. }
  destruct (pretty_digits (Patch v)) as (_ & _ & Hnep); [lia|].
  destruct (pretty (Patch v)) as [|c s] eqn:Ep; [contradiction|]. rewrite <- Ep.
  rewrite Atoi_pretty by lia.
  destruct (String.eqb_spec (Prerelease v) "") as [Epre|Npre].
  - change ("" ++ ?x) with x.
    assert (Hb := build_tail_print (Build v) Hbuild).
    change ("+" ++ Build v) with (String "+" (Build v)) in Hb.
    destruct (String.eqb (Build v) "") eqn:Eb.
    + rewrite Hb. destruct v; cbn in *. subst. apply String.eqb_eq in Eb. subst.
      reflexivity.
    + rewrite Hb. destruct v; cbn in *. subst. reflexivity.
  - change (String "-" (Prerelease v) ++ ?x) with (String "-" (Prerelease v ++ x)).
    cbn match.
    rewrite (label_app (Prerelease v)) by
      (first [exact Npre | exact Hpre | destruct (String.eqb (Build v) ""); reflexivity]).
    assert (Hb := build_tail_print (Build v) Hbuild).
    change ("+" ++ Build v) with (String "+" (Build v)) in Hb.
    rewrite Hb. destruct v; reflexivity.
Qed.

(** 1.2.3-rc.1+b5 *)
Lemma ParseVersion_String_witness :
  ParseVersion (String_ (mkVersion 1 2 3 "rc.1" "b5")) = Ok (mkVersion 1 2 3 "rc.1" "b5").
Proof.
  apply (ParseVersion_String (mkVersion 1 2 3 "rc.1" "b5")).
  repeat split; vm_compute; discriminate.
Defined.

Lemma span_split (p : ascii -> bool) (s a b : string) :
  span p s = (a, b) ->
  s = a ++ b /\ forallb p (list_ascii_of_string a) = true
  /\ match b with String c _ => p c = false | EmptyString => True end.
Proof.
  revert a b. induction s as [|c s IH]; intros a b; cbn [span].
  - intros [= <- <-]. repeat split.
  - destruct (p c) eqn:Hc.
    + destruct (span p s) as [a' b']. intros [= <- <-].
      destruct (IH a' b' eq_refl) as (-> & Ha & Hb).
      repeat split; [|exact Hb]. cbn. rewrite Hc, Ha. reflexivity.
    + intros [= <- <-]. repeat split. exact Hc.
Qed.

Lemma Atoi_range (ds : string) :
  forallb isDigit (list_ascii_of_string ds) = true -> 0 <= Atoi ds <= maxInt.
Proof.
  intros Hds. unfold Atoi.
  assert (H : forall l acc, forallb isDigit l = true -> 0 <= acc ->
            0 <= fold_left (fun acc c => 10 * acc + (Z.of_N (N_of_ascii c) - 48)) l acc).
  { induction l as [|c l IH]; intros acc Hl Hacc; [exact Hacc|].
    cbn [forallb] in Hl. apply andb_prop in Hl as [Hc Hl]. cbn [fold_left].
    apply IH; [exact Hl|]. unfold isDigit in Hc.
    apply andb_prop in Hc as [Hc _]. apply N.leb_le in Hc. lia. }
  specialize (H _ 0 Hds ltac:(lia)). unfold maxInt. lia.
Qed.

Lemma number_then_range (sep : ascii) (s rest : string) (n : Z) :
  number_then sep s = Some (n, rest) -> 0 <= n <= maxInt.
Proof.
  unfold number_then. destruct (span isDigit s) as [ds r] eqn:E.
  apply span_split in E as (_ & Hds & _).
  destruct ds as [|d ds]; [discriminate|]. destruct r as [|c r]; [discriminate|].
  destruct (Ascii.eqb c sep); [|discriminate]. intros [= <- _].
  apply Atoi_range. exact Hds.
Qed.

Lemma label_text_of (s l rest : string) :
  label s = Some (l, rest) -> label_text l = true /\ s = l ++ rest /\ l <> "".
Proof.
  unfold label. destruct (span isLabelChar s) as [a b] eqn:E.
  apply span_split in E as (-> & Ha & _).
  destruct a; [discriminate|]. intros [= <- <-].
  split; [exact Ha|]. split; [reflexivity|discriminate].
Qed.

Lemma build_tail_text (s b : string) :
  build_tail s = Some b ->
  label_text b = true /\ s = (if String.eqb b "" then "" else String "+" b).
Proof.
  unfold build_tail. destruct s as [|c s]; [intros [= <-]; split; reflexivity|].
  destruct (Ascii.eqb_spec c "+") as [->|Hc].
  - destruct (label s) as [[l r]|] eqn:E; [|discriminate].
    destruct r; [|discriminate]. intros [= <-].
    apply label_text_of in E as (Hl & -> & Hne). split; [exact Hl|].
    rewrite append_empty_r.
    destruct (String.eqb_spec l "") as [->|_]; [contradiction|reflexivity].
  - destruct c as [[] [] [] [] [] [] [] []]; try discriminate. contradiction.
Qed.

(** X5: every version that [ParseVersion] returns is well formed: its
    numbers are between 0 and the largest [int] (a longer run of digits is
    clamped there), its prerelease and build are label bytes. *)
Theorem ParseVersion_well_formed (text : string) (v : Version) :
  ParseVersion text = Ok v -> well_formed v.
Proof.
  unfold ParseVersion, well_formed. cbv zeta.
  match goal with |- context [number_then "." ?t] => generalize t end.
  intros s0.
  destruct (number_then "." s0) as [[major s1]|] eqn:E1; [|discriminate].
  destruct (number_then "." s1) as [[minor s2]|] eqn:E2; [|discriminate].
  destruct (span isDigit s2) as [ds rest] eqn:E3.
  apply number_then_range in E1. apply number_then_range in E2.
  apply span_split in E3 as (_ & Hds & _).
  destruct ds as [|d ds]; [discriminate|].
  pose proof (Atoi_range _ Hds) as Hpatch.
  assert (Hplain : forall b, build_tail rest = Some b ->
            well_formed (mkVersion major minor (Atoi (String d ds)) "" b)).
  { intros b Hb. apply build_tail_text in Hb as [Hb _].
    unfold well_formed. cbn. auto. }
  destruct rest as [|c r].
  - destruct (build_tail "") as [b|] eqn:Eb; [|discriminate].
    intros [= <-]. exact (Hplain b eq_refl).
  - destruct (Ascii.eqb_spec c "-") as [->|Hc].
    + destruct (label r) as [[pre r']|] eqn:El; [|discriminate].
      destruct (build_tail r') as [b|] eqn:Eb; [|discriminate].
      intros [= <-]. apply label_text_of in El as (Hpre & _ & _).
      apply build_tail_text in Eb as [Hb _]. cbn. auto.
    + destruct (build_tail (String c r)) as [b|] eqn:Eb.
      * intros H. specialize (Hplain b eq_refl).
        destruct c as [[] [] [] [] [] [] [] []]; try (injection H as <-; exact Hplain).
        contradiction.
      * intros H. exfalso.
        destruct c as [[] [] [] [] [] [] [] []]; try discriminate H. contradiction.
Qed.

(** The clamp: 99999999999999999999.0.0 *)
Lemma ParseVersion_well_formed_witness :
  well_formed (mkVersion maxInt 0 0 "" "").
Proof.
  apply (ParseVersion_well_formed "99999999999999999999.0.0"). vm_compute. reflexivity.
Defined.

End version_text.

(** ** Package [semver]: constraints *)

Section constraint_text.
Import semver.
Local Open Scope Z_scope.

Lemma chars_app (a b : string) :
  list_ascii_of_string (a ++ b) = (list_ascii_of_string a ++ list_ascii_of_string b)%list.
Proof.
  induction a as [|c a IH]; [reflexivity|].
  change (String c a ++ b) with (String c (a ++ b)). cbn. rewrite IH. reflexivity.
Qed.

Lemma string_of_chars_app (l1 l2 : list ascii) :
  string_of_list_ascii (l1 ++ l2)%list
  = string_of_list_ascii l1 ++ string_of_list_ascii l2.
Proof.
  induction l1 as [|c l1 IH]; [reflexivity|]. cbn [app string_of_list_ascii].
  rewrite IH. reflexivity.
Qed.

Lemma no_space_app (a b : string) : no_space (a ++ b) = no_space a && no_space b.
Proof. unfold no_space. rewrite chars_app. apply forallb_app. Qed.

Lemma no_space_cons (c : ascii) (s : string) :
  no_space (String c s) = negb (strings.isSpace c) && no_space s.
Proof. reflexivity. Qed.

Lemma forallb_weaken {A} (p q : A -> bool) (l : list A) :
  (forall x, p x = true -> q x = true) -> forallb p l = true -> forallb q l = true.
Proof.
  intros Hpq. induction l as [|x l IH]; [reflexivity|]. cbn.
  intros H. apply andb_prop in H as [Hx Hl]. rewrite (Hpq x Hx), (IH Hl). reflexivity.
Qed.

Lemma label_char_no_space (c : ascii) :
  isLabelChar c = true -> negb (strings.isSpace c) = true.
Proof. destruct c as [[] [] [] [] [] [] [] []]; vm_compute; congruence. Qed.

Lemma digit_label_char (c : ascii) : isDigit c = true -> isLabelChar c = true.
Proof. destruct c as [[] [] [] [] [] [] [] []]; vm_compute; congruence. Qed.

Lemma label_text_no_space (s : string) : label_text s = true -> no_space s = true.
Proof. apply forallb_weaken. exact label_char_no_space. Qed.

Lemma digits_no_space (s : string) :
  forallb isDigit (list_ascii_of_string s) = true -> no_space s = true.
Proof.
  apply forallb_weaken. intros c Hc. apply label_char_no_space, digit_label_char, Hc.
Qed.

Lemma number_then_text (sep : ascii) (s rest : string) (n : Z) :
  number_then sep s = Some (n, rest) ->
  exists d ds, s = String d ds ++ String sep rest
               /\ forallb isDigit (list_ascii_of_string (String d ds)) = true.
Proof.
  unfold number_then. destruct (span isDigit s) as [ds r] eqn:E.
  apply span_split in E as (-> & Hds & _).
  destruct ds as [|d ds]; [discriminate|]. destruct r as [|c r]; [discriminate|].
  destruct (Ascii.eqb_spec c sep) as [->|]; [|discriminate]. intros [= _ <-].
  exists d, ds. split; [reflexivity|exact Hds].
Qed.

(** A text that [ParseVersion] accepts starts with a digit or with "v",
    and holds no white space. *)
Lemma ParseVersion_text (text : string) (v : Version) :
  ParseVersion text = Ok v ->
  exists c t, text = String c t /\ (isDigit c || Ascii.eqb c "v") = true
              /\ no_space text = true.
Proof.
  unfold ParseVersion. cbv zeta.
  match goal with |- context [number_then "." ?t] => set (s0 := t) end.
  destruct (number_then "." s0) as [[major s1]|] eqn:E1; [|discriminate].
  destruct (number_then "." s1) as [[minor s2]|] eqn:E2; [|discriminate].
  destruct (span isDigit s2) as [ds rest] eqn:E3.
  apply number_then_text in E1 as (d1 & ds1 & Es0 & Hd1).
  apply number_then_text in E2 as (d2 & ds2 & -> & Hd2).
  apply span_split in E3 as (-> & Hds & _).
  destruct ds as [|d ds]; [discriminate|].
  intros Hrest.
  assert (Hr : no_space rest = true).
  { assert (Hbt : forall b, build_tail rest = Some b -> no_space rest = true).
    { intros b Hb. apply build_tail_text in Hb as [Hb ->].
      destruct (String.eqb b ""); [reflexivity|].
      change (String "+" b) with ("+" ++ b). rewrite no_space_app.
      rewrite (label_text_no_space b Hb). reflexivity. }
    destruct rest as [|c r]; [reflexivity|].
    destruct (Ascii.eqb_spec c "-") as [->|Hc].
    - destruct (label r) as [[pre r']|] eqn:El; [|discriminate].
      destruct (build_tail r') as [b|] eqn:Eb; [|discriminate].
      apply label_text_of in El as (Hpre & -> & _).
      apply build_tail_text in Eb as [Hb ->].
      change (String "-" (pre ++ ?x)) with ("-" ++ (pre ++ x)).
      rewrite !no_space_app, (label_text_no_space pre Hpre).
      destruct (String.eqb b ""); [reflexivity|].
      change (String "+" b) with ("+" ++ b). rewrite no_space_app.
      rewrite (label_text_no_space b Hb). reflexivity.
    - destruct (build_tail (String c r)) as [b|] eqn:Eb; [exact (Hbt b eq_refl)|].
      exfalso. destruct c as [[] [] [] [] [] [] [] []]; try discriminate Hrest.
      contradiction. }
  assert (Hs0 : no_space (String d1 ds1 ++ String "." (String d2 ds2 ++ String "."
                                  (String d ds ++ rest))) = true).
  { rewrite no_space_app, (no_space_cons "."), no_space_app, (no_space_cons "."),
      no_space_app.
    rewrite (digits_no_space _ Hd1), (digits_no_space _ Hd2),
      (digits_no_space _ Hds), Hr. reflexivity. }
  assert (Hfirst : isDigit d1 = true).
  { cbn [list_ascii_of_string forallb] in Hd1. apply andb_prop in Hd1 as [H _]. exact H. }
  rewrite <- Es0 in Hs0. clear Hrest.
  subst s0. destruct text as [|c t]; [discriminate Es0|].
  exists c, t. split; [reflexivity|].
  destruct (Ascii.eqb_spec c "v") as [->|Hc].
  - split; [reflexivity|]. rewrite no_space_cons.
    change (no_space t = true) in Hs0. rewrite Hs0. reflexivity.
  - assert (E : match String c t with String "v" r => r | _ => String c t end
                = String c t).
    { destruct c as [[] [] [] [] [] [] [] []]; try reflexivity. contradiction. }
    rewrite E in Es0, Hs0. split; [|exact Hs0].
    change (String d1 ds1 ++ ?x) with (String d1 (ds1 ++ x)) in Es0.
    injection Es0 as -> _. rewrite Hfirst. reflexivity.
Qed.

Lemma trim_left_blank_app (ws s : string) :
  blank ws = true -> strings.trim_left (ws ++ s) = strings.trim_left s.
Proof.
  unfold blank. induction ws as [|c ws IH]; [reflexivity|].
  cbn [list_ascii_of_string forallb]. intros H. apply andb_prop in H as [Hc Hws].
  change (String c ws ++ s) with (String c (ws ++ s)). cbn [strings.trim_left].
  rewrite Hc. exact (IH Hws).
Qed.

Lemma trim_left_no_space (s : string) : no_space s = true -> strings.trim_left s = s.
Proof.
  destruct s as [|c s]; [reflexivity|]. unfold no_space.
  cbn [list_ascii_of_string forallb strings.trim_left]. intros H.
  apply andb_prop in H as [Hc _]. destruct (strings.isSpace c); [discriminate|reflexivity].
Qed.

Lemma rev_string_app (a b : string) :
  strings.rev_string (a ++ b) = strings.rev_string b ++ strings.rev_string a.
Proof.
  unfold strings.rev_string. rewrite chars_app, rev_app_distr. apply string_of_chars_app.
Qed.

Lemma rev_string_involutive (s : string) : strings.rev_string (strings.rev_string s) = s.
Proof.
  unfold strings.rev_string.
  rewrite list_ascii_of_string_of_list_ascii, rev_involutive.
  apply string_of_list_ascii_of_string.
Qed.

Lemma no_space_rev_string (s : string) : no_space (strings.rev_string s) = no_space s.
Proof.
  unfold no_space, strings.rev_string. rewrite list_ascii_of_string_of_list_ascii.
  induction (list_ascii_of_string s) as [|c l IH]; [reflexivity|].
  cbn [rev forallb]. rewrite forallb_app, IH. cbn. rewrite andb_true_r. apply andb_comm.
Qed.

Lemma trim_left_blank (ws : string) : blank ws = true -> strings.trim_left ws = "".
Proof.
  intros H. rewrite <- (append_empty_r ws). rewrite (trim_left_blank_app ws "" H).
  reflexivity.
Qed.

(** [TrimSpace] removes the white space around a text without any. *)
Lemma TrimSpace_around (ws1 ws2 s : string) :
  blank ws1 = true -> blank ws2 = true -> no_space s = true ->
  strings.TrimSpace (ws1 ++ s ++ ws2) = s.
Proof.
  intros H1 H2 Hs. unfold strings.TrimSpace.
  rewrite (trim_left_blank_app ws1 _ H1).
  destruct s as [|c s].
  - change ("" ++ ws2) with ws2. rewrite (trim_left_blank ws2 H2). reflexivity.
  - assert (E : strings.trim_left (String c s ++ ws2) = String c s ++ ws2).
    { unfold no_space in Hs. cbn [list_ascii_of_string forallb] in Hs.
      apply andb_prop in Hs as [Hc _].
      change (String c s ++ ws2) with (String c (s ++ ws2)). cbn [strings.trim_left].
      destruct (strings.isSpace c); [discriminate|reflexivity]. }
    rewrite E, rev_string_app, trim_left_blank_app by (rewrite blank_rev_string; exact H2).
    rewrite trim_left_no_space by (rewrite no_space_rev_string; exact Hs).
    apply rev_string_involutive.
Qed.

(** X8: white space around a constraint is dropped, and a text that
    [ParseVersion] accepts, written after one of the operators, parses to
    that operator and that version; written alone it parses to the
    operator "=". *)
Theorem ParseConstraint_operator (op text ws1 ws2 : string) (v : Version) :
  In op operators -> ParseVersion text = Ok v ->
  blank ws1 = true -> blank ws2 = true ->
  ParseConstraint (ws1 ++ (op ++ text) ++ ws2) = Ok (mkConstraint op v)
  /\ ParseConstraint (ws1 ++ text ++ ws2) = Ok (mkConstraint "=" v).
Proof.
  intros Hop Hv H1 H2.
  destruct (ParseVersion_text text v Hv) as (c & t & -> & Hc & Hns).
  assert (Hfirst : forall o, In o ["^"; "~"; ">"; "<"; "="]%char -> c <> o).
  { intros o Ho ->. cbn in Ho.
    repeat destruct Ho as [<-|Ho]; try discriminate Hc. exact Ho. }
  assert (Hpre : forall o s, In o ["^"; "~"; ">"; "<"; "="]%char ->
                 String.prefix (String o s) (String c t) = false).
  { intros o s Ho. cbn [String.prefix].
    destruct (ascii_dec o c) as [->|_]; [|reflexivity].
    exfalso. exact (Hfirst c Ho eq_refl). }
  unfold ParseConstraint. split.
  - rewrite TrimSpace_around; [|exact H1|exact H2|].
    2:{ rewrite no_space_app, Hns.
        cbn in Hop. repeat destruct Hop as [<-|Hop]; try reflexivity. destruct Hop. }
    unfold strings.HasPrefix.
    cbn in Hop.
    repeat destruct Hop as [<-|Hop]; [..|destruct Hop];
      repeat change (String ?a ?b ++ ?x) with (String a (b ++ x));
      change ("" ++ String c t) with (String c t);
      cbn [String.prefix strings.drop_bytes String.length];
      repeat match goal with
        | |- context [ascii_dec ?a ?b] =>
            destruct (ascii_dec a b) as [E|N];
            [ first [ discriminate E
                    | exfalso; exact (Hfirst a ltac:(cbn; tauto) (eq_sym E))
                    | clear E ]
            | first [ exfalso; apply N; reflexivity | clear N ] ]
        end;
      cbn [String.prefix]; rewrite Hv; reflexivity.
  - rewrite TrimSpace_around; [|exact H1|exact H2|exact Hns].
    unfold strings.HasPrefix. rewrite !Hpre by (cbn; tauto).
    cbn [strings.drop_bytes]. rewrite Hv. reflexivity.
Qed.

(** " >=1.2.3" and " 1.2.3" *)
Lemma ParseConstraint_operator_witness :
  ParseConstraint (" " ++ (">=" ++ "1.2.3") ++ "") = Ok (mkConstraint ">=" (mkVersion 1 2 3 "" ""))
  /\ ParseConstraint (" " ++ "1.2.3" ++ "") = Ok (mkConstraint "=" (mkVersion 1 2 3 "" "")).
Proof.
  apply (ParseConstraint_operator ">=" "1.2.3" " " "" (mkVersion 1 2 3 "" ""));
    [cbn; tauto|reflexivity|reflexivity|reflexivity].
Defined.

(** White space between the operator and the version is not dropped. *)
Example ParseConstraint_inner_space :
  ParseConstraint ">= 1.2.3" = Err "invalid semantic version:  1.2.3".
Proof. vm_compute. reflexivity. Qed.

End constraint_text.

(** ** The manifest and the commands that edit it *)

Section manifest_tables.
Import manifest.

(** A dependency passes [validateDependency]. *)
Lemma validateDependency_ok (name : string) (dep : Dependency) :
  validateDependency name dep = Ok tt
  <-> Git dep <> ""
      /\ (Version dep <> "" \/ Branch dep <> "" \/ Tag dep <> "" \/ Rev dep <> "").
Proof.
  unfold validateDependency.
  destruct (String.eqb_spec (Git dep) ""), (String.eqb_spec (Version dep) ""),
    (String.eqb_spec (Branch dep) ""), (String.eqb_spec (Tag dep) ""),
    (String.eqb_spec (Rev dep) ""); cbn;
    (split; [intros H; try discriminate H; auto | intros [? [?|[?|[?|?]]]]; congruence]).
Qed.

Lemma validate_all_ok (range : list (string * Dependency)) :
  validate_all range = Ok tt
  <-> forall name dep, In (name, dep) range -> validateDependency name dep = Ok tt.
Proof.
  induction range as [|[n d] range IH]; cbn [validate_all].
  - split; [intros _ ? ? []|reflexivity].
  - destruct (validateDependency n d) as [[]|e] eqn:E.
    + rewrite IH. split.
      * intros H name dep [[= <- <-]|Hin]; [exact E|exact (H name dep Hin)].
      * intros H name dep Hin. apply H. right. exact Hin.
    + split; [discriminate|]. intros H. rewrite <- E. apply H. left. reflexivity.
Qed.

(** X9: [Validate] accepts a manifest exactly when the name, the version
    and the Zig version of the package are not empty and every entry of the
    [dependencies] table has a git URL and one of version, branch, tag and
    rev, in whatever order the table is visited; the entries of the other
    two tables are not looked at. *)
Theorem Validate_ok_iff (package : PackageInfo) (m : Manifest)
    (range : list (string * Dependency)) :
  range ≡ₚ map_to_list (Dependencies m) ->
  (Validate package range = Ok tt
   <-> PName package <> "" /\ PVersion package <> "" /\ ZigVersion package <> ""
       /\ forall name dep, Dependencies m !! name = Some dep ->
            Git dep <> ""
            /\ (Version dep <> "" \/ Branch dep <> "" \/ Tag dep <> "" \/ Rev dep <> "")).
Proof.
  intros Hrange. unfold Validate.
  assert (Hin : forall name dep,
             In (name, dep) range <-> Dependencies m !! name = Some dep).
  { intros name dep. rewrite <- list_elem_of_In, Hrange. apply elem_of_map_to_list. }
  destruct (String.eqb_spec (PName package) "") as [E1|N1];
    [split; [discriminate|intros (? & _); contradiction]|].
  destruct (String.eqb_spec (PVersion package) "") as [E2|N2];
    [split; [discriminate|intros (_ & ? & _); contradiction]|].
  destruct (String.eqb_spec (ZigVersion package) "") as [E3|N3];
    [split; [discriminate|intros (_ & _ & ? & _); contradiction]|].
  rewrite validate_all_ok. split.
  - intros H. repeat (split; [assumption|]). intros name dep Hl.
    apply (validateDependency_ok name dep). apply (H name dep). apply Hin. exact Hl.
  - intros (_ & _ & _ & H) name dep Hl.
    apply (validateDependency_ok name dep). apply (H name dep). apply Hin. exact Hl.
Qed.

(** A manifest whose only faulty entry is a development dependency. *)
Lemma Validate_ok_iff_witness :
  let package := mkPackageInfo "app" "0.1.0" "" [] "MIT" "" "" "" [] "0.12.0" "" in
  let good := mkDependency "owner/repo" "1.0.0" "" "" "" "" false in
  let bad := mkDependency "" "" "" "" "" "" false in
  let m := mkManifest {[ "lib" := good ]} {[ "tool" := bad ]} ∅ in
  Validate package [("lib", good)] = Ok tt.
Proof.
  intros package good bad m.
  apply (Validate_ok_iff package m [("lib", good)]).
  - subst m. cbn [Dependencies]. rewrite map_to_list_singleton. reflexivity.
  - repeat (split; [discriminate|]). intros name dep Hl. subst m. cbn [Dependencies] in Hl.
    apply lookup_singleton_Some in Hl as [_ <-]. split; [discriminate|]. left. discriminate.
Defined.

(** X10: a name is found by the lookup of [runInstall] exactly when it is a
    key of [GetAllDependencies], the map that [Resolve] works from, and
    exactly when [existsInDependencies] holds: a resolved dependency is never
    skipped as "not found in manifest". *)
Theorem resolved_name_is_found (m : Manifest) (name : string) :
  (is_Some (GetAllDependencies m !! name) <-> is_Some (cli.manifestDep m name))
  /\ (cli.existsInDependencies m name = true <-> is_Some (cli.manifestDep m name)).
Proof.
  unfold GetAllDependencies, cli.manifestDep, cli.existsInDependencies.
  rewrite !lookup_union.
  destruct (Dependencies m !! name), (DevDeps m !! name), (BuildDeps m !! name); cbn;
    (split; split; intros H;
     first [exact H | discriminate H | reflexivity | solve [eauto]
           | destruct H as [x Hx]; discriminate Hx]).
Qed.

(** X11: the lookup of [runInstall] prefers the tables in the order
    dependencies, dev-dependencies, build-dependencies, the reverse of
    [GetAllDependencies]: for a name with an entry in [dependencies] and
    another in [build-dependencies], the resolver is given the second and the
    install fetches the first. *)
Theorem install_prefers_first_table (m : Manifest) (name : string) (d d' : Dependency) :
  Dependencies m !! name = Some d -> BuildDeps m !! name = Some d' ->
  cli.manifestDep m name = Some d /\ GetAllDependencies m !! name = Some d'
  /\ forall n, cli.manifestDep m n
               = GetAllDependencies
                   (mkManifest (BuildDeps m) (DevDeps m) (Dependencies m)) !! n.
Proof.
  intros Hd Hb. unfold cli.manifestDep, GetAllDependencies. cbn.
  split; [rewrite Hd; reflexivity|]. split.
  - rewrite lookup_union, Hb. apply union_Some_l.
  - intros n. rewrite !lookup_union.
    destruct (Dependencies m !! n), (DevDeps m !! n), (BuildDeps m !! n); reflexivity.
Qed.

(** The name "lib" pinned to 1.0.0 at run time and to 2.0.0 for the build. *)
Lemma install_prefers_first_table_witness :
  let d := mkDependency "owner/repo" "1.0.0" "" "" "" "" false in
  let d' := mkDependency "owner/repo" "2.0.0" "" "" "" "" false in
  let m := mkManifest {[ "lib" := d ]} ∅ {[ "lib" := d' ]} in
  cli.manifestDep m "lib" = Some d /\ GetAllDependencies m !! "lib" = Some d'.
Proof.
  intros d d' m.
  destruct (install_prefers_first_table m "lib" d d') as (H1 & H2 & _).
  - apply lookup_singleton_eq.
  - apply lookup_singleton_eq.
  - split; assumption.
Defined.

End manifest_tables.

Section manifest_edits.
Import manifest.

Lemma HasPrefix_nonempty (s p : string) :
  p <> "" -> strings.HasPrefix s p = true -> s <> "".
Proof.
  intros Hp H ->. destruct p; [contradiction|]. discriminate H.
Qed.

(** What a successful [parsePackageSpec] returns: a name that is not empty
    and a URL under https://github.com/. *)
Lemma parsePackageSpec_ok (spec name version gitURL : string) :
  cli.parsePackageSpec spec = Ok (name, version, gitURL) ->
  name <> "" /\ strings.HasPrefix gitURL "https://github.com/" = true.
Proof.
  unfold cli.parsePackageSpec.
  destruct (2 <? length (strings.Split spec "@"))%nat; [discriminate|].
  destruct (negb (strings.Contains (nth 0 (strings.Split spec "@") "") "/"));
    [discriminate|].
  set (url := if negb (strings.HasPrefix (nth 0 (strings.Split spec "@") "") "http")
              then _ else _).
  destruct (strings.HasPrefix url "https://github.com/") eqn:Hurl.
  - match goal with |- context [String.eqb ?n ""] => destruct (String.eqb_spec n "") end;
      [discriminate|].
    intros [= <- _ <-]. split; [assumption|exact Hurl].
  - cbn. discriminate.
Qed.

(** X12: the dependency that [runAdd] builds from an accepted package
    specification passes [validateDependency] exactly when the
    specification names a version or a branch is given: a bare
    "owner/repo" is written to the manifest as an entry that [Validate]
    rejects. *)
Theorem added_dependency_valid_iff (spec name version gitURL : string)
    (branch rootFile packageRootFile dependencyName : string) :
  cli.parsePackageSpec spec = Ok (name, version, gitURL) ->
  (validateDependency dependencyName
     (cli.newDependency gitURL version branch rootFile packageRootFile) = Ok tt
   <-> version <> "" \/ branch <> "").
Proof.
  intros Hspec. apply parsePackageSpec_ok in Hspec as [_ Hurl].
  assert (Hgit : gitURL <> "") by (eapply HasPrefix_nonempty; [|exact Hurl]; discriminate).
  rewrite validateDependency_ok. unfold cli.newDependency. cbn.
  destruct (String.eqb_spec branch "") as [->|Hb], (String.eqb_spec version "") as [->|Hv];
    cbn; intuition congruence.
Qed.

(** The specification "owner/repo" without a version and without branch. *)
Lemma added_dependency_valid_iff_witness :
  validateDependency "repo" (cli.newDependency "https://github.com/owner/repo" "" "" "" "")
  = Ok tt <-> "" <> "" \/ "" <> "".
Proof.
  apply (added_dependency_valid_iff "owner/repo" "repo" "" "https://github.com/owner/repo").
  vm_compute. reflexivity.
Defined.

Lemma filter_none_elem_of {A} (P : A -> Prop) `{forall x, Decision (P x)} (l : list A) :
  (forall x, x ∈ l -> ~ P x) -> filter P l = [].
Proof.
  induction l as [|x l IH]; intros Hl; [reflexivity|].
  rewrite filter_cons. destruct (decide (P x)) as [HP|_].
  - exfalso. apply (Hl x); [left|exact HP].
  - apply IH. intros y Hy. apply Hl. right. exact Hy.
Qed.

Lemma checkSync_ok (names : list string) (M : gmap string Dependency)
    (pkgs : list LockedPackage) :
  sync.checkSync names M pkgs = Ok tt
  <-> (forall n, n ∈ names -> n ∈ lock_names pkgs)
      /\ (forall n, n ∈ Name <$> pkgs -> n ∈ dom M).
Proof.
  unfold sync.checkSync. rewrite inconsistencies_filters. split.
  - intros H.
    destruct (_ ++ _)%list eqn:E; [|discriminate H].
    apply app_eq_nil in E as [E1 E2].
    apply fmap_nil_inv in E1. apply fmap_nil_inv in E2. split.
    + intros n Hn. destruct (decide (n ∈ lock_names pkgs)) as [|Hno]; [assumption|].
      exfalso. exact (filter_nil_not_elem_of _ _ n E1 Hno Hn).
    + intros n Hn. destruct (decide (n ∈ dom M)) as [|Hno]; [assumption|].
      exfalso. exact (filter_nil_not_elem_of _ _ n E2 Hno Hn).
  - intros [H1 H2].
    rewrite (filter_none_elem_of _ names), (filter_none_elem_of _ (Name <$> pkgs)).
    + reflexivity.
    + intros n Hn Hno. exact (Hno (H2 n Hn)).
    + intros n Hn Hno. exact (Hno (H1 n Hn)).
Qed.

(** X13: [runRemove] keeps a synchronized project synchronized: when the
    consistency check of [runSync] passes on a manifest and a lock file,
    it still passes on what [runRemove] saves, where the name is gone from
    every table and from the lock file. *)
Theorem remove_keeps_sync (m m' : Manifest) (pkgs pkgs' : list LockedPackage)
    (name : string) (names names' : list string) :
  (forall n, n ∈ dom (GetAllDependencies m) -> n ∈ names) ->
  (forall n, n ∈ names' -> n ∈ dom (GetAllDependencies m')) ->
  sync.checkSync names (GetAllDependencies m) pkgs = Ok tt ->
  cli.removeDependency m pkgs name = Ok (m', pkgs') ->
  sync.checkSync names' (GetAllDependencies m') pkgs' = Ok tt
  /\ GetAllDependencies m' !! name = None
  /\ name ∉ Name <$> pkgs'.
Proof.
  intros Hnames Hnames' Hsync Hrm.
  apply checkSync_ok in Hsync as [Hm Hl].
  unfold cli.removeDependency in Hrm.
  destruct (negb _) in Hrm; [discriminate|]. injection Hrm as <- <-.
  assert (HM : GetAllDependencies
                 (mkManifest (delete name (Dependencies m)) (delete name (DevDeps m))
                    (delete name (BuildDeps m)))
               = delete name (GetAllDependencies m)).
  { unfold GetAllDependencies. cbn. rewrite !delete_union. reflexivity. }
  rewrite HM in *.
  assert (Hkept : forall n, n ∈ Name <$>
                     List.filter (fun pkg => negb (String.eqb (Name pkg) name)) pkgs
                   <-> n ∈ Name <$> pkgs /\ n <> name).
  { intros n. rewrite !list_elem_of_fmap. split.
    - intros (p & -> & Hp). apply list_elem_of_In, List.filter_In in Hp as [Hp Hne].
      split; [exists p; split; [reflexivity|apply list_elem_of_In; exact Hp]|].
      destruct (String.eqb_spec (Name p) name); [discriminate|assumption].
    - intros [(p & -> & Hp) Hne]. exists p. split; [reflexivity|].
      apply list_elem_of_In, List.filter_In. split; [apply list_elem_of_In; exact Hp|].
      destruct (String.eqb_spec (Name p) name); [contradiction|reflexivity]. }
  split; [|split].
  - apply checkSync_ok. split.
    + intros n Hn. specialize (Hnames' n Hn).
      rewrite dom_delete_L in Hnames'. apply elem_of_difference in Hnames' as [Hd Hne].
      rewrite elem_of_singleton in Hne.
      unfold lock_names. rewrite elem_of_list_to_set. apply Hkept. split; [|exact Hne].
      specialize (Hm n (Hnames n Hd)). unfold lock_names in Hm.
      rewrite elem_of_list_to_set in Hm. exact Hm.
    + intros n Hn. apply Hkept in Hn as [Hn Hne].
      rewrite dom_delete_L. apply elem_of_difference. split; [exact (Hl n Hn)|].
      rewrite elem_of_singleton. exact Hne.
  - apply lookup_delete_eq.
  - intros Hn. apply Hkept in Hn as [_ Hne]. contradiction.
Qed.

(** The project with A and B, both locked: removing A. *)
Lemma remove_keeps_sync_witness :
  let m := mkManifest manifest_AB ∅ ∅ in
  let m' := mkManifest (delete "A" manifest_AB) (delete "A" ∅) (delete "A" ∅) in
  sync.checkSync ["B"] (GetAllDependencies m') [locked "B"] = Ok tt
  /\ GetAllDependencies m' !! "A" = None
  /\ "A" ∉ Name <$> [locked "B"].
Proof.
  intros m m'.
  apply (remove_keeps_sync m m' [locked "A"; locked "B"] [locked "B"] "A" ["A"; "B"] ["B"]).
  - intros n Hn.
    assert (E : dom (GetAllDependencies m) = ({[ "A"; "B" ]} : gset string))
      by (vm_compute; reflexivity).
    rewrite E in Hn. apply elem_of_union in Hn as [Hn|Hn];
      apply elem_of_singleton in Hn as ->; [left|right; left].
  - intros n Hn. apply list_elem_of_singleton in Hn as ->. vm_compute. reflexivity.
  - vm_compute. reflexivity.
  - vm_compute. reflexivity.
Defined.

End manifest_edits.

(** ** Package specifications and repository locators *)

Section locators.
Import manifest.

Lemma has_byte_app (b : ascii) (x y : string) :
  has_byte b (x ++ y) = has_byte b x || has_byte b y.
Proof. unfold has_byte. rewrite chars_app. apply existsb_app. Qed.

Lemma Split_byte_none (sep : ascii) (s : string) :
  has_byte sep s = false -> strings.Split s sep = [s].
Proof.
  unfold has_byte. induction s as [|c s IH]; [reflexivity|]. cbn.
  rewrite (Ascii.eqb_sym sep c). destruct (Ascii.eqb c sep); [discriminate|].
  cbn. intros H. rewrite (IH H). reflexivity.
Qed.

Lemma Split_byte_app (sep : ascii) (a b : string) :
  has_byte sep a = false ->
  strings.Split (a ++ String sep b) sep = a :: strings.Split b sep.
Proof.
  unfold has_byte. induction a as [|c a IH].
  - intros _. change ("" ++ String sep b) with (String sep b). cbn.
    rewrite Ascii.eqb_refl. reflexivity.
  - cbn. rewrite (Ascii.eqb_sym sep c). intros H.
    change (String c a ++ String sep b) with (String c (a ++ String sep b)).
    cbn [strings.Split]. destruct (Ascii.eqb c sep); [discriminate|].
    rewrite (IH H). reflexivity.
Qed.

Lemma prefix_app (p x : string) : String.prefix p (p ++ x) = true.
Proof.
  induction p as [|c p IH].
  - destruct x; reflexivity.
  - change (String c p ++ x) with (String c (p ++ x)). cbn [String.prefix].
    destruct (ascii_dec c c); [exact IH|contradiction].
Qed.

Lemma drop_bytes_app (p x : string) : strings.drop_bytes (String.length p) (p ++ x) = x.
Proof.
  induction p as [|c p IH]; [destruct x; reflexivity|].
  change (String c p ++ x) with (String c (p ++ x)). exact IH.
Qed.

Lemma Contains_byte (s : string) (b : ascii) :
  strings.Contains s (String b "") = has_byte b s.
Proof.
  unfold has_byte. induction s as [|c s IH]; [reflexivity|].
  cbn [strings.Contains String.prefix list_ascii_of_string existsb]. rewrite IH.
  destruct (ascii_dec b c) as [->|Hne].
  - rewrite Ascii.eqb_refl. destruct s; reflexivity.
  - destruct (Ascii.eqb_spec b c); [contradiction|reflexivity].
Qed.

(** A text without "/" does not hold "://"; neither does one with a single
    "/". *)
Lemma Contains_scheme_none (s : string) :
  has_sep s = false -> strings.Contains s "://" = false.
Proof.
  induction s as [|c s IH]; [reflexivity|]. cbn [has_sep]. intros H.
  apply orb_false_elim in H as [Hc Hs].
  cbn [strings.Contains]. rewrite (IH Hs), orb_false_r.
  cbn [String.prefix]. destruct (ascii_dec ":" c); [|reflexivity].
  destruct s as [|d s]; [reflexivity|]. cbn [has_sep] in Hs.
  apply orb_false_elim in Hs as [Hd _]. unfold filepath.Separator in Hd.
  cbn [String.prefix].
  destruct (ascii_dec "/" d) as [<-|]; [discriminate Hd|reflexivity].
Qed.

Lemma Contains_scheme_one (a b : string) :
  has_sep a = false -> has_sep b = false ->
  strings.Contains (a ++ String "/" b) "://" = false.
Proof.
  intros Ha Hb. induction a as [|c a IH].
  - change ("" ++ String "/" b) with (String "/" b). cbn [strings.Contains].
    rewrite (Contains_scheme_none b Hb). reflexivity.
  - cbn [has_sep] in Ha. apply orb_false_elim in Ha as [Hc Ha].
    change (String c a ++ String "/" b) with (String c (a ++ String "/" b)).
    cbn [strings.Contains]. rewrite (IH Ha), orb_false_r.
    cbn [String.prefix]. destruct (ascii_dec ":" c); [|reflexivity].
    destruct a as [|d a].
    + change ("" ++ String "/" b) with (String "/" b). cbn [String.prefix].
      destruct (ascii_dec "/" "/"); [|reflexivity].
      destruct b as [|e' b]; [reflexivity|]. cbn [has_sep] in Hb.
      apply orb_false_elim in Hb as [He _]. unfold filepath.Separator in He.
      cbn [String.prefix].
      destruct (ascii_dec "/" e') as [<-|]; [discriminate He|reflexivity].
    + change (String d a ++ String "/" b) with (String d (a ++ String "/" b)).
      cbn [has_sep] in Ha. apply orb_false_elim in Ha as [Hd _].
      unfold filepath.Separator in Hd. cbn [String.prefix].
      destruct (ascii_dec "/" d) as [<-|]; [discriminate Hd|reflexivity].
Qed.

(** X15: [parsePackageSpec] on "owner/repo@version" and on "owner/repo":
    the package name is the repository, the URL is the one under
    https://github.com/, the version is the text after "@" and is empty
    without one. *)
Theorem parsePackageSpec_shorthand (owner repo version : string) :
  has_sep owner = false -> has_sep repo = false ->
  has_byte "@" owner = false -> has_byte "@" repo = false ->
  has_byte "@" version = false ->
  strings.HasPrefix (owner ++ String "/" repo) "http" = false ->
  repo <> "" -> strings.HasSuffix repo ".git" = false ->
  cli.parsePackageSpec ((owner ++ String "/" repo) ++ String "@" version)
  = Ok (repo, version, "https://github.com/" ++ owner ++ String "/" repo)
  /\ cli.parsePackageSpec (owner ++ String "/" repo)
     = Ok (repo, "", "https://github.com/" ++ owner ++ String "/" repo).
Proof.
  intros Ho Hr Hao Har Hav Hhttp Hne Hgit.
  assert (Hat : has_byte "@" (owner ++ String "/" repo) = false).
  { rewrite has_byte_app, Hao. unfold has_byte in *. cbn. exact Har. }
  assert (Hslash : strings.Contains (owner ++ String "/" repo) "/" = true).
  { rewrite Contains_byte, has_byte_app. unfold has_byte at 2. cbn.
    apply orb_true_r. }
  assert (Hsplit : strings.Split (owner ++ String "/" repo) "/" = [owner; repo]).
  { rewrite Split_app_sep, (Split_no_sep owner Ho), (Split_no_sep repo Hr). reflexivity. }
  assert (Hbody : forall parts v,
             nth 0 parts "" = owner ++ String "/" repo ->
             (2 <? length parts)%nat = false ->
             (if (length parts =? 2)%nat then nth 1 parts "" else "") = v ->
             (let packageURL := nth 0 parts "" in
              if (2 <? length parts)%nat then Err "invalid package specification format"
              else
                let hasVersion := (length parts =? 2)%nat in
                let version := if hasVersion then nth 1 parts "" else "" in
                if negb (strings.Contains packageURL "/") then
                  Err "package must be in 'username/repo' format"
                else
                  let gitURL := if negb (strings.HasPrefix packageURL "http")
                                then "https://github.com/" ++ packageURL
                                else packageURL in
                  let name :=
                    if strings.HasPrefix gitURL "https://github.com/" then
                      match strings.Split
                              (strings.TrimPrefix gitURL "https://github.com/") "/" with
                      | _ :: name :: _ =>
                          if strings.HasSuffix name ".git"
                          then String.substring 0 (String.length name - 4) name
                          else name
                      | _ => ""
                      end
                    else "" in
                  if String.eqb name "" then Err "could not determine package name"
                  else Ok (name, version, gitURL))
             = Ok (repo, v, "https://github.com/" ++ owner ++ String "/" repo)).
  { intros parts v H0 Hlen Hv. cbv zeta. rewrite Hlen, H0, Hslash, Hhttp, Hv.
    cbn [negb]. unfold strings.TrimPrefix, strings.HasPrefix.
    rewrite (prefix_app "https://github.com/").
    rewrite (drop_bytes_app "https://github.com/"), Hsplit, Hgit.
    destruct (String.eqb_spec repo ""); [contradiction|reflexivity]. }
  split.
  - apply (Hbody (strings.Split ((owner ++ String "/" repo) ++ String "@" version) "@"));
      rewrite (Split_byte_app "@" _ _ Hat), (Split_byte_none "@" _ Hav); reflexivity.
  - apply (Hbody (strings.Split (owner ++ String "/" repo) "@"));
      rewrite (Split_byte_none "@" _ Hat); reflexivity.
Qed.

(** "DitzDev/yuki-zpm@1.2.0" *)
Lemma parsePackageSpec_shorthand_witness :
  cli.parsePackageSpec "DitzDev/yuki-zpm@1.2.0"
  = Ok ("yuki-zpm", "1.2.0", "https://github.com/DitzDev/yuki-zpm")
  /\ cli.parsePackageSpec "DitzDev/yuki-zpm"
     = Ok ("yuki-zpm", "", "https://github.com/DitzDev/yuki-zpm").
Proof.
  apply (parsePackageSpec_shorthand "DitzDev" "yuki-zpm" "1.2.0");
    solve [reflexivity | discriminate].
Defined.

(** X16: [ParseRepoURL] on the short form "owner/repo", where neither part
    holds "/" or "@": the two parts come back as they are, whatever
    [net/url] and [regexp] would do, and also when a part is empty. *)
Theorem ParseRepoURL_shorthand (lib : GoLib) (owner repo : string) :
  has_sep owner = false -> has_sep repo = false ->
  has_byte "@" owner = false -> has_byte "@" repo = false ->
  github.ParseRepoURL lib (owner ++ String "/" repo) = Ok (owner, repo).
Proof.
  intros Ho Hr Hao Har. unfold github.ParseRepoURL.
  assert (Hslash : strings.Contains (owner ++ String "/" repo) "/" = true).
  { rewrite Contains_byte, has_byte_app. unfold has_byte at 2. cbn.
    apply orb_true_r. }
  assert (Hat : strings.Contains (owner ++ String "/" repo) "@" = false).
  { rewrite Contains_byte, has_byte_app, Hao. unfold has_byte in *. cbn. exact Har. }
  rewrite Hslash, (Contains_scheme_one owner repo Ho Hr), Hat. cbn [negb andb].
  rewrite Split_app_sep, (Split_no_sep owner Ho), (Split_no_sep repo Hr). reflexivity.
Qed.

(** "DitzDev/yuki-zpm", with a library that knows no URL at all. *)
Lemma ParseRepoURL_shorthand_witness :
  github.ParseRepoURL demo.lib "DitzDev/yuki-zpm" = Ok ("DitzDev", "yuki-zpm").
Proof.
  apply (ParseRepoURL_shorthand demo.lib "DitzDev" "yuki-zpm"); reflexivity.
Defined.

End locators.

Section adding.
Import manifest.



End adding.

(** ** The cache commands and the checksum format *)

Section cache_clean.
Context {FS : Type} (os : OS FS).

Lemma fold_Delete (range : list string) (c : cache.Cache) (fs : FS) :
  let st := fold_left (fun st key => cache.Delete os (fst st) (snd st) key)
                      range (c, fs) in
  cache.cacheDir (fst st) = cache.cacheDir c
  /\ forall k, cache.entries (fst st) !! k
               = if decide (k ∈ range) then None else cache.entries c !! k.
Proof.
  revert c fs. induction range as [|key range IH]; intros c fs; cbn [fold_left].
  - split; [reflexivity|]. intros k. rewrite decide_False; [reflexivity|].
    apply not_elem_of_nil.
  - destruct (IH (fst (cache.Delete os c fs key)) (snd (cache.Delete os c fs key)))
      as [Hdir Hk].
    cbn [fst snd] in *. split; [exact Hdir|]. intros k. rewrite Hk.
    unfold cache.Delete. cbn [fst cache.entries].
    destruct (decide (k ∈ range)) as [Hin|Hout].
    + rewrite decide_True; [reflexivity|]. right. exact Hin.
    + destruct (decide (k = key)) as [->|Hne].
      * rewrite decide_True; [|left]. apply lookup_delete_eq.
      * rewrite decide_False.
        -- apply lookup_delete_ne. congruence.
        -- intros Hin. apply elem_of_cons in Hin as [?|?]; contradiction.
Qed.

(** X20: [runCacheClean] leaves the cache without entries in both of its
    modes, also when removing the cache directory fails and the command
    reports an error: afterwards [Get] misses on every key. *)
Theorem runCacheClean_empties (c c' : cache.Cache) (fs fs' : FS) (all : bool)
    (range : list string) (r : result unit) :
  (forall k, is_Some (cache.entries c !! k) -> k ∈ range) ->
  cli.runCacheClean os c fs all range = (r, c', fs') ->
  cache.entries c' = ∅ /\ cache.cacheDir c' = cache.cacheDir c
  /\ forall fs'' k, cache.Get os c' fs'' k = (None, c', fs'').
Proof.
  intros Hrange Hrun.
  assert (H : cache.entries c' = ∅ /\ cache.cacheDir c' = cache.cacheDir c).
  { unfold cli.runCacheClean in Hrun. destruct all.
    - unfold cache.Clear in Hrun.
      destruct (os_RemoveAll os fs (cache.cacheDir c)) as [[e|] fs1].
      + injection Hrun as _ <- _. split; reflexivity.
      + destruct (cache.ensureCacheDir os _ fs1) as [[e|] fs2];
          injection Hrun as _ <- _; split; reflexivity.
    - unfold cache.ListEntries in Hrun.
      destruct (Nat.eqb_spec (size (cache.entries c)) 0) as [Hsize|_].
      + injection Hrun as _ <- _. split; [|reflexivity].
        apply map_size_empty_iff. exact Hsize.
      + destruct (fold_Delete range c fs) as [Hdir Hk].
        destruct (fold_left _ range (c, fs)) as [c2 fs2]. cbn [fst] in *.
        injection Hrun as _ <- _. split; [|exact Hdir].
        apply map_empty. intros k. rewrite Hk.
        destruct (decide (k ∈ range)) as [_|Hout]; [reflexivity|].
        destruct (cache.entries c !! k) eqn:E; [|reflexivity].
        exfalso. apply Hout, Hrange. rewrite E. eauto. }
  destruct H as [He Hd]. split; [exact He|]. split; [exact Hd|].
  intros fs'' k. apply Get_absent. rewrite He. apply lookup_empty.
Qed.

End cache_clean.

(** A cache of two entries, cleaned key by key. *)
Lemma runCacheClean_empties_witness :
  let os := demo.os_of (Dir []) in
  let c := cache.mkCache "/cache" {[ "a" := mkEntry "/p" "00" "v1" "";
                                     "b" := mkEntry "/q" "11" "v2" "" ]} in
  cache.entries (cli.runCacheClean os c ∅ false ["b"; "a"]).1.2 = ∅.
Proof.
  intros os c.
  destruct (runCacheClean_empties os c (cli.runCacheClean os c ∅ false ["b"; "a"]).1.2
              ∅ (cli.runCacheClean os c ∅ false ["b"; "a"]).2 false ["b"; "a"]
              (cli.runCacheClean os c ∅ false ["b"; "a"]).1.1) as (H & _).
  - intros k [e Hk]. subst c. cbn in Hk.
    apply lookup_insert_Some in Hk as [[<- _]|[_ Hk]]; [right; left|].
    apply lookup_singleton_Some in Hk as [<- _]. left.
  - destruct (cli.runCacheClean os c ∅ false ["b"; "a"]) as [[? ?] ?]. reflexivity.
  - exact H.
Defined.

Section digest_format.
Import sha256.
Local Open Scope N_scope.

Lemma compress_length (h block : list N) :
  length h = 8%nat -> length (compress h block) = 8%nat.
Proof.
  intros Hh. unfold compress. rewrite length_zip_with, Hh.
  destruct (rounds K block (regs_of_list h)) as [[[[[[[a b] c] d] e] f] g] i].
  reflexivity.
Qed.

Lemma absorb_length (n : nat) (h bs : list N) :
  length h = 8%nat -> length (absorb n h bs) = 8%nat.
Proof.
  revert h bs. induction n as [|n IH]; intros h bs Hh; [exact Hh|].
  cbn [absorb]. apply IH, compress_length, Hh.
Qed.

Lemma be_bytes_bytes (n : nat) (x : N) :
  length (be_bytes n x) = n /\ Forall (fun b => b < 256) (be_bytes n x).
Proof.
  induction n as [|n [IH1 IH2]]; [split; [reflexivity|constructor]|].
  cbn [be_bytes]. split; [cbn; rewrite IH1; reflexivity|].
  constructor; [|exact IH2].
  change 255 with (N.ones 8). rewrite N.land_ones. apply N.mod_lt. discriminate.
Qed.

Lemma Sum_bytes (msg : string) :
  length (Sum msg) = 32%nat /\ Forall (fun b => b < 256) (Sum msg).
Proof.
  unfold Sum.
  pose proof (absorb_length (length (pad (bytes_of_string msg)) / 64) H0
                (pad (bytes_of_string msg)) eq_refl) as Hlen.
  destruct (absorb _ H0 _) as [|a [|b [|c [|d [|e [|f [|g [|h [|]]]]]]]]];
    try discriminate Hlen.
  cbn [flat_map]. rewrite !length_app, app_nil_r.
  rewrite !(proj1 (be_bytes_bytes 4 _)). split; [reflexivity|].
  rewrite !Forall_app. repeat split; apply be_bytes_bytes.
Qed.

Lemma hex_digit_lower (n : N) : n < 16 -> is_lower_hex (hex_digit n) = true.
Proof.
  intros Hn. exact (bounded_check 16 (fun n => is_lower_hex (hex_digit n)) eq_refl n Hn).
Qed.

Lemma hex_text (bs : list N) :
  Forall (fun b => b < 256) bs ->
  String.length (hex bs) = (2 * length bs)%nat
  /\ forallb is_lower_hex (list_ascii_of_string (hex bs)) = true.
Proof.
  induction 1 as [|b bs Hb _ [IH1 IH2]]; [split; reflexivity|].
  cbn [hex String.length list_ascii_of_string forallb length]. split; [lia|].
  rewrite IH2, !hex_digit_lower; [reflexivity| |].
  - apply N.mod_lt. discriminate.
  - apply N.Div0.div_lt_upper_bound. exact Hb.
Qed.

Lemma hexsum_digest_text (msg : string) : digest_text (hexsum msg) = true.
Proof.
  unfold digest_text, hexsum. destruct (Sum_bytes msg) as [Hlen Hb].
  destruct (hex_text (Sum msg) Hb) as [H1 H2]. rewrite H1, H2, Hlen. reflexivity.
Qed.

End digest_format.

(** X17: every checksum that [CalculateFileChecksum] or
    [CalculateDirectoryChecksum] returns is 64 lower-case hexadecimal
    digits, so [VerifyChecksum] rejects every expected checksum of another
    form (upper case, shortened, prefixed) with a mismatch. *)
Theorem checksums_are_digest_texts (path : string) (info : Node)
    (expected : string) :
  digest_text (integrity.CalculateFileChecksum (integrity.content_of info)) = true
  /\ (forall sum, integrity.CalculateDirectoryChecksum path info = Ok sum ->
                  digest_text sum = true)
  /\ (digest_text expected = false ->
      integrity.VerifyChecksum path (Ok info) expected <> Ok tt).
Proof.
  assert (Hdir : forall sum, integrity.CalculateDirectoryChecksum path info = Ok sum ->
                             digest_text sum = true).
  { intros sum. unfold integrity.CalculateDirectoryChecksum.
    destruct (integrity.hash_input _ _); [|discriminate].
    intros [= <-]. apply hexsum_digest_text. }
  split; [apply hexsum_digest_text|]. split; [exact Hdir|].
  intros Hexp. unfold integrity.VerifyChecksum.
  destruct (integrity.IsDir info).
  - destruct (integrity.CalculateDirectoryChecksum path info) as [sum|e] eqn:E;
      [|discriminate].
    destruct (String.eqb_spec sum expected) as [->|_]; [|discriminate].
    rewrite (Hdir expected eq_refl) in Hexp. discriminate Hexp.
  - destruct (String.eqb_spec (integrity.CalculateFileChecksum
                                 (integrity.content_of info)) expected) as [<-|_];
      [|discriminate].
    rewrite hexsum_digest_text in Hexp. discriminate Hexp.
Qed.

(** An upper-case digest is not accepted. *)
Lemma checksums_are_digest_texts_witness :
  integrity.VerifyChecksum "/srv/pkg/a" (Ok (File "x"))
    "2D711642B726B04401627CA9FBAC32F5C8530FB1903CC4DB02258717921A4881"
  <> Ok tt.
Proof.
  destruct (checksums_are_digest_texts "/srv/pkg/a" (File "x")
              "2D711642B726B04401627CA9FBAC32F5C8530FB1903CC4DB02258717921A4881")
    as (_ & _ & H).
  apply H. reflexivity.
Defined.

(** X18: [VerifyChecksum] of a directory against the checksum computed
    before a file or directory named ".git" was added somewhere in it: the
    verification passes for that checksum and reports a mismatch, naming both
    checksums, for every other. *)
Theorem VerifyChecksum_ignores_git (root : string) (es es' : list (string * Node))
    (sum expected : string) :
  wf_tree (Dir es) = true -> wf_tree (Dir es') = true ->
  git_injected (Dir es) (Dir es') ->
  integrity.CalculateDirectoryChecksum root (Dir es) = Ok sum ->
  integrity.VerifyChecksum root (Ok (Dir es')) expected
  = if String.eqb sum expected then Ok tt
    else Err ("checksum mismatch: expected " ++ expected ++ ", got " ++ sum).
Proof.
  intros Hwf Hwf' Hgit Hsum. unfold integrity.VerifyChecksum. cbn [integrity.IsDir].
  rewrite (checksum_ignores_injected_git root es es' Hwf Hwf' Hgit), Hsum.
  destruct (String.eqb sum expected); reflexivity.
Qed.

(** The tree with the file "a", before and after "git init". *)
Lemma VerifyChecksum_ignores_git_witness :
  integrity.VerifyChecksum "/srv/pkg"
    (Ok (Dir [(".git", Dir [("HEAD", File "ref: refs/heads/main")]); ("a", File "x")]))
    "09ac5f154ec6c43e843145c150abe0eb90cd5e10436c81ed32678f8faa58ad29"
  = Ok tt.
Proof.
  apply (VerifyChecksum_ignores_git "/srv/pkg" [("a", File "x")]
           [(".git", Dir [("HEAD", File "ref: refs/heads/main")]); ("a", File "x")]
           "09ac5f154ec6c43e843145c150abe0eb90cd5e10436c81ed32678f8faa58ad29").
  - reflexivity.
  - reflexivity.
  - exact (injected_here [] [("a", File "x")] _).
  - vm_compute. reflexivity.
Defined.

(** ** Fetching twice *)

Section fetch_twice.
Context {FS : Type} (os : OS FS) (lib : GoLib) (utils : Utils).


End fetch_twice.


(** ** The resolver *)

Section resolve.
Import manifest resolver.
Context (lib : GoLib) (remote : Remote).

Lemma resolver_entries_cons (n : string) (d : Dependency)
    (range : list (string * Dependency)) :
  resolver_entries lib remote ((n, d) :: range)
  = match resolver_entry lib remote n d with
    | Ok e => e :: resolver_entries lib remote range
    | Err _ => resolver_entries lib remote range
    end.
Proof.
  unfold resolver_entries. simpl. destruct (resolver_entry lib remote n d); reflexivity.
Qed.

Lemma resolveDependency_fresh (name : string) (dep : Dependency)
    (resolved : gmap string ResolvedDependency) :
  resolved !! name = None ->
  resolveDependency lib remote name dep resolved
  = match resolver_entry lib remote name dep with
    | Ok e => Ok (<[name := e]> resolved)
    | Err e => Err e
    end.
Proof.
  intros H. unfold resolveDependency, resolver_entry. rewrite H.
  destruct (github.ParseRepoURL lib (Git dep)) as [[owner repo]|e]; [|reflexivity].
  destruct (resolveVersion remote owner repo dep); reflexivity.
Qed.

Lemma resolver_entry_name (name : string) (dep : Dependency) (e : ResolvedDependency) :
  resolver_entry lib remote name dep = Ok e -> RName e = name.
Proof.
  unfold resolver_entry.
  destruct (github.ParseRepoURL lib (Git dep)) as [[owner repo]|?]; [|discriminate].
  destruct (resolveVersion remote owner repo dep); [|discriminate].
  intros [= <-]. reflexivity.
Qed.

Lemma resolver_entries_names (range : list (string * Dependency)) :
  Forall (resolves lib remote) range -> RName <$> resolver_entries lib remote range = range.*1.
Proof.
  induction 1 as [|[n d] range Hnd _ IH]; [reflexivity|].
  rewrite resolver_entries_cons. unfold resolves in Hnd. cbn [fst snd] in Hnd.
  destruct (resolver_entry lib remote n d) as [e|] eqn:E; [|discriminate Hnd].
  rewrite !fmap_cons, IH, (resolver_entry_name n d e E). reflexivity.
Qed.

(** The loop succeeds exactly when every name resolves, and then the map
    holds the entries of the names next to what it held before. *)
Lemma resolve_all_ok (range : list (string * Dependency))
    (r0 : gmap string ResolvedDependency) :
  NoDup range.*1 -> (forall n, n ∈ range.*1 -> r0 !! n = None) ->
  match resolve_all lib remote range r0 with
  | Ok r => Forall (resolves lib remote) range
            /\ map_to_list r
               ≡ₚ ((keyed <$> resolver_entries lib remote range) ++ map_to_list r0)%list
  | Err _ => ~ Forall (resolves lib remote) range
  end.
Proof.
  revert r0. induction range as [|[n d] range IH]; intros r0 Hnd Hfresh.
  - cbn. split; [constructor|reflexivity].
  - cbn [resolve_all]. rewrite fmap_cons in Hnd, Hfresh. cbn [fst] in Hnd, Hfresh.
    apply NoDup_cons in Hnd as [Hn Hnd].
    rewrite resolveDependency_fresh by (apply Hfresh; left).
    destruct (resolver_entry lib remote n d) as [e|msg] eqn:E.
    + specialize (IH (<[n := e]> r0) Hnd).
      destruct (resolve_all lib remote range (<[n := e]> r0)) as [r|msg].
      * destruct IH as [Hall Hperm].
        { intros k Hk. rewrite lookup_insert_ne by (intros ->; contradiction).
          apply Hfresh. right. exact Hk. }
        split; [constructor; [unfold resolves; cbn; rewrite E; reflexivity|exact Hall]|].
        rewrite Hperm, map_to_list_insert by (apply Hfresh; left).
        rewrite resolver_entries_cons, E, fmap_cons. unfold keyed at 2.
        rewrite (resolver_entry_name n d e E).
        rewrite <- Permutation_middle. reflexivity.
      * intros Hall. apply Forall_cons in Hall as [_ Hall]. apply IH; [|exact Hall].
        intros k Hk. rewrite lookup_insert_ne by (intros ->; contradiction).
        apply Hfresh. right. exact Hk.
    + intros Hall. apply Forall_cons in Hall as [Hh _]. unfold resolves in Hh.
      cbn in Hh. rewrite E in Hh. discriminate Hh.
Qed.

Lemma NoDup_key_inj {A} (key : A -> string) (l : list A) (x y : A) :
  NoDup (key <$> l) -> x ∈ l -> y ∈ l -> key x = key y -> x = y.
Proof.
  induction l as [|a l IH]; intros Hnd Hx Hy Hk; [inversion Hx|].
  rewrite fmap_cons in Hnd. apply NoDup_cons in Hnd as [Ha Hnd].
  apply elem_of_cons in Hx as [->|Hx], Hy as [->|Hy].
  - reflexivity.
  - exfalso. apply Ha. rewrite Hk. apply list_elem_of_fmap. eauto.
  - exfalso. apply Ha. rewrite <- Hk. apply list_elem_of_fmap. eauto.
  - exact (IH Hnd Hx Hy Hk).
Qed.

(** X21: when [Resolve] succeeds, its result has one entry for each key of
    [GetAllDependencies], is sorted by name, and is the same for every
    order in which the two loops over the maps run. *)
Theorem Resolve_order_free (m : Manifest) (range range' : list (string * Dependency))
    (collect collect' : gmap string ResolvedDependency -> list ResolvedDependency)
    (deps : list ResolvedDependency) :
  range ≡ₚ map_to_list (GetAllDependencies m) ->
  range' ≡ₚ map_to_list (GetAllDependencies m) ->
  (forall r, collect r ≡ₚ (map_to_list r).*2) ->
  (forall r, collect' r ≡ₚ (map_to_list r).*2) ->
  Resolve lib remote range collect = Ok deps ->
  Resolve lib remote range' collect' = Ok deps
  /\ Sorted (fun a b => String.leb (RName a) (RName b) = true) deps
  /\ RName <$> deps ≡ₚ (map_to_list (GetAllDependencies m)).*1.
Proof.
  intros Hrange Hrange' Hcollect Hcollect'. unfold Resolve.
  assert (Hnd : forall l, l ≡ₚ map_to_list (GetAllDependencies m) -> NoDup l.*1).
  { intros l Hl. rewrite Hl. apply NoDup_fst_map_to_list. }
  pose proof (resolve_all_ok range ∅ (Hnd _ Hrange) (fun n _ => lookup_empty n)) as H.
  pose proof (resolve_all_ok range' ∅ (Hnd _ Hrange') (fun n _ => lookup_empty n)) as H'.
  destruct (resolve_all lib remote range ∅) as [r|msg]; [|discriminate].
  destruct H as [Hall Hperm]. intros [= <-].
  assert (Hall' : Forall (resolves lib remote) range') by (rewrite Hrange', <- Hrange; exact Hall).
  destruct (resolve_all lib remote range' ∅) as [r'|msg]; [|contradiction].
  destruct H' as [_ Hperm'].
  rewrite map_to_list_empty, app_nil_r in Hperm, Hperm'.
  assert (Hvals : forall l, (keyed <$> l).*2 = l).
  { intros l. rewrite <- list_fmap_compose. apply list_fmap_id. }
  assert (Hc : collect r ≡ₚ resolver_entries lib remote range).
  { rewrite Hcollect, Hperm. rewrite Hvals. reflexivity. }
  assert (Hc' : collect' r' ≡ₚ resolver_entries lib remote range).
  { rewrite Hcollect', Hperm', Hvals. unfold resolver_entries.
    rewrite Hrange', <- Hrange. reflexivity. }
  assert (Hkeys : RName <$> collect r ≡ₚ range.*1).
  { rewrite Hc. rewrite (resolver_entries_names range Hall). reflexivity. }
  split; [|split].
  - f_equal. apply sort_by_Permutation.
    + rewrite Hc', Hc. reflexivity.
    + intros x y Hx Hy. apply (NoDup_key_inj RName (collect' r') x y); [|exact Hx|exact Hy].
      rewrite Hc', <- Hc, Hkeys. exact (Hnd _ Hrange).
  - apply sort_by_sorted.
  - rewrite (sort_by_perm RName (collect r)), Hkeys, Hrange. reflexivity.
Qed.

End resolve.

(** Two dependencies, visited in the two possible orders. *)
Lemma Resolve_order_free_witness :
  let a := manifest.mkDependency "owner/repo" "" "" "v1" "" "" false in
  let b := manifest.mkDependency "owner/repo" "" "main" "" "" "" false in
  let remote := demo.remote_of [] (Response 404 (Err "")) [] in
  let values := fun r : gmap string resolver.ResolvedDependency => (map_to_list r).*2 in
  resolver.Resolve demo.lib remote [("b", b); ("a", a)] (fun r => reverse (values r))
  = Ok [resolver.mkResolvedDependency "a" "v1" "owner/repo" "" [];
        resolver.mkResolvedDependency "b" "main" "owner/repo" "" []].
Proof.
  intros a b remote values.
  apply (Resolve_order_free demo.lib remote
           (manifest.mkManifest {[ "a" := a; "b" := b ]} ∅ ∅)
           [("a", a); ("b", b)] [("b", b); ("a", a)] values
           (fun r => reverse (values r))).
  - vm_compute. first [reflexivity | apply perm_swap].
  - vm_compute. first [reflexivity | apply perm_swap].
  - intros r. reflexivity.
  - intros r. apply reverse_Permutation.
  - vm_compute. reflexivity.
Defined.

Section updates.
Import manifest resolver.
Context (lib : GoLib) (remote : Remote).


End updates.


(** ** The resolver against the tags and against the fetcher *)

Section resolved_version.
Import manifest.
Context (remote : Remote).

Lemma parse_all_In (tags : list string) (ver : semver.Version) :
  In ver (github.parse_all tags)
  <-> exists tag, In tag tags /\ semver.ParseVersion tag = Ok ver.
Proof.
  induction tags as [|t tags IH]; cbn [github.parse_all].
  - split; [intros []|intros (? & [] & _)].
  - destruct (semver.ParseVersion t) as [v|e] eqn:E.
    + cbn [In]. rewrite IH. split.
      * intros [<-|(tag & Hin & Htag)]; [exists t; split; [left; reflexivity|exact E]|].
        exists tag. split; [right; exact Hin|exact Htag].
      * intros (tag & [<-|Hin] & Htag); [left; congruence|].
        right. exists tag. split; assumption.
    + rewrite IH. split.
      * intros (tag & Hin & Htag). exists tag. split; [right; exact Hin|exact Htag].
      * intros (tag & [<-|Hin] & Htag); [congruence|]. exists tag. split; assumption.
Qed.

(** X23: for a dependency declared by a version constraint alone, the
    version that [resolveVersion] returns is the printed form of the version
    of one of the remote tags; that version satisfies the constraint, and so
    does no tag version above it.  The text is the normal form
    major.minor.patch, so it can differ from the name of the tag (v1.5.0
    resolves to 1.5.0). *)
Theorem resolveVersion_by_constraint (owner repo : string) (dep : Dependency)
    (v : string) :
  by_version dep -> manifest.Version dep <> "" ->
  resolver.resolveVersion remote owner repo dep = Ok v ->
  exists c tags tag best,
    semver.ParseConstraint (manifest.Version dep) = Ok c
    /\ github.GetTags remote owner repo = Ok tags
    /\ In tag tags /\ semver.ParseVersion tag = Ok best
    /\ v = semver.String_ best
    /\ semver.Satisfies c best = true
    /\ forall tag' ver, In tag' tags -> semver.ParseVersion tag' = Ok ver ->
         semver.Satisfies c ver = true -> (semver.Compare ver best <= 0)%Z.
Proof.
  intros (Hrev & Htag & Hbranch & _) Hver. unfold resolver.resolveVersion.
  rewrite Hrev, Htag, Hbranch. cbn [String.eqb negb].
  destruct (String.eqb_spec (manifest.Version dep) "") as [E|_]; [contradiction|].
  cbn [negb].
  destruct (semver.ParseConstraint (manifest.Version dep)) as [c|e]; [|discriminate].
  unfold github.GetAvailableVersions.
  destruct (github.GetTags remote owner repo) as [tags|e]; [|discriminate].
  destruct (github.parse_all tags) as [|v0 vs] eqn:Hparsed; [discriminate|].
  rewrite <- Hparsed. unfold semver.FindBestMatch.
  destruct (List.filter (semver.Satisfies c) (github.parse_all tags))
    as [|first rest] eqn:Hcand; [discriminate|].
  intros [= <-].
  destruct (best_candidate rest first) as [Hin Hmax].
  rewrite <- Hcand in Hin, Hmax.
  apply List.filter_In in Hin as [Hin Hsat].
  apply parse_all_In in Hin as (tag & Htags & Hbest).
  exists c, tags, tag. eexists. split; [reflexivity|]. split; [reflexivity|].
  split; [exact Htags|]. split; [exact Hbest|]. split; [reflexivity|].
  split; [exact Hsat|].
  intros tag' ver Hin' Hparse Hs. apply Hmax. apply List.filter_In.
  split; [|exact Hs]. apply parse_all_In. exists tag'. split; assumption.
Qed.

End resolved_version.

(** The tags 1.0.0, v1.5.0 and v2.0.0 under the constraint ^1.0.0. *)
Lemma resolveVersion_by_constraint_witness :
  let remote := demo.remote_of ["1.0.0"; "v1.5.0"; "v2.0.0"] (Response 404 (Err "")) [] in
  exists c tags tag best,
    semver.ParseConstraint "^1.0.0" = Ok c
    /\ github.GetTags remote "owner" "repo" = Ok tags
    /\ In tag tags /\ semver.ParseVersion tag = Ok best
    /\ "1.5.0" = semver.String_ best
    /\ semver.Satisfies c best = true
    /\ forall tag' ver, In tag' tags -> semver.ParseVersion tag' = Ok ver ->
         semver.Satisfies c ver = true -> (semver.Compare ver best <= 0)%Z.
Proof.
  intros remote.
  apply (resolveVersion_by_constraint remote "owner" "repo" (demo.dep "^1.0.0" "") "1.5.0").
  - repeat split.
  - discriminate.
  - vm_compute. reflexivity.
Defined.

Section selectors.
Import manifest.

(** X24: for a dependency with an explicit revision, tag or branch, the
    resolver and the fetcher settle on the same reference, the first of the
    three that is set, without asking the remote; the fetcher reports it as
    the version too, and as the commit id when it is a revision. *)
Theorem resolver_and_fetcher_agree (remote remote' : Remote) (owner repo : string)
    (dep : Dependency) :
  Rev dep <> "" \/ Tag dep <> "" \/ Branch dep <> "" ->
  let ref := if negb (String.eqb (Rev dep) "") then Rev dep
             else if negb (String.eqb (Tag dep) "") then Tag dep else Branch dep in
  resolver.resolveVersion remote owner repo dep = Ok ref
  /\ fetch.determineRefWithValidation remote' owner repo dep
     = Ok (ref, ref, if negb (String.eqb (Rev dep) "") then Rev dep else "").
Proof.
  intros Hsel. unfold resolver.resolveVersion, fetch.determineRefWithValidation.
  destruct (String.eqb_spec (Rev dep) "") as [Er|Nr]; cbn [negb];
    [|split; reflexivity].
  destruct (String.eqb_spec (Tag dep) "") as [Et|Nt]; cbn [negb];
    [|split; reflexivity].
  destruct (String.eqb_spec (Branch dep) "") as [Eb|Nb]; cbn [negb];
    [|split; reflexivity].
  exfalso. destruct Hsel as [H|[H|H]]; contradiction.
Qed.

(** A branch and a constraint: both take the branch. *)
Lemma resolver_and_fetcher_agree_witness :
  let dep := mkDependency "owner/repo" "^2.0.0" "dev" "" "" "" false in
  let remote := demo.remote_of [] (Response 404 (Err "")) [] in
  resolver.resolveVersion remote "owner" "repo" dep = Ok "dev"
  /\ fetch.determineRefWithValidation remote "owner" "repo" dep = Ok ("dev", "dev", "").
Proof.
  intros dep remote.
  apply (resolver_and_fetcher_agree remote remote "owner" "repo" dep).
  right. right. discriminate.
Defined.

End selectors.

(** ** The root file of [yuki init] *)

Section root_file.

Lemma ReplaceAll_cons (c : ascii) (s : string) (old n : ascii) :
  strings.ReplaceAll (String c s) old (String n "")
  = String (if Ascii.eqb c old then n else c) (strings.ReplaceAll s old (String n "")).
Proof. cbn [strings.ReplaceAll]. destruct (Ascii.eqb c old); reflexivity. Qed.

Lemma ReplaceAll_length (s : string) (old n : ascii) :
  String.length (strings.ReplaceAll s old (String n "")) = String.length s.
Proof.
  induction s as [|c s IH]; [reflexivity|]. rewrite ReplaceAll_cons.
  cbn [String.length]. rewrite IH. reflexivity.
Qed.

Lemma ReplaceAll_drop (k : nat) (s : string) (old n : ascii) :
  strings.drop_bytes k (strings.ReplaceAll s old (String n ""))
  = strings.ReplaceAll (strings.drop_bytes k s) old (String n "").
Proof.
  revert s. induction k as [|k IH]; intros s; [reflexivity|].
  destruct s as [|c s]; [reflexivity|]. rewrite ReplaceAll_cons.
  cbn [strings.drop_bytes]. apply IH.
Qed.

Lemma ReplaceAll_id (s : string) (old : ascii) (new : string) :
  has_byte old s = false -> strings.ReplaceAll s old new = s.
Proof.
  unfold has_byte. induction s as [|c s IH]; [reflexivity|]. cbn.
  rewrite (Ascii.eqb_sym old c). destruct (Ascii.eqb c old); [discriminate|].
  cbn. intros H. rewrite (IH H). reflexivity.
Qed.

Lemma ReplaceAll_gone (s : string) (old n : ascii) :
  n <> old -> has_byte old (strings.ReplaceAll s old (String n "")) = false.
Proof.
  intros Hn. unfold has_byte. induction s as [|c s IH]; [reflexivity|].
  rewrite ReplaceAll_cons. cbn [list_ascii_of_string existsb]. rewrite IH.
  destruct (Ascii.eqb_spec c old) as [->|Hc].
  - destruct (Ascii.eqb_spec old n); [congruence|reflexivity].
  - destruct (Ascii.eqb_spec old c); [congruence|reflexivity].
Qed.

Lemma HasSuffix_ReplaceAll (s suf : string) (old n : ascii) :
  strings.HasSuffix s suf = true -> has_byte old suf = false ->
  strings.HasSuffix (strings.ReplaceAll s old (String n "")) suf = true.
Proof.
  unfold strings.HasSuffix. cbv zeta. rewrite ReplaceAll_length, ReplaceAll_drop.
  intros H Hsuf. apply andb_prop in H as [Hlen Heq]. rewrite Hlen.
  apply String.eqb_eq in Heq. rewrite Heq, (ReplaceAll_id suf old _ Hsuf).
  apply String.eqb_refl.
Qed.

Lemma prefix_dots_ReplaceAll (s : string) (old n : ascii) :
  old <> "."%char -> n <> "."%char ->
  String.prefix ".." (strings.ReplaceAll s old (String n "")) = String.prefix ".." s.
Proof.
  intros Ho Hn.
  assert (Hdot : forall c, (if ascii_dec "." (if Ascii.eqb c old then n else c)
                            then true else false)
                           = (if ascii_dec "." c then true else false)).
  { intros c. destruct (Ascii.eqb_spec c old) as [->|_]; [|reflexivity].
    destruct (ascii_dec "." n), (ascii_dec "." old); congruence. }
  destruct s as [|c [|d s]]; rewrite ?ReplaceAll_cons; cbn [String.prefix].
  - reflexivity.
  - specialize (Hdot c). cbn [strings.ReplaceAll].
    destruct (ascii_dec "." (if Ascii.eqb c old then n else c)), (ascii_dec "." c);
      first [reflexivity | discriminate Hdot].
  - pose proof (Hdot c) as Hc. pose proof (Hdot d) as Hd.
    destruct (ascii_dec "." (if Ascii.eqb c old then n else c)), (ascii_dec "." c);
      try discriminate Hc; [|reflexivity].
    destruct (ascii_dec "." (if Ascii.eqb d old then n else d)), (ascii_dec "." d);
      try discriminate Hd; [|reflexivity].
    destruct (strings.ReplaceAll s old (String n "")), s; reflexivity.
Qed.

Lemma Contains_dots_ReplaceAll (s : string) (old n : ascii) :
  old <> "."%char -> n <> "."%char ->
  strings.Contains (strings.ReplaceAll s old (String n "")) ".."
  = strings.Contains s "..".
Proof.
  intros Ho Hn. induction s as [|c s IH]; [reflexivity|].
  assert (E : strings.Contains (strings.ReplaceAll (String c s) old (String n "")) ".."
              = String.prefix ".." (strings.ReplaceAll (String c s) old (String n ""))
                || strings.Contains (strings.ReplaceAll s old (String n "")) "..").
  { rewrite ReplaceAll_cons. reflexivity. }
  rewrite E, IH, (prefix_dots_ReplaceAll (String c s) old n Ho Hn). reflexivity.
Qed.

(** X25: a root file that [validateAndSanitizeRootFile] accepts comes back
    ending in ".zig", without ".." and without backslash.  When the cleaned
    path holds no backslash the result is the cleaned path and is relative;
    the test for an absolute path is made before the backslashes are turned
    into "/", so a path that starts with a backslash is accepted and comes
    back absolute. *)
Theorem sanitized_root_file (rootFile r : string) :
  cli.validateAndSanitizeRootFile rootFile = Ok r ->
  strings.HasSuffix r ".zig" = true
  /\ strings.Contains r ".." = false
  /\ has_byte cli.backslash r = false
  /\ (has_byte cli.backslash (filepath.Clean rootFile) = false ->
      r = filepath.Clean rootFile /\ filepath.IsAbs r = false)
  /\ cli.validateAndSanitizeRootFile (String cli.backslash "etc/build.zig")
     = Ok "/etc/build.zig".
Proof.
  unfold cli.validateAndSanitizeRootFile.
  destruct (strings.Contains (filepath.Clean rootFile) "..") eqn:Hdots; [discriminate|].
  destruct (filepath.IsAbs (filepath.Clean rootFile)) eqn:Habs; [discriminate|].
  destruct (strings.HasSuffix (filepath.Clean rootFile) ".zig") eqn:Hzig; [|discriminate].
  cbn [negb]. intros [= <-].
  split; [apply HasSuffix_ReplaceAll; [exact Hzig|reflexivity]|].
  split; [rewrite Contains_dots_ReplaceAll; [exact Hdots|discriminate|discriminate]|].
  split; [apply ReplaceAll_gone; discriminate|].
  split; [|vm_compute; reflexivity].
  intros Hback. rewrite (ReplaceAll_id _ _ _ Hback). split; [reflexivity|exact Habs].
Qed.

(** "./src//main.zig" *)
Lemma sanitized_root_file_witness :
  strings.HasSuffix "src/main.zig" ".zig" = true
  /\ strings.Contains "src/main.zig" ".." = false
  /\ has_byte cli.backslash "src/main.zig" = false
  /\ (has_byte cli.backslash (filepath.Clean "./src//main.zig") = false ->
      "src/main.zig" = filepath.Clean "./src//main.zig"
      /\ filepath.IsAbs "src/main.zig" = false)
  /\ cli.validateAndSanitizeRootFile (String cli.backslash "etc/build.zig")
     = Ok "/etc/build.zig".
Proof.
  apply (sanitized_root_file "./src//main.zig" "src/main.zig").
  vm_compute. reflexivity.
Defined.

End root_file.

(** ** The constraint operators against each other *)

Section operators_nest.
Import semver.
Local Open Scope Z_scope.

(** X26: the operators nest: a version accepted by "=x" is accepted by
    "~x", one accepted by "~x" by "^x", and one accepted by "^x" by ">=x";
    ">x" and "<x" exclude what "=x" accepts, and every version is accepted
    by at least one of ">=x" and "<=x". *)
Theorem operators_nest (x v : Version) :
  (Satisfies (mkConstraint "=" x) v = true -> Satisfies (mkConstraint "~" x) v = true)
  /\ (Satisfies (mkConstraint "~" x) v = true -> Satisfies (mkConstraint "^" x) v = true)
  /\ (Satisfies (mkConstraint "^" x) v = true -> Satisfies (mkConstraint ">=" x) v = true)
  /\ (Satisfies (mkConstraint "=" x) v = true ->
      Satisfies (mkConstraint ">" x) v = false
      /\ Satisfies (mkConstraint "<" x) v = false)
  /\ (Satisfies (mkConstraint ">=" x) v = true
      \/ Satisfies (mkConstraint "<=" x) v = true).
Proof.
  unfold Satisfies. cbn [Operator CVersion String.eqb Ascii.eqb Bool.eqb].
  assert (Hzero : Compare v x = 0 -> Major v = Major x /\ Minor v = Minor x).
  { unfold Compare.
    destruct (Z.eqb_spec (Major v) (Major x)); cbn [negb];
      [|destruct (Major v <? Major x); discriminate].
    destruct (Z.eqb_spec (Minor v) (Minor x)); cbn [negb];
      [|destruct (Minor v <? Minor x); discriminate].
    auto. }
  split; [|split; [|split; [|split]]].
  - intros H. apply Z.eqb_eq in H. destruct (Hzero H) as [-> ->].
    rewrite !Z.eqb_refl, H. reflexivity.
  - destruct (Major v =? Major x); cbn; [|discriminate].
    destruct (Minor v =? Minor x); cbn; [auto|discriminate].
  - destruct (Major v =? Major x); cbn; [auto|discriminate].
  - intros H. apply Z.eqb_eq in H. rewrite H. split; reflexivity.
  - destruct (Z.leb_spec 0 (Compare v x)); [left; reflexivity|right].
    apply Z.leb_le. lia.
Qed.

(** 1.2.5 against 1.2.3 *)
Lemma operators_nest_witness :
  Satisfies (mkConstraint "^" (mkVersion 1 2 3 "" "")) (mkVersion 1 2 5 "" "") = true.
Proof.
  destruct (operators_nest (mkVersion 1 2 3 "" "") (mkVersion 1 2 5 "" ""))
    as (_ & H & _).
  apply H. reflexivity.
Defined.

End operators_nest.

(** ** One key at a time *)

Section cache_local.
Context {FS : Type} (os : OS FS).

(** X27: [Set], [Delete] and [Get] (with its eviction) on one key leave the
    entry of every other key as it was, and [Delete] makes the next [Get] of
    its key miss. *)
Theorem cache_operations_are_local (c : cache.Cache) (fs : FS) (k k' : string)
    (e : Entry) :
  k' <> k ->
  cache.entries (cache.Set_ os c fs k e).1 !! k' = cache.entries c !! k'
  /\ cache.entries (cache.Delete os c fs k).1 !! k' = cache.entries c !! k'
  /\ cache.entries (cache.Get os c fs k).1.2 !! k' = cache.entries c !! k'
  /\ forall fs', cache.Get os (cache.Delete os c fs k).1 fs' k
                 = (None, (cache.Delete os c fs k).1, fs').
Proof.
  intros Hne. unfold cache.Set_, cache.Delete. cbn [fst cache.entries].
  split; [apply lookup_insert_ne; congruence|].
  split; [apply lookup_delete_ne; congruence|]. split.
  - unfold cache.Get. destruct (cache.entries c !! k) as [e0|]; [|reflexivity].
    destruct (os_Stat os fs (EPath e0)); cbn; try reflexivity.
    apply lookup_delete_ne. congruence.
  - intros fs'. apply Get_absent. cbn. apply lookup_delete_eq.
Qed.

End cache_local.

(** Two entries; the one under "a" is deleted. *)
Lemma cache_operations_are_local_witness :
  let os := demo.os_of (Dir []) in
  let c := cache.mkCache "/cache" {[ "a" := mkEntry "/p" "00" "v1" "";
                                     "b" := mkEntry "/q" "11" "v2" "" ]} in
  cache.entries (cache.Delete os c ∅ "a").1 !! "b" = cache.entries c !! "b".
Proof.
  intros os c.
  destruct (cache_operations_are_local os c ∅ "a" "b" (mkEntry "/r" "22" "v3" ""))
    as (_ & H & _).
  - discriminate.
  - exact H.
Defined.

(** ** The directory of a clone *)

Section clone_target.
Context {FS : Type} (os : OS FS) (utils : Utils).

(** [filepath.Join] of a path that is not empty with names, followed or not
    by "..", which takes the last name away. *)
Lemma Join_names (p : string) (front : list string) (x : string) (up : bool) :
  p <> "" -> front <> [] -> forallb valid_name front = true -> valid_name x = true ->
  filepath.Join (p :: front ++ [x] ++ (if up then [".."] else []))
  = path_of (strings.HasPrefix p "/")
            (root_elems p ++ front ++ (if up then [] else [x])).
Proof.
  intros Hp Hne Hfront Hx.
  set (tail := (front ++ [x] ++ (if up then [".."] else []))%list).
  assert (Htail : tail <> []) by (subst tail; destruct front; [contradiction|discriminate]).
  assert (Hsep : forallb (fun c => negb (has_sep c)) tail = true).
  { subst tail. rewrite !forallb_app, (valid_names_no_sep front Hfront).
    destruct (valid_name_spec _ Hx) as (_ & _ & _ & Hs). cbn. rewrite Hs.
    destruct up; reflexivity. }
  assert (Hfold : forall stack,
             fold_left (filepath.clean_step (strings.HasPrefix p "/")) tail stack
             = (rev (front ++ (if up then [] else [x])) ++ stack)%list).
  { intros stack. subst tail. rewrite !fold_left_app.
    rewrite (fold_clean_valid _ front _ Hfront). cbn [fold_left].
    rewrite (clean_step_valid _ _ _ Hx).
    destruct up.
    - cbn [fold_left]. rewrite app_nil_r.
      unfold filepath.clean_step. cbn [String.eqb Ascii.eqb Bool.eqb orb].
      destruct (valid_name_spec _ Hx) as (_ & _ & Hdd & _).
      destruct (String.eqb_spec x ".."); [contradiction|reflexivity].
    - cbn [fold_left]. rewrite rev_app_distr. reflexivity. }
  assert (Hcl : cleaned (strings.HasPrefix p "/")
                  (root_elems p ++ front ++ (if up then [] else [x]))).
  { apply cleaned_app; [apply root_cleaned|].
    rewrite forallb_app, Hfront. destruct up; cbn; [reflexivity|].
    rewrite Hx. reflexivity. }
  assert (Hnil : (root_elems p ++ front ++ (if up then [] else [x]))%list <> []).
  { destruct (root_elems p), front; try discriminate. contradiction. }
  unfold filepath.Join. cbn [filepath.drop_empty].
  destruct (String.eqb_spec p "") as [?|_]; [contradiction|].
  fold tail. rewrite (Join_cons p tail Htail). unfold filepath.Clean.
  destruct (String.eqb_spec (p ++ String "/" (strings.Join tail "/")) "") as [E|_].
  { destruct p; [contradiction|discriminate E]. }
  rewrite (HasPrefix_app _ _ Hp). unfold filepath.Separator.
  rewrite Split_app_sep, (Split_Join tail Htail Hsep).
  unfold filepath.clean_elems. rewrite fold_left_app, Hfold, rev_app_distr, rev_involutive.
  fold (filepath.clean_elems (strings.HasPrefix p "/") (strings.Split p "/")).
  change (filepath.clean_elems (strings.HasPrefix p "/") (strings.Split p "/"))
    with (root_elems p).
  fold (path_of (strings.HasPrefix p "/")
          (root_elems p ++ front ++ (if up then [] else [x]))).
  destruct (String.eqb_spec
              (path_of (strings.HasPrefix p "/")
                 (root_elems p ++ front ++ (if up then [] else [x]))) "") as [E|_];
    [|reflexivity].
  exfalso. exact (path_of_not_empty _ _ Hcl Hnil E).
Qed.

(** X28: [cloneRepository] does not look at the reference before it
    removes the target directory: for the reference ".." (a tag or branch
    of that name in the manifest) the target is the directory of the owner,
    which holds the cached clones of all the owner's repositories; it is
    removed first, and its parent is then made. *)
Theorem clone_of_dotdot_removes_owner_directory (cacheDir owner repo : string)
    (fs : FS) :
  cacheDir <> "" -> valid_name owner = true -> valid_name repo = true ->
  let ownerDir := filepath.Join [cacheDir; "repos"; owner] in
  filepath.Join [cacheDir; "repos"; owner; repo; ".."] = ownerDir
  /\ (forall e fs1, os_RemoveAll os fs ownerDir = (Some e, fs1) ->
        fetch.cloneRepository os utils cacheDir fs owner repo ".."
        = (Err ("failed to clean target directory: " ++ e), fs1))
  /\ (forall e fs1 fs2, os_RemoveAll os fs ownerDir = (None, fs1) ->
        os_MkdirAll os fs1 (filepath.Dir ownerDir) = (Some e, fs2) ->
        fetch.cloneRepository os utils cacheDir fs owner repo ".."
        = (Err ("failed to create cache directory: " ++ e), fs2)).
Proof.
  intros Hc Ho Hr ownerDir.
  assert (Hjoin : filepath.Join [cacheDir; "repos"; owner; repo; ".."] = ownerDir).
  { subst ownerDir.
    assert (Hfront : forallb valid_name ["repos"; owner] = true)
      by (cbn; rewrite Ho; reflexivity).
    pose proof (Join_names cacheDir ["repos"] owner false Hc
                  ltac:(discriminate) eq_refl Ho) as H1.
    pose proof (Join_names cacheDir ["repos"; owner] repo true Hc
                  ltac:(discriminate) Hfront Hr) as H2.
    cbn [app] in H1, H2. rewrite H1, H2. reflexivity. }
  split; [exact Hjoin|]. unfold fetch.cloneRepository. rewrite Hjoin. split.
  - intros e fs1 Hrm. rewrite Hrm. reflexivity.
  - intros e fs1 fs2 Hrm Hmk. rewrite Hrm, Hmk. reflexivity.
Qed.

End clone_target.

(** The cache /home/u/.yuki/cache and the repository owner/repo. *)
Lemma clone_of_dotdot_removes_owner_directory_witness :
  filepath.Join ["/home/u/.yuki/cache"; "repos"; "owner"; "repo"; ".."]
  = "/home/u/.yuki/cache/repos/owner".
Proof.
  destruct (clone_of_dotdot_removes_owner_directory (demo.os_of (Dir [])) demo.utils
              "/home/u/.yuki/cache" "owner" "repo" ∅) as (H & _).
  - discriminate.
  - reflexivity.
  - reflexivity.
  - exact H.
Defined.
